(** * wikipedia_sqlite: a shallow embedding of the ingestion and query core

    The Go package [wikipedia] (type [Wiki] with [Open], [createTables],
    [LoadIndex], [ProcessArticles], [GetArticle], [SearchTitles]) and the
    HTTP handler [handleSearch] of [main.go] are transcribed as Rocq
    functions over an explicit model of the SQLite store.

    Conventions.
    - A Go [string] is a byte sequence: [list ascii].  [len] is [length],
      [s[:n]] is [take n s].
    - Go [int]/[int64] values are [Z] (no claim here depends on wrap-around).
    - The database file is a record [Database]: the rows of [sqlite_master],
      of [articles] (kept in rowid order, [id] being the INTEGER PRIMARY KEY)
      and of [index_entries] (in insertion order).
    - What the SQL engine decides on its own (is the fts5/fts4 module
      compiled in, which rows an FTS5 MATCH returns and in which rank order,
      can the file be opened at all) is an [Engine] record passed to every
      operation.
    - Each operation returns its Go results together with the new state and
      the lines it wrote with [log.Printf].  [ProcessArticles], whose loop
      need not end, gives a [Run]: the operation returns, or it never does
      and the database file and the log are left as given. *)

From Stdlib Require Import ZArith NArith List Ascii String Bool Lia.
From stdpp Require Import base list strings gmap.

Local Open Scope Z_scope.

(** ** Go strings *)

Module GoString.

Abbreviation gostring := (list ascii).

(** A literal: [B "abc"] is the Go string ["abc"]. *)
Definition B (s : string) : gostring := list_ascii_of_string s.

Definition byte_val (c : ascii) : N := N_of_ascii c.

Definition is_upper (c : ascii) : bool :=
  ((65 <=? byte_val c) && (byte_val c <=? 90))%N.
Definition is_lower (c : ascii) : bool :=
  ((97 <=? byte_val c) && (byte_val c <=? 122))%N.
Definition is_digit (c : ascii) : bool :=
  ((48 <=? byte_val c) && (byte_val c <=? 57))%N.

Definition lower_byte (c : ascii) : ascii :=
  if is_upper c then ascii_of_N (byte_val c + 32) else c.
Definition upper_byte (c : ascii) : ascii :=
  if is_lower c then ascii_of_N (byte_val c - 32) else c.

(** Byte-wise equality, Go's [==] on strings. *)
Definition eqb (s t : gostring) : bool := bool_decide (s = t).

(** memcmp order, used by SQLite's BINARY collation. *)
Fixpoint leb (s t : gostring) : bool :=
  match s, t with
  | [], _ => true
  | _ :: _, [] => false
  | c :: s', d :: t' =>
      if (byte_val c <? byte_val d)%N then true
      else if (byte_val d <? byte_val c)%N then false
      else leb s' t'
  end.

Fixpoint has_prefix (p s : gostring) : bool :=
  match p, s with
  | [], _ => true
  | _ :: _, [] => false
  | c :: p', d :: s' => bool_decide (c = d) && has_prefix p' s'
  end.

(** [strings.Contains(s, sub)] *)
Fixpoint contains (s sub : gostring) : bool :=
  has_prefix sub s ||
  match s with
  | [] => false
  | _ :: s' => contains s' sub
  end.

(** [strings.ReplaceAll(s, old, new)] for a one-byte [old]. *)
Definition replace_byte (old : ascii) (new : gostring) (s : gostring) : gostring :=
  flat_map (fun c => if bool_decide (c = old) then new else [c]) s.

(** [strings.Cut]-like helper: the text before the first [sep] and the
    text after it, or [None] when [sep] does not occur. *)
Fixpoint cut (sep : ascii) (s : gostring) : option (gostring * gostring) :=
  match s with
  | [] => None
  | c :: s' =>
      if bool_decide (c = sep) then Some ([], s')
      else match cut sep s' with
           | Some (a, b) => Some (c :: a, b)
           | None => None
           end
  end.

(** [strings.SplitN(s, sep, 3)] for a one-byte separator: at most three
    parts, split at the first two separators. *)
Definition SplitN3 (sep : ascii) (s : gostring) : list gostring :=
  match cut sep s with
  | None => [s]
  | Some (p0, r) =>
      match cut sep r with
      | None => [p0; r]
      | Some (p1, p2) => [p0; p1; p2]
      end
  end.

(** Decimal digits of [strconv.ParseUint(s, 10, 64)], without the range
    check: [None] on an empty string or a byte that is not a digit. *)
Fixpoint digits_value (acc : Z) (s : gostring) : option Z :=
  match s with
  | [] => Some acc
  | c :: s' =>
      if is_digit c
      then digits_value (10 * acc + (Z.of_N (byte_val c) - 48)) s'
      else None
  end.

Definition ParseUint64 (s : gostring) : option Z :=
  match s with
  | [] => None
  | _ =>
      match digits_value 0 s with
      | Some v => if v <? 2 ^ 64 then Some v else None
      | None => None
      end
  end.

(** [strconv.ParseInt(s, 10, 64)]: an optional sign, at least one digit,
    a value in the int64 range; [None] stands for a non-nil error. *)
Definition ParseInt (s : gostring) : option Z :=
  match s with
  | [] => None
  | c :: s' =>
      let neg := bool_decide (c = "-"%char) in
      let body := if bool_decide (c = "+"%char) || neg then s' else s in
      match ParseUint64 body with
      | None => None
      | Some un =>
          if negb neg && (2 ^ 63 <=? un) then None
          else if neg && (2 ^ 63 <? un) then None
          else Some (if neg then - un else un)
      end
  end.

End GoString.

Import GoString.

(** ** bufio.Scanner with [scanner.Buffer(buf, 16*1024)] and [ScanLines] *)

Module Scanner.

Inductive ScanError := ErrTooLong.

Definition newline : ascii := "010"%char.
Definition carriage_return : ascii := "013"%char.

(** [dropCR]: a trailing carriage return is not part of the token. *)
Definition dropCR (tok : gostring) : gostring :=
  match last tok with
  | Some c => if bool_decide (c = carriage_return) then removelast tok else tok
  | None => tok
  end.

(** [Scan] over the whole decompressed stream.  [held] bytes of the
    current line sit in the buffer ([heldRev], latest first).  The buffer
    is [bufSize] bytes and may not grow ([maxTokenSize = cap(buf)]): when
    it is full and holds no newline, [Scan] sets [ErrTooLong] and returns
    false for good.  The reader is taken to report end of input on a
    read of its own, as [io.Reader]s usually do. *)
Fixpoint scanFrom (bufSize held : N) (heldRev : gostring) (data : gostring)
  : list gostring * option ScanError :=
  if (bufSize <=? held)%N then ([], Some ErrTooLong)
  else
    match data with
    | [] =>
        match heldRev with
        | [] => ([], None)
        | _ => ([dropCR (rev heldRev)], None)
        end
    | c :: rest =>
        if bool_decide (c = newline) then
          let '(toks, e) := scanFrom bufSize 0 [] rest in
          (dropCR (rev heldRev) :: toks, e)
        else scanFrom bufSize (held + 1) (c :: heldRev) rest
    end.

(** [buf := make([]byte, 0, 16*1024); scanner.Buffer(buf, 16*1024)] *)
Definition bufferSize : N := 16 * 1024.

(** The tokens [scanner.Scan()/scanner.Text()] yields, in order, and what
    [scanner.Err()] reports once [Scan] has returned false. *)
Definition scanLines (data : gostring) : list gostring * option ScanError :=
  scanFrom bufferSize 0 [] data.

End Scanner.

(** ** The store *)

Record Article := mkArticle {
  ID : Z;
  Title : gostring;
  Namespace : Z;
  Content : gostring;
  Redirect : gostring
}.

Record IndexEntry := mkIndexEntry { Seek : Z; EntryID : Z }.

#[global] Instance IndexEntry_eq_dec : EqDecision IndexEntry.
Proof. solve_decision. Defined.

#[global] Instance Article_eq_dec : EqDecision Article.
Proof. solve_decision. Defined.

(** A row of [sqlite_master]. For a virtual table [vmodule] names the
    module that backs it. *)
Inductive ObjType := TTable | TIndex | TTrigger.
Inductive FtsModule := Fts5 | Fts4.

#[global] Instance ObjType_eq_dec : EqDecision ObjType.
Proof. solve_decision. Defined.
#[global] Instance FtsModule_eq_dec : EqDecision FtsModule.
Proof. solve_decision. Defined.

Record SchemaObject := mkObject {
  obj_type : ObjType;
  obj_name : gostring;
  obj_sql : gostring;
  obj_module : option FtsModule
}.

#[global] Instance SchemaObject_eq_dec : EqDecision SchemaObject.
Proof. solve_decision. Defined.

Record Database := mkDatabase {
  sqlite_master : list SchemaObject;
  articles : list Article;
  index_entries : list IndexEntry
}.

Definition emptyDatabase : Database := mkDatabase [] [] [].

(** What [log.Printf] writes. *)
Inductive LogLine :=
| LogDetectedExisting (version : gostring)
| LogFts5Unavailable
| LogFts4Unavailable
| LogTriggerWarning
| LogUsingFts (version : gostring)
| LogFtsNotAvailable
| LogReadingIndex
| LogIndexInsertError
| LogProcessedEntries (n : Z)
| LogDoneIndex (n : Z)
| LogFoundArticles (n : Z)
| LogProcessingArticles
| LogXmlDecodeError
| LogArticleInsertError (id : Z)
| LogProcessedArticles (n : Z)
| LogDoneArticles (n : Z)
| LogFtsQueryFailed.

(** Errors the package returns ([fmt.Errorf] texts, by their prefix). *)
Inductive Error :=
| ErrSetWAL
| ErrSetCacheSize
| ErrCreateTables
| ErrScanner (e : Scanner.ScanError)
| ErrPrepareStatement
| ErrArticleNotFound (title : gostring)
| ErrArticleIDNotFound (id : Z)
| ErrSearchFailed.

Inductive Result (A : Type) :=
| Ok (a : A)
| Err (e : Error).
Arguments Ok {A} a.
Arguments Err {A} e.

(** [INSERT OR IGNORE INTO index_entries (seek, article_id)]: the pair is
    the primary key, a row already there is kept and nothing is added. *)
Definition insert_index_entry (e : IndexEntry) (tbl : list IndexEntry) : list IndexEntry :=
  if bool_decide (e ∈ tbl) then tbl else tbl ++ [e].

(** [INSERT OR REPLACE INTO articles]: [id] is the rowid, a row with the
    same id is replaced; rows stay in rowid order. *)
Fixpoint upsert_article (a : Article) (tbl : list Article) : list Article :=
  match tbl with
  | [] => [a]
  | r :: rs =>
      if ID a <? ID r then a :: r :: rs
      else if ID a =? ID r then a :: rs
      else r :: upsert_article a rs
  end.

(** ** The engine and the [Wiki] handle *)

(** What the SQLite build and the file system decide.
    - [store_available]: the database file can be opened; when it cannot,
      the first statement [Open] executes (the WAL pragma) fails.
    - [fts5_compiled], [fts4_compiled]: the module exists, so that
      [CREATE VIRTUAL TABLE ... USING fts5/fts4] and queries on such a table
      work.
    - [fts5_match rows expr]: the titles of the rows of an fts5 table over
      [rows] that MATCH [expr], in [rank] order; [None] when the engine
      rejects [expr] (an fts5 syntax error), which it does when the
      statement is first stepped, not when it is prepared. *)
Record Engine := mkEngine {
  store_available : bool;
  fts5_compiled : bool;
  fts4_compiled : bool;
  fts5_match : list Article -> gostring -> option (list gostring)
}.

(** The fields of [type Wiki struct] that are not paths or locks. [db_open]
    is [w.db != nil]; [ftsVersion] is the Go string ("fts5", "fts4",
    "none", and "" before [createTables] ran). *)
Record Wiki := mkWiki {
  db_open : bool;
  initialized : bool;
  ftsVersion : gostring
}.

Definition NewWiki : Wiki := mkWiki false false [].

Record State := mkState {
  wiki : Wiki;
  database : Database
}.

(** How a call ends: it returns, or it never does.  [NeverReturns st lg]
    holds the handle and the database file as the spinning process leaves
    them, and the lines it logs before it repeats its last line without
    end. *)
Inductive Run (A : Type) :=
| Returns (a : A)
| NeverReturns (st : State) (lg : list LogLine).
Arguments Returns {A} a.
Arguments NeverReturns {A} st lg.

Definition set_ftsVersion (v : gostring) (w : Wiki) : Wiki :=
  mkWiki (db_open w) (initialized w) v.

(** [strings.ToLower] and SQLite's [LOWER()] on the ASCII range.  SQLite
    (built without ICU, as go-sqlite3 is) folds only A-Z. *)
Definition ToLowerASCII (s : gostring) : gostring := map lower_byte s.
Definition sql_lower (s : gostring) : gostring := map lower_byte s.

Module Schema.

Definition has_object (t : ObjType) (name : gostring) (m : list SchemaObject) : bool :=
  existsb (fun o => bool_decide (obj_type o = t) && eqb (obj_name o) name) m.

(** [CREATE ... IF NOT EXISTS name]: a no-op when the object is there. *)
Definition create_if_not_exists (o : SchemaObject) (m : list SchemaObject)
  : list SchemaObject :=
  if has_object (obj_type o) (obj_name o) m then m else m ++ [o].

(** [SELECT sql FROM sqlite_master WHERE name = ? AND type = 'table'] *)
Definition table_object (name : gostring) (m : list SchemaObject) : option SchemaObject :=
  find (fun o => bool_decide (obj_type o = TTable) && eqb (obj_name o) name) m.

Definition articles_table : SchemaObject :=
  mkObject TTable (B "articles")
    (B "CREATE TABLE articles (id INTEGER PRIMARY KEY, title TEXT NOT NULL, namespace INTEGER NOT NULL, content TEXT, redirect TEXT, created_at DATETIME DEFAULT CURRENT_TIMESTAMP)")
    None.

Definition article_indexes : list SchemaObject :=
  [ mkObject TIndex (B "idx_articles_title")
      (B "CREATE INDEX idx_articles_title ON articles(title)") None;
    mkObject TIndex (B "idx_articles_namespace")
      (B "CREATE INDEX idx_articles_namespace ON articles(namespace)") None;
    mkObject TIndex (B "idx_articles_redirect")
      (B "CREATE INDEX idx_articles_redirect ON articles(redirect)") None ].

Definition fts5_table : SchemaObject :=
  mkObject TTable (B "articles_fts")
    (B "CREATE VIRTUAL TABLE articles_fts USING fts5(title, content, content_rowid=id, content='articles')")
    (Some Fts5).

Definition fts4_table : SchemaObject :=
  mkObject TTable (B "articles_fts")
    (B "CREATE VIRTUAL TABLE articles_fts USING fts4(title, content, content='articles')")
    (Some Fts4).

(** The three triggers; the fts5 ones address [rowid], the fts4 ones
    [docid]. *)
Definition fts_triggers (key : gostring) : list SchemaObject :=
  [ mkObject TTrigger (B "articles_ai")
      (B "CREATE TRIGGER articles_ai AFTER INSERT ON articles: insert " ++ key) None;
    mkObject TTrigger (B "articles_ad")
      (B "CREATE TRIGGER articles_ad AFTER DELETE ON articles: delete " ++ key) None;
    mkObject TTrigger (B "articles_au")
      (B "CREATE TRIGGER articles_au AFTER UPDATE ON articles: delete, insert " ++ key) None ].

Definition index_entries_table : SchemaObject :=
  mkObject TTable (B "index_entries")
    (B "CREATE TABLE index_entries (seek INTEGER NOT NULL, article_id INTEGER NOT NULL, PRIMARY KEY (seek, article_id))")
    None.

Definition index_entries_index : SchemaObject :=
  mkObject TIndex (B "idx_index_entries_seek")
    (B "CREATE INDEX idx_index_entries_seek ON index_entries(seek)") None.

Definition create_all (objs : list SchemaObject) (m : list SchemaObject)
  : list SchemaObject :=
  fold_left (fun acc o => create_if_not_exists o acc) objs m.

Definition trigger_object (name : gostring) (m : list SchemaObject)
  : option SchemaObject :=
  find (fun o => bool_decide (obj_type o = TTrigger) && eqb (obj_name o) name) m.

(** Does [INSERT OR REPLACE INTO articles ...] prepare?  The statement
    is compiled together with the AFTER INSERT trigger of the table
    (the DELETE trigger is left out, recursive triggers being off), and
    the trigger writes to articles_fts: when the trigger is there, the
    statement is rejected if that table is missing ("no such table"), is
    a virtual table whose module the build lacks ("no such module"), or
    is an fts5 table addressed by [docid], a column only fts4 has.  A
    plain table of that name is taken to have the columns the trigger
    names. *)
Definition insert_prepares (eng : Engine) (m : list SchemaObject) : bool :=
  match trigger_object (B "articles_ai") m with
  | None => true
  | Some trigger =>
      match table_object (B "articles_fts") m with
      | None => false
      | Some o =>
          match obj_module o with
          | Some Fts5 => fts5_compiled eng && negb (contains (obj_sql trigger) (B "docid"))
          | Some Fts4 => fts4_compiled eng
          | None => true
          end
      end
  end.

End Schema.

(** [createTables].  Returns the detected version, the new schema and the
    log lines.  With the store available the plain DDL statements succeed,
    so the function's error returns are not reached. *)
Definition createTables (eng : Engine) (m : list SchemaObject)
  : gostring * list SchemaObject * list LogLine :=
  let m1 := Schema.create_if_not_exists Schema.articles_table m in
  let m2 := Schema.create_all Schema.article_indexes m1 in
  let existingSQL :=
    match Schema.table_object (B "articles_fts") m2 with
    | Some o => Some (obj_sql o)
    | None => None
    end in
  let '(version, m3, lg) :=
    match existingSQL with
    | Some (c :: sql) =>
        let existing := c :: sql in
        let v :=
          if contains (ToLowerASCII existing) (B "fts5") then B "fts5"
          else if contains (ToLowerASCII existing) (B "fts4") then B "fts4"
          else B "none" in
        (v, m2, [LogDetectedExisting v])
    | _ =>
        (* CREATE VIRTUAL TABLE IF NOT EXISTS ... USING fts5: succeeds when
           the module exists, and is a no-op when the table is there *)
        if fts5_compiled eng || Schema.has_object TTable (B "articles_fts") m2 then
          (B "fts5",
           Schema.create_all (Schema.fts_triggers (B "rowid"))
             (Schema.create_if_not_exists Schema.fts5_table m2),
           [])
        else if fts4_compiled eng then
          (B "fts4",
           Schema.create_all (Schema.fts_triggers (B "docid"))
             (Schema.create_if_not_exists Schema.fts4_table m2),
           [LogFts5Unavailable])
        else (B "none", m2, [LogFts5Unavailable; LogFts4Unavailable])
    end in
  let lg' := if eqb version (B "none") then [LogFtsNotAvailable]
             else [LogUsingFts version] in
  let m4 := Schema.create_if_not_exists Schema.index_entries_table m3 in
  let m5 := Schema.create_if_not_exists Schema.index_entries_index m4 in
  (version, m5, lg ++ lg').

(** [Open].  [sql.Open] only builds the handle; the first statement that
    reaches the file is the WAL pragma. *)
Definition Open (eng : Engine) (st : State) : option Error * State * list LogLine :=
  let w := wiki st in
  if initialized w then (None, st, [])
  else
    let w1 := mkWiki true (initialized w) (ftsVersion w) in
    if negb (store_available eng) then
      (Some ErrSetWAL, mkState w1 (database st), [])
    else
      let d := database st in
      let '(version, m, lg) := createTables eng (sqlite_master d) in
      (None,
       mkState (mkWiki true true version) (mkDatabase m (articles d) (index_entries d)),
       lg).

(** ** LoadIndex *)

Module LoadIndex.

Definition batchSize : Z := 10000.

(** The loop state: the rows committed so far, the rows the open
    transaction sees, the counter [i], the log. *)
Record Loop := mkLoop {
  committed : list IndexEntry;
  view : list IndexEntry;
  i : Z;
  logged : list LogLine
}.

(** One line of the index file: [None] when the line is skipped
    ([len(parts) < 3], or a number that does not parse). *)
Definition parse_line (line : gostring) : option IndexEntry :=
  match SplitN3 ":"%char line with
  | [p0; p1; _] =>
      match ParseInt p0 with
      | None => None
      | Some seek =>
          match ParseInt p1 with
          | None => None
          | Some id => Some (mkIndexEntry seek id)
          end
      end
  | _ => None
  end.

(** The body of [for scanner.Scan()] for a line that parsed. *)
Definition insert_step (e : IndexEntry) (st : Loop) : Loop :=
  let v := insert_index_entry e (view st) in
  let i' := i st + 1 in
  if i' mod batchSize =? 0
  then mkLoop v v i' (logged st ++ [LogProcessedEntries i'])
  else mkLoop (committed st) v i' (logged st).

(** The loop. [true] in the result: left by [break]. *)
Fixpoint loop (limit : Z) (lines : list gostring) (st : Loop) : Loop * bool :=
  match lines with
  | [] => (st, false)
  | line :: rest =>
      match parse_line line with
      | None => loop limit rest st
      | Some e =>
          let st' := insert_step e st in
          if (0 <? limit) && (limit <=? i st') then (st', true)
          else loop limit rest st'
      end
  end.

(** After the loop: [scanner.Err()], then the final commit.  On the error
    return the open transaction is never committed. *)
Definition finish (scanErr : option Scanner.ScanError) (r : Loop * bool)
  : option Error * list IndexEntry * list LogLine :=
  let '(st, broke) := r in
  match (if broke then None else scanErr) with
  | Some e => (Some (ErrScanner e), committed st, logged st)
  | None => (None, view st, logged st ++ [LogDoneIndex (i st)])
  end.

(** The function after [Open] succeeded, on the decompressed bytes of
    the index file. *)
Definition run (limit : Z) (data : gostring) (tbl : list IndexEntry)
  : option Error * list IndexEntry * list LogLine :=
  let '(lines, scanErr) := Scanner.scanLines data in
  finish scanErr (loop limit lines (mkLoop tbl tbl 0 [LogReadingIndex])).

End LoadIndex.

Definition LoadIndex (eng : Engine) (data : gostring) (limit : Z) (st : State)
  : option Error * State * list LogLine :=
  match Open eng st with
  | (Some e, st1, lg) => (Some e, st1, lg)
  | (None, st1, lg) =>
      let d := database st1 in
      let '(err, tbl, lg') := LoadIndex.run limit data (index_entries d) in
      (err, mkState (wiki st1) (mkDatabase (sqlite_master d) (articles d) tbl), lg ++ lg')
  end.

(** ** ProcessArticles *)

(** [type Redirect struct] and [type Page struct]; of the revision fields
    only [Text] is read by the package. *)
Module Redirect.
Record t := mk { Title : gostring }.
End Redirect.

Module Page.
Record t := mk {
  Title : gostring;
  NS : Z;
  ID : Z;
  Redirect : list Redirect.t;
  Text : gostring
}.
End Page.

(** What one call of [decoder.Decode(&page)] gives before [io.EOF]: a
    page; an error of this call alone (a start element that does not
    unmarshal into [Page]), after which the decoder reads on; or an error
    the decoder keeps (an XML syntax error, a read error of the
    decompressor, a truncated file): [xml.Decoder] stores it and returns
    it again from every later call, so that [io.EOF] is never seen. *)
Inductive Decoded :=
| DecodeError
| StickyError
| DecodedPage (page : Page.t).

Module ProcessArticles.

Definition batchSize : Z := 1000.

(** [10*1024*1024], the bound on [len(content)]. *)
Definition maxContentBytes : Z := 10 * 1024 * 1024.

(** [content := page.Text; if len(content) > 10*1024*1024 { content =
    content[:10*1024*1024] }] *)
Definition truncateContent (content : gostring) : gostring :=
  if maxContentBytes <? Z.of_nat (length content)
  then take (Z.to_nat maxContentBytes) content
  else content.

(** [redirect := ""; if len(page.Redirect) > 0 { redirect =
    page.Redirect[0].Title }] *)
Definition redirectOf (page : Page.t) : gostring :=
  match Page.Redirect page with
  | [] => []
  | r :: _ => Redirect.Title r
  end.

(** [SELECT DISTINCT article_id FROM index_entries] gathered in
    [indexSet := make(map[int64]bool)]. *)
Definition indexSetOf (tbl : list IndexEntry) : gset Z :=
  list_to_set (map EntryID tbl).

(** The two [continue]s that discard a page. *)
Definition kept (indexSet : gset Z) (page : Page.t) : bool :=
  (Page.NS page =? 0) && bool_decide (Page.ID page ∈ indexSet).

(** The arguments of [stmt.Exec] for a kept page. *)
Definition rowOf (page : Page.t) : Article :=
  mkArticle (Page.ID page) (Page.Title page) (Page.NS page)
    (truncateContent (Page.Text page)) (redirectOf page).

(** The loop state: the [articles] rows as the open transaction sees
    them and as the last commit left them, the rows handed to
    [stmt.Exec] so far, the two counters, the log, and whether the
    decoder holds an error it keeps.  No [stmt.Exec] fails in this model,
    so a loop that is left commits and the table after the run is
    [view]. *)
Record Loop := mkLoop {
  view : list Article;
  committed : list Article;
  execs : list Article;
  count : Z;
  processed : Z;
  logged : list LogLine;
  stuck : bool
}.

Definition log_decode_error (st : Loop) : Loop :=
  mkLoop (view st) (committed st) (execs st) (count st) (processed st)
    (logged st ++ [LogXmlDecodeError]) (stuck st).

(** The decoder keeps its error: [Decode] returns it on every later
    call, each is logged and followed by [continue], and neither
    [break] of the loop is reached again. *)
Definition spin (st : Loop) : Loop :=
  mkLoop (view st) (committed st) (execs st) (count st) (processed st) (logged st) true.

Definition store_step (page : Page.t) (st : Loop) : Loop :=
  let row := rowOf page in
  let v := upsert_article row (view st) in
  let count' := count st + 1 in
  let processed' := processed st + 1 in
  if batchSize <=? count'
  then mkLoop v v (execs st ++ [row]) 0 processed'
         (logged st ++ [LogProcessedArticles processed']) (stuck st)
  else mkLoop v (committed st) (execs st ++ [row]) count' processed'
         (logged st) (stuck st).

Fixpoint loop (indexSet : gset Z) (limit : Z) (stream : list Decoded) (st : Loop)
  : Loop :=
  match stream with
  | [] => st                                    (* io.EOF *)
  | DecodeError :: rest => loop indexSet limit rest (log_decode_error st)
  | StickyError :: _ => spin (log_decode_error st)
  | DecodedPage page :: rest =>
      if kept indexSet page then
        let st' := store_step page st in
        if (0 <? limit) && (limit <=? processed st') then st'
        else loop indexSet limit rest st'
      else loop indexSet limit rest st
  end.

(** From the first log line to the last: a loop that is left is
    followed by the final commit and the closing line. *)
Definition run (limit : Z) (stream : list Decoded) (d : Database) : Loop :=
  let indexSet := indexSetOf (index_entries d) in
  let st := loop indexSet limit stream
              (mkLoop (articles d) (articles d) [] 0 0
                 [LogFoundArticles (Z.of_nat (size indexSet)); LogProcessingArticles]
                 false) in
  if stuck st then st
  else mkLoop (view st) (view st) (execs st) (count st) (processed st)
         (logged st ++ [LogDoneArticles (processed st)]) false.

End ProcessArticles.

(** [ProcessArticles].  [tx.Prepare] comes after the first log line and
    before the loop; when it fails the function returns without a
    rollback.  When the decoder keeps an error the loop is never left:
    the function does not return and the rows written since the last
    commit stay uncommitted. *)
Definition ProcessArticles (eng : Engine) (stream : list Decoded) (limit : Z) (st : State)
  : Run (option Error * State * list LogLine) :=
  match Open eng st with
  | (Some e, st1, lg) => Returns (Some e, st1, lg)
  | (None, st1, lg) =>
      let d := database st1 in
      if Schema.insert_prepares eng (sqlite_master d) then
        let r := ProcessArticles.run limit stream d in
        if ProcessArticles.stuck r then
          NeverReturns
            (mkState (wiki st1)
               (mkDatabase (sqlite_master d) (ProcessArticles.committed r) (index_entries d)))
            (lg ++ ProcessArticles.logged r)
        else
          Returns
            (None,
             mkState (wiki st1)
               (mkDatabase (sqlite_master d) (ProcessArticles.view r) (index_entries d)),
             lg ++ ProcessArticles.logged r)
      else
        Returns
          (Some ErrPrepareStatement, st1,
           lg ++ [LogFoundArticles
                    (Z.of_nat (size (ProcessArticles.indexSetOf (index_entries d))))])
  end.

(** ** Queries *)

Module Sql.

(** What [db.Query] returns as its error: the statement does not
    prepare. *)
Inductive QueryError :=
| NoSuchTable
| NoSuchModule
| NoSuchColumnRank.

(** [LIMIT ?]: a negative bound means no bound. *)
Definition limit_rows {A} (n : Z) (rows : list A) : list A :=
  if n <? 0 then rows else take (Z.to_nat n) rows.

(** [SELECT DISTINCT]: later copies of a value are dropped. *)
Fixpoint distinct_from (seen : list gostring) (l : list gostring) : list gostring :=
  match l with
  | [] => []
  | x :: l' =>
      if bool_decide (x ∈ seen) then distinct_from seen l'
      else x :: distinct_from (x :: seen) l'
  end.
Definition distinct (l : list gostring) : list gostring := distinct_from [] l.

(** [ORDER BY title] under the BINARY collation. *)
Fixpoint insert_sorted (x : gostring) (l : list gostring) : list gostring :=
  match l with
  | [] => [x]
  | y :: l' => if leb x y then x :: y :: l' else y :: insert_sorted x l'
  end.
Definition order_by_title (l : list gostring) : list gostring :=
  foldr insert_sorted [] l.

(** [X LIKE pattern] without ESCAPE.  SQLite compares characters, not
    bytes.  Pattern and text are NUL-terminated UTF-8, read with
    [sqlite3Utf8Read]: a byte below 0xC0 is a character of its own; a
    byte from 0xC0 on takes every continuation byte (0x80-0xBF) that
    follows into one character, whose value is computed in 32 bits and
    replaced by U+FFFD when it is below 0x80, a surrogate, 0xFFFE or
    0xFFFF. *)
Definition lead_bits (b : N) : N :=
  (if b <? 224 then b - 192
   else if b <? 240 then b - 224
   else if b <? 248 then b - 240
   else if b <? 252 then b - 248
   else if b <? 254 then b - 252
   else 0)%N.

Definition add_continuation (c b : N) : N :=
  ((c * 64 + N.land b 63) mod 2 ^ 32)%N.

Definition read_value (c : N) : N :=
  (if (c <? 128) || (N.land c 4294965248 =? 55296) || (N.land c 4294967294 =? 65534)
   then 65533 else c)%N.

Definition is_continuation (b : N) : bool := ((128 <=? b) && (b <? 192))%N.

Definition flush (pending : option N) : list N :=
  match pending with
  | Some c => [read_value c]
  | None => []
  end.

(** The characters of [s] up to its first NUL byte, [pending] being the
    character a lead byte has begun. *)
Fixpoint characters_from (pending : option N) (s : gostring) : list N :=
  match s with
  | [] => flush pending
  | b :: s' =>
      let v := byte_val b in
      match pending with
      | Some c =>
          if is_continuation v
          then characters_from (Some (add_continuation c v)) s'
          else
            read_value c ::
            (if (v =? 0)%N then []
             else if (192 <=? v)%N then characters_from (Some (lead_bits v)) s'
             else v :: characters_from None s')
      | None =>
          if (v =? 0)%N then []
          else if (192 <=? v)%N then characters_from (Some (lead_bits v)) s'
          else v :: characters_from None s'
      end
  end.

Definition characters (s : gostring) : list N := characters_from None s.

Definition percent : N := 37.
Definition underscore : N := 95.

(** [sqlite3Tolower] on a character below 0x80. *)
Definition fold_ascii (c : N) : N :=
  (if (65 <=? c) && (c <=? 90) then c + 32 else c)%N.

(** Equal, or both below 0x80 and equal without case. *)
Definition same_character (c d : N) : bool :=
  ((c =? d) || ((c <? 128) && (d <? 128) && (fold_ascii c =? fold_ascii d)))%N.

(** [%] is any run of characters, [_] one character. *)
Fixpoint like_characters (pat : list N) : list N -> bool :=
  match pat with
  | [] => fun s => bool_decide (s = [])
  | c :: pat' =>
      if (c =? percent)%N then
        fix star (s : list N) : bool :=
          like_characters pat' s || match s with [] => false | _ :: s' => star s' end
      else
        fun s =>
          match s with
          | [] => false
          | d :: s' =>
              (same_character c d || (c =? underscore)%N) && like_characters pat' s'
          end
  end.

Definition like (pat s : gostring) : bool :=
  like_characters (characters pat) (characters s).

(** [SQLITE_MAX_LIKE_PATTERN_LENGTH]: a longer pattern makes LIKE raise
    "LIKE or GLOB pattern too complex" on the first row. *)
Definition likePatternLimit : Z := 50000.

Definition find_article_by_title_exact (title : gostring) (tbl : list Article)
  : option Article :=
  find (fun a => eqb (Title a) title) tbl.

Definition find_article_by_title_ci (title : gostring) (tbl : list Article)
  : option Article :=
  find (fun a => eqb (sql_lower (Title a)) (sql_lower title)) tbl.

Definition find_article_by_id (id : Z) (tbl : list Article) : option Article :=
  find (fun a => ID a =? id) tbl.

(** [SELECT DISTINCT title FROM articles_fts WHERE articles_fts MATCH ?
    ORDER BY rank LIMIT ?], from [db.Query] to the last [rows.Next()].
    [rank] is a column of fts5 tables only: on a table backed by fts4
    (hidden columns [docid] and the table name, no [rank]) the statement
    does not prepare, and [db.Query] returns the error.  An expression
    that fts5 rejects is an error of the first step: [db.Query] returns
    rows and a nil error, the first [rows.Next()] is false, and
    [rows.Err()], which would tell, is not read by [SearchTitles]: the
    rows are none. *)
Definition search_fts (eng : Engine) (d : Database) (expr : gostring) (limit : Z)
  : QueryError + list gostring :=
  match Schema.table_object (B "articles_fts") (sqlite_master d) with
  | None => inl NoSuchTable
  | Some o =>
      match obj_module o with
      | Some Fts5 =>
          if fts5_compiled eng then
            match fts5_match eng (articles d) expr with
            | Some ranked => inr (limit_rows limit (distinct ranked))
            | None => inr []
            end
          else inl NoSuchModule
      | Some Fts4 => if fts4_compiled eng then inl NoSuchColumnRank else inl NoSuchModule
      | None => inl NoSuchColumnRank
      end
  end.

(** [SELECT DISTINCT title FROM articles WHERE title LIKE ? ORDER BY
    title LIMIT ?], from [db.Query] to the last [rows.Next()].  The
    error of a pattern that is too long is an error of the first step
    and, like that of a MATCH, goes unread: the rows are none. *)
Definition search_like (d : Database) (pattern : gostring) (limit : Z) : list gostring :=
  if likePatternLimit <? Z.of_nat (length pattern) then []
  else
    limit_rows limit
      (order_by_title
         (distinct (map Title (List.filter (fun a => like pattern (Title a)) (articles d))))).

End Sql.

(** The two library calls of [GetArticle]: [strings.ToLower] and
    [cases.Title(language.AmericanEnglish).String]. *)
Record TextLib := mkTextLib {
  strings_ToLower : gostring -> gostring;
  cases_Title : gostring -> gostring
}.

(** Their behaviour on ASCII text (on other text this instance is not the
    library).  [ToLower] folds A-Z.  [Title] writes the first letter of
    every word in upper case and its other letters in lower case, and
    copies every other byte.  A word is broken by every byte that is not a
    letter, a digit, the underscore or one of the three characters
    ['], [.] and [:], which stay inside a word unless two of them meet. *)
Module AsciiText.

Definition is_letter (c : ascii) : bool := is_upper c || is_lower c.

(** Word_Break MidLetter, MidNumLet and Single_Quote. *)
Definition is_mid (c : ascii) : bool :=
  bool_decide (c = "'"%char) || bool_decide (c = "."%char) || bool_decide (c = ":"%char).

(** Word_Break ALetter, Numeric and ExtendNumLet do not break. *)
Definition is_break (c : ascii) : bool :=
  negb (is_letter c || is_digit c || bool_decide (c = "_"%char) || is_mid c).

(** The loop of the title caser: [midWord] is [c.isMidWord], [wasMid]
    tells whether the byte before was one of the three. *)
Fixpoint title_from (midWord wasMid : bool) (s : gostring) : gostring :=
  match s with
  | [] => []
  | c :: s' =>
      let midWord := if wasMid && is_mid c then false else midWord in
      if is_letter c then
        (if midWord then lower_byte c else upper_byte c) :: title_from true false s'
      else
        c :: title_from (if is_break c then false else midWord) (is_mid c) s'
  end.

Definition lib : TextLib := mkTextLib ToLowerASCII (title_from false false).

End AsciiText.

(** [GetArticle] *)
Definition GetArticle (lib : TextLib) (eng : Engine) (title : gostring) (st : State)
  : Result Article * State * list LogLine :=
  match Open eng st with
  | (Some e, st1, lg) => (Err e, st1, lg)
  | (None, st1, lg) =>
      let tbl := articles (database st1) in
      match Sql.find_article_by_title_exact title tbl with
      | Some article => (Ok article, st1, lg)
      | None =>
          let titleCase := cases_Title lib (strings_ToLower lib title) in
          match Sql.find_article_by_title_ci titleCase tbl with
          | Some article => (Ok article, st1, lg)
          | None => (Err (ErrArticleNotFound title), st1, lg)
          end
      end
  end.

(** [GetArticleByID] *)
Definition GetArticleByID (eng : Engine) (id : Z) (st : State)
  : Result Article * State * list LogLine :=
  match Open eng st with
  | (Some e, st1, lg) => (Err e, st1, lg)
  | (None, st1, lg) =>
      match Sql.find_article_by_id id (articles (database st1)) with
      | Some article => (Ok article, st1, lg)
      | None => (Err (ErrArticleIDNotFound id), st1, lg)
      end
  end.

Module SearchTitles.

Definition double_quote : ascii := "034"%char.

(** [if limit <= 0 { limit = 20 }] *)
Definition normalize (limit : Z) : Z := if limit <=? 0 then 20 else limit.

(** [escapedQuery + "*"], both quote characters doubled. *)
Definition ftsQuery (query : gostring) : gostring :=
  replace_byte "'"%char (B "''")
    (replace_byte double_quote [double_quote; double_quote] query) ++ B "*".

(** ["%" + query + "%"] *)
Definition likePattern (query : gostring) : gostring :=
  B "%" ++ query ++ B "%".

Definition uses_fts (version : gostring) : bool :=
  eqb version (B "fts5") || eqb version (B "fts4").

End SearchTitles.

(** [SearchTitles].  [rows] is [Some] once a query has succeeded. *)
Definition SearchTitles (eng : Engine) (query : gostring) (limit : Z) (st : State)
  : Result (list gostring) * State * list LogLine :=
  match Open eng st with
  | (Some e, st1, lg) => (Err e, st1, lg)
  | (None, st1, lg) =>
      let limit := SearchTitles.normalize limit in
      let d := database st1 in
      let '(rows, w, lg1) :=
        if SearchTitles.uses_fts (ftsVersion (wiki st1)) then
          match Sql.search_fts eng d (SearchTitles.ftsQuery query) limit with
          | inr titles => (Some titles, wiki st1, [])
          | inl _ => (None, set_ftsVersion (B "none") (wiki st1), [LogFtsQueryFailed])
          end
        else (None, wiki st1, []) in
      let rows' :=
        if eqb (ftsVersion w) (B "none") || bool_decide (rows = None)
        then Sql.search_like d (SearchTitles.likePattern query) limit
        else default [] rows in
      (Ok rows', mkState w d, lg ++ lg1)
  end.

(** ** [handleSearch] of main.go *)

Inductive Response :=
| BadRequest (msg : gostring)
| SearchJSON (query : gostring) (results : list gostring) (count : Z)
| HandlerError (e : Error).

(** [q] and [limitStr] are [r.URL.Query().Get("q")] and [Get("limit")],
    empty when the parameter is missing. *)
Definition handleSearch (eng : Engine) (q limitStr : gostring) (st : State)
  : Response * State * list LogLine :=
  match q with
  | [] => (BadRequest (B "Missing query parameter 'q'"), st, [])
  | _ =>
      let limit :=
        match limitStr with
        | [] => 20
        | _ => match ParseInt limitStr with
               | Some parsed => parsed
               | None => 20
               end
        end in
      match SearchTitles eng q limit st with
      | (Err e, st1, lg) => (HandlerError e, st1, lg)
      | (Ok titles, st1, lg) => (SearchJSON q titles (Z.of_nat (length titles)), st1, lg)
      end
  end.


(** ** The other handlers and the start-up of main.go *)

Inductive ArticleResponse :=
| ArticleBadRequest (msg : gostring)
| ArticleNotFound (e : Error)
| ArticleJSON (a : Article).

(** [handleGetArticle]; [title] is [r.URL.Query().Get("title")].  Every
    error of [GetArticle] is answered with [http.StatusNotFound] and the
    error text. *)
Definition handleGetArticle (lib : TextLib) (eng : Engine) (title : gostring) (st : State)
  : ArticleResponse * State * list LogLine :=
  match title with
  | [] => (ArticleBadRequest (B "Missing title parameter"), st, [])
  | _ =>
      match GetArticle lib eng title st with
      | (Err e, st1, lg) => (ArticleNotFound e, st1, lg)
      | (Ok article, st1, lg) => (ArticleJSON article, st1, lg)
      end
  end.

(** [handleGetArticleByID]; [idStr] is [mux.Vars(r)["id"]], which the route
    [/article/{id:[0-9]+}] restricts to decimal digits. *)
Definition handleGetArticleByID (eng : Engine) (idStr : gostring) (st : State)
  : ArticleResponse * State * list LogLine :=
  match ParseInt idStr with
  | None => (ArticleBadRequest (B "Invalid article ID"), st, [])
  | Some id =>
      match GetArticleByID eng id st with
      | (Err e, st1, lg) => (ArticleNotFound e, st1, lg)
      | (Ok article, st1, lg) => (ArticleJSON article, st1, lg)
      end
  end.

(** [main] from [wikipedia.NewWiki] on: the preprocessing phase and the
    decision to serve.  The dump files are given by their decompressed
    contents. *)
Module Main.

(** What [main] prints itself, next to the lines of the package. *)
Inductive Line :=
| LoadingIndex
| IndexLoaded
| ProcessingArticles
| ArticlesProcessed
| StartingServer
| Package (l : LogLine).

(** How [main] goes on: [log.Fatalf] (exit status 1) with the error,
    [os.Exit(0)] after preprocessing, or [handleRequests()]; or it stays
    in [ProcessArticles] for good. *)
Inductive Outcome :=
| FailedToLoadIndex (e : Error)
| FailedToProcessArticles (e : Error)
| FailedToOpenDatabase (e : Error)
| Exit0
| Serve
| NeverExits.

Definition run (eng : Engine) (loadIndex processArticles : bool) (limit : Z)
    (indexData : gostring) (stream : list Decoded) (d : Database)
  : Outcome * State * list Line :=
  let st0 := mkState NewWiki d in
  let '(failed1, st1, lg1) :=
    if loadIndex then
      match LoadIndex eng indexData limit st0 with
      | (Some e, st', lg) => (Some e, st', LoadingIndex :: map Package lg)
      | (None, st', lg) => (None, st', LoadingIndex :: map Package lg ++ [IndexLoaded])
      end
    else (None, st0, []) in
  match failed1 with
  | Some e => (FailedToLoadIndex e, st1, lg1)
  | None =>
      let step2 :=
        if processArticles then
          match ProcessArticles eng stream limit st1 with
          | Returns (Some e, st', lg) =>
              Returns (Some e, st', ProcessingArticles :: map Package lg)
          | Returns (None, st', lg) =>
              Returns (None, st', ProcessingArticles :: map Package lg ++ [ArticlesProcessed])
          | NeverReturns st' lg => NeverReturns st' lg
          end
        else Returns (None, st1, []) in
      match step2 with
      | NeverReturns st2 lg =>
          (NeverExits, st2, lg1 ++ ProcessingArticles :: map Package lg)
      | Returns (Some e, st2, lg2) => (FailedToProcessArticles e, st2, lg1 ++ lg2)
      | Returns (None, st2, lg2) =>
          if loadIndex || processArticles then (Exit0, st2, lg1 ++ lg2)
          else
            match Open eng st2 with
            | (Some e, st3, lg) => (FailedToOpenDatabase e, st3, lg1 ++ lg2 ++ map Package lg)
            | (None, st3, lg) =>
                (Serve, st3, lg1 ++ lg2 ++ map Package lg ++ [StartingServer])
            end
      end
  end.

End Main.

(** ** The article view of the front end *)

(** [ArticleView.tsx]: the text shown for an article.  A JavaScript string
    is a sequence of UTF-16 code units; [redirect] may be missing. *)
Module ArticleView.

Abbreviation jsstring := (list N).

Definition js (s : string) : jsstring := map N_of_ascii (list_ascii_of_string s).

Record Article := mk {
  id : Z;
  title : jsstring;
  namespace : Z;
  content : jsstring;
  redirect : option jsstring
}.

(** A string in a condition: true unless undefined or empty. *)
Definition truthy (s : option jsstring) : bool :=
  match s with
  | Some (_ :: _) => true
  | _ => false
  end.

Definition truncatedNote : jsstring :=
  [10; 10]%N ++ js "[... content truncated ...]".

(** [const content = article.redirect ? ... : article.content ? ... :
    'No content available'] *)
Definition shown (article : Article) : jsstring :=
  if truthy (redirect article) then
    js "This article redirects to: " ++ default [] (redirect article)
  else if truthy (Some (content article)) then
    if 5000 <? Z.of_nat (length (content article))
    then take (Z.to_nat 5000) (content article) ++ truncatedNote
    else content article
  else js "No content available".

End ArticleView.
(** ** Vocabulary of the properties *)

(** Well-formed UTF-8 (Unicode, table 3-7), what Go's [utf8.Valid]
    accepts. *)
Module Utf8.

Definition in_range (lo hi : N) (c : ascii) : bool :=
  ((lo <=? byte_val c) && (byte_val c <=? hi))%N.

Definition is_continuation (c : ascii) : bool := in_range 128 191 c.

(** The second byte of a three-byte and of a four-byte sequence. *)
Definition second_of_3 (b0 b1 : ascii) : bool :=
  if (byte_val b0 =? 224)%N then in_range 160 191 b1
  else if (byte_val b0 =? 237)%N then in_range 128 159 b1
  else in_range 128 191 b1.
Definition second_of_4 (b0 b1 : ascii) : bool :=
  if (byte_val b0 =? 240)%N then in_range 144 191 b1
  else if (byte_val b0 =? 244)%N then in_range 128 143 b1
  else in_range 128 191 b1.

Fixpoint valid (s : gostring) : bool :=
  match s with
  | [] => true
  | b0 :: s1 =>
      if (byte_val b0 <? 128)%N then valid s1
      else if in_range 194 223 b0 then
        match s1 with
        | b1 :: s2 => is_continuation b1 && valid s2
        | _ => false
        end
      else if in_range 224 239 b0 then
        match s1 with
        | b1 :: b2 :: s3 => second_of_3 b0 b1 && is_continuation b2 && valid s3
        | _ => false
        end
      else if in_range 240 244 b0 then
        match s1 with
        | b1 :: b2 :: b3 :: s4 =>
            second_of_4 b0 b1 && is_continuation b2 && is_continuation b3 && valid s4
        | _ => false
        end
      else false
  end.

(** The text that follows a cut starts a character: it is empty or its
    first byte is not a continuation byte. *)
Definition starts_character (rest : gostring) : bool :=
  match rest with
  | [] => true
  | c :: _ => negb (is_continuation c)
  end.

End Utf8.

(** The bytes of an index file whose lines are [lines], each closed by a
    newline. *)
Definition index_file (lines : list gostring) : gostring :=
  concat (map (fun l => l ++ [Scanner.newline]) lines).

(** A line the scanner buffer can hold with its newline. *)
Definition fits_buffer (l : gostring) : Prop :=
  (Scanner.newline ∉ l) /\ (N.of_nat (length l) < Scanner.bufferSize)%N.

(** All of [es] inserted in order with INSERT OR IGNORE. *)
Definition insert_all (tbl : list IndexEntry) (es : list IndexEntry) : list IndexEntry :=
  fold_left (fun t e => insert_index_entry e t) es tbl.

(** Closed instances of [Forall fits_buffer]. *)
Ltac all_fit :=
  repeat (apply Forall_cons_2;
          [ split; [ apply (bool_decide_unpack _); vm_compute; exact I
                   | vm_compute; reflexivity ] | ]);
  apply Forall_nil_2.

(** A fresh handle on an empty database file, and an engine with both FTS
    modules whose fts5 MATCH returns every title. *)
Definition freshState : State := mkState NewWiki emptyDatabase.
Definition fullEngine : Engine :=
  mkEngine true true true (fun rows _ => Some (map Title rows)).

(** What a run of the loop does to the table depends on the lines, the
    limit and the counter only: the same entries [es] are inserted, and
    the last commit, if there was one, happened after the same entries
    [ec]. *)
Definition same_plan (a b a' b' : LoadIndex.Loop) : Prop :=
  LoadIndex.i a' = LoadIndex.i b' /\
  exists es,
    LoadIndex.view a' = insert_all (LoadIndex.view a) es /\
    LoadIndex.view b' = insert_all (LoadIndex.view b) es /\
    ((LoadIndex.committed a' = LoadIndex.committed a /\
      LoadIndex.committed b' = LoadIndex.committed b) \/
     exists ec,
       LoadIndex.committed a' = insert_all (LoadIndex.view a) ec /\
       LoadIndex.committed b' = insert_all (LoadIndex.view b) ec).

(** The pages the decoder yields: those of the stream up to the first
    error it keeps, the failed calls left out. *)
Fixpoint pages_of (stream : list Decoded) : list Page.t :=
  match stream with
  | [] => []
  | DecodedPage page :: rest => page :: pages_of rest
  | DecodeError :: rest => pages_of rest
  | StickyError :: _ => []
  end.

(** The handle and the database a call leaves behind, what it logs, and
    whether it returns. *)
Definition state_of {A} (r : Run (A * State * list LogLine)) : State :=
  match r with
  | Returns (_, st, _) => st
  | NeverReturns st _ => st
  end.

Definition log_of {A} (r : Run (A * State * list LogLine)) : list LogLine :=
  match r with
  | Returns (_, _, lg) => lg
  | NeverReturns _ lg => lg
  end.

Definition returns {A} (r : Run A) : bool :=
  match r with
  | Returns _ => true
  | NeverReturns _ _ => false
  end.

(** The effect of [limit] on a run: a positive limit keeps the first
    [limit] rows, any other value keeps them all. *)
Definition first_rows {A} (limit : Z) (rows : list A) : list A :=
  if 0 <? limit then take (Z.to_nat limit) rows else rows.

(** All of [rows] written in order with INSERT OR REPLACE. *)
Definition upsert_all (tbl : list Article) (rows : list Article) : list Article :=
  fold_left (fun t r => upsert_article r t) rows tbl.

(** The title of the first redirect target, the empty string without one. *)
Definition first_redirect_title (page : Page.t) : gostring :=
  default [] (Redirect.Title <$> head (Page.Redirect page)).

(** The calls the package offers, and a process as a sequence of calls on
    one [Wiki] handle, each under the engine behaviour of its moment.  A
    call that does not return is the last one of its process. *)
Inductive Call :=
| CallOpen
| CallLoadIndex (data : gostring) (limit : Z)
| CallProcessArticles (stream : list Decoded) (limit : Z)
| CallGetArticle (title : gostring)
| CallGetArticleByID (id : Z)
| CallSearchTitles (query : gostring) (limit : Z).

Definition perform (lib : TextLib) (eng : Engine) (c : Call) (st : State)
  : State * list LogLine :=
  match c with
  | CallOpen => let '(_, st', lg) := Open eng st in (st', lg)
  | CallLoadIndex data limit => let '(_, st', lg) := LoadIndex eng data limit st in (st', lg)
  | CallProcessArticles stream limit =>
      let r := ProcessArticles eng stream limit st in (state_of r, log_of r)
  | CallGetArticle title => let '(_, st', lg) := GetArticle lib eng title st in (st', lg)
  | CallGetArticleByID id => let '(_, st', lg) := GetArticleByID eng id st in (st', lg)
  | CallSearchTitles query limit =>
      let '(_, st', lg) := SearchTitles eng query limit st in (st', lg)
  end.

Definition comes_back (eng : Engine) (c : Call) (st : State) : bool :=
  match c with
  | CallProcessArticles stream limit => returns (ProcessArticles eng stream limit st)
  | _ => true
  end.

Fixpoint perform_all (lib : TextLib) (calls : list (Engine * Call)) (st : State)
  : State * list LogLine :=
  match calls with
  | [] => (st, [])
  | (eng, c) :: rest =>
      let '(st1, lg1) := perform lib eng c st in
      if comes_back eng c st then
        let '(st2, lg2) := perform_all lib rest st1 in
        (st2, lg1 ++ lg2)
      else (st1, lg1)
  end.

(** The lines [createTables] writes; it always writes one of the last
    two. *)
Definition probe_line (l : LogLine) : bool :=
  match l with
  | LogDetectedExisting _ | LogFts5Unavailable | LogFts4Unavailable
  | LogTriggerWarning | LogUsingFts _ | LogFtsNotAvailable => true
  | _ => false
  end.

(** Scenario data: a text of 10 MiB + 1 byte whose last character, a
    two-byte one (U+00E9), straddles the 10 MiB offset. *)
Definition straddling_text : gostring :=
  repeat "a"%char (Z.to_nat ProcessArticles.maxContentBytes - 1)
    ++ ["195"%char; "169"%char].

(** Scenario data: the index and the pages of the end-to-end examples, and
    the state after [LoadIndex] and [ProcessArticles] ran on them. *)
Definition scenario_index : gostring :=
  index_file [B "597:10:AccessibleComputing"; B "10:12:Anarchism"; B "11:13:Talk:Anarchism"].

Definition scenario_stream : list Decoded :=
  [ DecodedPage (Page.mk (B "AccessibleComputing") 0 10
                   [Redirect.mk (B "Computer accessibility")] []);
    DecodedPage (Page.mk (B "Anarchism") 0 12 []
                   (B "Anarchism is a political philosophy"));
    DecodedPage (Page.mk (B "Talk:Anarchism") 1 13 [] (B "Discussion")) ].

Definition after_ingestion (eng : Engine) : State :=
  let '(_, st1, _) := LoadIndex eng scenario_index (-1) freshState in
  state_of (ProcessArticles eng scenario_stream (-1) st1).

(** An engine without any FTS module. *)
Definition likeEngine : Engine := mkEngine true false false (fun _ _ => None).

(** An engine with the fts4 module only. *)
Definition fts4Engine : Engine := mkEngine true false true (fun _ _ => None).

(** An fts5 build.  Of its MATCH only this matters here: two expressions
    that SearchTitles builds are syntax errors, the one for the query made
    of the word Mercury, a space and an opening parenthesis, which is never
    closed, and the one for the empty query, a star alone. *)
Definition fts5Engine : Engine :=
  mkEngine true true true
    (fun rows expr =>
       if eqb expr (SearchTitles.ftsQuery (B "Mercury ("))
          || eqb expr (SearchTitles.ftsQuery [])
       then None
       else Some (map Title rows)).

(** Scenario data: a title with a parenthesis, ingested by an fts5 build. *)
Definition mercury_index : gostring := index_file [B "1:7:Mercury (planet)"].

Definition mercury_stream : list Decoded :=
  [ DecodedPage (Page.mk (B "Mercury (planet)") 0 7 [] (B "Mercury is a planet")) ].

Definition after_mercury : State :=
  let '(_, st1, _) := LoadIndex fts5Engine mercury_index (-1) freshState in
  state_of (ProcessArticles fts5Engine mercury_stream (-1) st1).

(** The schema of a database file by its origin: a new file, or one that
    an earlier run of this program made from a new file under the build
    [eng0]. *)
Definition schema_from (origin : option Engine) : list SchemaObject :=
  match origin with
  | None => []
  | Some eng0 => (createTables eng0 []).1.2
  end.

(** The full-text module that such a file's triggers write to, if it has
    any, is in the build [eng]. *)
Definition module_at_hand (origin : option Engine) (eng : Engine) : bool :=
  match origin with
  | None => true
  | Some eng0 =>
      if fts5_compiled eng0 then fts5_compiled eng
      else if fts4_compiled eng0 then fts4_compiled eng
      else true
  end.

(** The distinct titles of [articles] in title order. *)
Definition titles_in_order (d : Database) : list gostring :=
  Sql.order_by_title (Sql.distinct (map Title (articles d))).

(** The answer of the LIKE query of [SearchTitles]. *)
Definition like_answer (d : Database) (query : gostring) (limit : Z) : list gostring :=
  Sql.search_like d (SearchTitles.likePattern query) (SearchTitles.normalize limit).

(** The state after [SearchTitles] demoted the mode. *)
Definition demoted (st : State) : State :=
  mkState (set_ftsVersion (B "none") (wiki st)) (database st).

(** A log without any line of [createTables]. *)
Definition quiet (lg : list LogLine) : Prop := existsb probe_line lg = false.

(** What every call leaves alone once the handle is initialized. *)
Definition keeps_handle (st st' : State) : Prop :=
  initialized (wiki st') = true
  /\ db_open (wiki st') = db_open (wiki st)
  /\ sqlite_master (database st') = sqlite_master (database st)
  /\ (ftsVersion (wiki st') = ftsVersion (wiki st) \/ ftsVersion (wiki st') = B "none").

(** The handle and database after the first [Open] of a fresh process. *)
Definition opened (eng : Engine) : State := (Open eng freshState).1.2.

(** ** Vocabulary of the further properties *)

(** The entries of the lines that parse, in file order. *)
Definition entries_of (lines : list gostring) : list IndexEntry :=
  omap LoadIndex.parse_line lines.

(** How many entries a loop of [LoadIndex] inserts when it starts with the
    counter at [i0] and [len] lines that parse lie ahead. *)
Definition inserted_count (limit i0 : Z) (len : nat) : nat :=
  if 0 <? limit then Nat.min (Z.to_nat (limit - i0)) len else len.

(** How many of them are inserted before the last commit inside the loop:
    the counter's last multiple of the batch size, when the loop gets
    there. *)
Definition committed_count (i0 : Z) (n : nat) : Z :=
  LoadIndex.batchSize * ((i0 + Z.of_nat n) / LoadIndex.batchSize) - i0.

(** The rows of [articles] in the order of strictly increasing ids, which
    is how a table with an INTEGER PRIMARY KEY holds them. *)
Fixpoint ids_increasing (tbl : list Article) : Prop :=
  match tbl with
  | [] => True
  | a :: rest => (forall b, b ∈ rest -> ID a < ID b) /\ ids_increasing rest
  end.

(** The rows [ProcessArticles] hands to the store for a stream, given the
    rows of index_entries. *)
Definition rows_written (limit : Z) (stream : list Decoded) (idx : list IndexEntry)
  : list Article :=
  first_rows limit
    (map ProcessArticles.rowOf
       (List.filter (ProcessArticles.kept (ProcessArticles.indexSetOf idx))
          (pages_of stream))).

(** An object of type [t] named [n]. *)
Definition is_named (t : ObjType) (n : gostring) (o : SchemaObject) : bool :=
  bool_decide (obj_type o = t) && eqb (obj_name o) n.

(** The mode the capability ladder of [createTables] arrives at. *)
Definition ladder (eng : Engine) : gostring :=
  if fts5_compiled eng then B "fts5"
  else if fts4_compiled eng then B "fts4"
  else B "none".

(** The full-text table it creates, if any. *)
Definition ladder_table (eng : Engine) : option SchemaObject :=
  if fts5_compiled eng then Some Schema.fts5_table
  else if fts4_compiled eng then Some Schema.fts4_table
  else None.

(** The tables and indexes [createTables] creates under every engine. *)
Definition base_objects : list SchemaObject :=
  Schema.articles_table :: Schema.article_indexes
    ++ [Schema.index_entries_table; Schema.index_entries_index].

Definition in_schema (o : SchemaObject) (m : list SchemaObject) : bool :=
  Schema.has_object (obj_type o) (obj_name o) m.

(** The mode [createTables] reads off the DDL of an existing articles_fts
    table. *)
Definition detect (sql : gostring) : gostring :=
  if contains (ToLowerASCII sql) (B "fts5") then B "fts5"
  else if contains (ToLowerASCII sql) (B "fts4") then B "fts4"
  else B "none".

(** A schema with the plain tables and indexes created where missing. *)
Definition with_base (m : list SchemaObject) : list SchemaObject :=
  Schema.create_if_not_exists Schema.index_entries_index
    (Schema.create_if_not_exists Schema.index_entries_table
       (Schema.create_all Schema.article_indexes
          (Schema.create_if_not_exists Schema.articles_table m))).

(** The last log line of [createTables] for a mode. *)
Definition mode_line (v : gostring) : LogLine :=
  if eqb v (B "none") then LogFtsNotAvailable else LogUsingFts v.

(** A list of titles in the order of the BINARY collation. *)
Fixpoint in_title_order (l : list gostring) : Prop :=
  match l with
  | [] => True
  | x :: rest => (forall y, y ∈ rest -> leb x y = true) /\ in_title_order rest
  end.

(** The byte that ends a C string. *)
Definition NUL : ascii := "000"%char.

(** [title] holds [query] as a run of whole characters, the letters A-Z
    counting as a-z: the run, and what follows it, start a character. *)
Definition holds_characters (title query : gostring) : Prop :=
  exists pre mid post,
    title = pre ++ mid ++ post
    /\ sql_lower mid = sql_lower query
    /\ Utf8.starts_character mid = true
    /\ Utf8.starts_character post = true.

(** How often the byte [c] occurs in [s]. *)
Definition occurs (c : ascii) (s : gostring) : nat :=
  length (List.filter (fun x => bool_decide (x = c)) s).

(** A stream without the calls that fail on their own. *)
Fixpoint skip_call_errors (stream : list Decoded) : list Decoded :=
  match stream with
  | [] => []
  | DecodeError :: rest => skip_call_errors rest
  | d :: rest => d :: skip_call_errors rest
  end.


(** * Properties *)

(** ** The scanner *)

Section ScannerFacts.
Import Scanner.

Lemma scanFrom_eq bs held heldRev data :
  scanFrom bs held heldRev data =
  if (bs <=? held)%N then ([], Some ErrTooLong)
  else
    match data with
    | [] =>
        match heldRev with
        | [] => ([], None)
        | _ => ([dropCR (rev heldRev)], None)
        end
    | c :: rest =>
        if bool_decide (c = newline) then
          let '(toks, e) := scanFrom bs 0 [] rest in
          (dropCR (rev heldRev) :: toks, e)
        else scanFrom bs (held + 1) (c :: heldRev) rest
    end.
Proof. destruct data; reflexivity. Qed.

(** A line that fits is handed out whole and the scan goes on behind its
    newline. *)
Lemma scanFrom_line bs l : forall held heldRev rest,
  newline ∉ l ->
  (held + N.of_nat (length l) < bs)%N ->
  scanFrom bs held heldRev (l ++ newline :: rest) =
  let '(toks, e) := scanFrom bs 0 [] rest in
  (dropCR (rev heldRev ++ l) :: toks, e).
Proof.
  induction l as [|c l IH]; intros held heldRev rest Hnl Hlen.
  - rewrite scanFrom_eq. simpl app. simpl in Hlen.
    destruct (N.leb_spec bs held); [lia|].
    rewrite bool_decide_eq_true_2 by reflexivity.
    rewrite app_nil_r. reflexivity.
  - apply not_elem_of_cons in Hnl as [Hc Hl].
    rewrite scanFrom_eq. simpl app.
    destruct (N.leb_spec bs held); [simpl in Hlen; lia|].
    rewrite bool_decide_eq_false_2 by congruence.
    rewrite IH; [| assumption | simpl in Hlen; lia].
    simpl rev. rewrite <- app_assoc. reflexivity.
Qed.

(** A line that does not fit ends the scan, whatever follows it. *)
Lemma scanFrom_too_long bs l : forall held heldRev rest,
  newline ∉ l ->
  (bs <= held + N.of_nat (length l))%N ->
  scanFrom bs held heldRev (l ++ rest) = ([], Some ErrTooLong).
Proof.
  induction l as [|c l IH]; intros held heldRev rest Hnl Hlen.
  - rewrite scanFrom_eq. simpl in Hlen.
    destruct (N.leb_spec bs held); [reflexivity | lia].
  - apply not_elem_of_cons in Hnl as [Hc Hl].
    rewrite scanFrom_eq. simpl app.
    destruct (N.leb_spec bs held); [reflexivity|].
    rewrite bool_decide_eq_false_2 by congruence.
    apply IH; [assumption | simpl in Hlen; lia].
Qed.

Lemma scanLines_index_file lines rest :
  Forall fits_buffer lines ->
  scanLines (index_file lines ++ rest) =
  let '(toks, e) := scanLines rest in (map dropCR lines ++ toks, e).
Proof.
  unfold scanLines, index_file.
  induction 1 as [|l lines [Hnl Hlen] _ IH]; simpl.
  - destruct (scanFrom bufferSize 0 [] rest); reflexivity.
  - rewrite <- !app_assoc. simpl.
    rewrite scanFrom_line by (assumption || lia).
    rewrite IH. destruct (scanFrom bufferSize 0 [] rest). reflexivity.
Qed.

End ScannerFacts.

(** ** The model on the literal inputs of the end-to-end scenarios *)

Section Scenarios.

Example SplitN3_title_with_colons :
  SplitN3 ":"%char (B "11:13:Talk:Anarchism") = [B "11"; B "13"; B "Talk:Anarchism"].
Proof. reflexivity. Qed.

Example ParseInt_int64_range :
  ParseInt (B "-9223372036854775808") = Some (-9223372036854775808)
  /\ ParseInt (B "9223372036854775808") = None
  /\ ParseInt (B "+12") = Some 12
  /\ ParseInt (B "1_0") = None
  /\ ParseInt (B "-") = None
  /\ ParseInt [] = None.
Proof. repeat split; reflexivity. Qed.

Example parse_line_examples :
  LoadIndex.parse_line (B "597:10:AccessibleComputing") = Some (mkIndexEntry 597 10)
  /\ LoadIndex.parse_line (B "597:10") = None
  /\ LoadIndex.parse_line (B "x:10:Title") = None.
Proof. repeat split; reflexivity. Qed.

Example like_examples :
  Sql.like (B "%anarch%") (B "Anarchism") = true
  /\ Sql.like (B "%a_c%") (B "xxAbCyy") = true
  /\ Sql.like (B "a%") (B "ba") = false.
Proof. repeat split; reflexivity. Qed.

(** LIKE compares characters: the byte A9 alone is not the second byte
    of the two-byte character of the title, and the text ends at a NUL. *)
Example like_compares_characters :
  Sql.like ["%"; "169"; "%"]%char ["a"; "195"; "169"; "c"]%char = false
  /\ Sql.like ["%"; "195"; "169"; "%"]%char ["a"; "195"; "169"; "c"]%char = true
  /\ Sql.like ["a"; "_"; "c"]%char ["a"; "195"; "169"; "c"]%char = true
  /\ Sql.like (B "%c%") ["a"; "000"; "c"]%char = false.
Proof. repeat split; vm_compute; reflexivity. Qed.

Example title_examples :
  cases_Title AsciiText.lib (B "foo_bar") = B "Foo_bar"
  /\ cases_Title AsciiText.lib (B "3rd") = B "3Rd"
  /\ cases_Title AsciiText.lib (B "new york") = B "New York".
Proof. repeat split; reflexivity. Qed.

Example Open_probes_fts5_first :
  ftsVersion (wiki (opened fullEngine)) = B "fts5"
  /\ ftsVersion (wiki (opened fts4Engine)) = B "fts4"
  /\ ftsVersion (wiki (opened likeEngine)) = B "none".
Proof. repeat split; vm_compute; reflexivity. Qed.

(** A later process finds the fts4 table of an earlier one by its DDL. *)
Example Open_detects_existing_table :
  (Open fullEngine (mkState NewWiki (database (opened fts4Engine)))).1.2
  = mkState (mkWiki true true (B "fts4")) (database (opened fts4Engine))
  /\ (Open fullEngine (mkState NewWiki (database (opened fts4Engine)))).2
     = [LogDetectedExisting (B "fts4"); LogUsingFts (B "fts4")].
Proof. split; vm_compute; reflexivity. Qed.

Example index_entries_after_ingestion :
  index_entries (database (after_ingestion fullEngine))
  = [mkIndexEntry 597 10; mkIndexEntry 10 12; mkIndexEntry 11 13].
Proof. vm_compute. reflexivity. Qed.

(** Scenario 1: the redirect page. *)
Example GetArticle_redirect_page :
  (GetArticle AsciiText.lib fullEngine (B "AccessibleComputing")
     (after_ingestion fullEngine)).1.1
  = Ok (mkArticle 10 (B "AccessibleComputing") 0 [] (B "Computer accessibility")).
Proof. vm_compute. reflexivity. Qed.

(** Scenario 2: a prefix search, here answered by the LIKE query. *)
Example SearchTitles_prefix :
  (SearchTitles likeEngine (B "Anarch") 5 (after_ingestion likeEngine)).1.1
  = Ok [B "Anarchism"].
Proof. vm_compute. reflexivity. Qed.

(** Scenario 4: a search on the empty store. *)
Example SearchTitles_empty_store :
  (SearchTitles likeEngine (B "python") 10 freshState).1.1 = Ok [].
Proof. vm_compute. reflexivity. Qed.

(** Scenario 6: a limit of 3 on a longer index. *)
Example LoadIndex_limit_three :
  (LoadIndex.run 3
     (index_file [B "1:1:a"; B "2:2:b"; B "3:3:c"; B "4:4:d"; B "5:5:e"]) []).1.2
  = [mkIndexEntry 1 1; mkIndexEntry 2 2; mkIndexEntry 3 3].
Proof. vm_compute. reflexivity. Qed.

Example valid_examples :
  Utf8.valid (B "plain") = true
  /\ Utf8.valid ["195"%char; "169"%char] = true
  /\ Utf8.valid ["195"%char] = false
  /\ Utf8.valid ["237"%char; "160"%char; "128"%char] = false.
Proof. repeat split; reflexivity. Qed.

End Scenarios.

(** ** LoadIndex *)

Section LoadIndexFacts.
Import LoadIndex.

Lemma insert_index_entry_present e tbl :
  e ∈ tbl -> insert_index_entry e tbl = tbl.
Proof.
  intros He. unfold insert_index_entry.
  rewrite bool_decide_eq_true_2; [reflexivity | assumption].
Qed.

Lemma insert_index_entry_NoDup e tbl :
  NoDup tbl -> NoDup (insert_index_entry e tbl).
Proof.
  intros Hnd. unfold insert_index_entry. case_bool_decide as He; [assumption|].
  apply NoDup_app. repeat split; [assumption | | apply NoDup_singleton].
  intros x Hx Hx'. apply list_elem_of_singleton in Hx'. subst. contradiction.
Qed.

Lemma elem_of_insert_index_entry x e tbl :
  x ∈ insert_index_entry e tbl <-> x = e \/ x ∈ tbl.
Proof.
  unfold insert_index_entry. case_bool_decide as He.
  - split; [auto | intros [->|]; assumption].
  - rewrite elem_of_app, list_elem_of_singleton. tauto.
Qed.

Lemma elem_of_insert_all x es : forall tbl,
  x ∈ insert_all tbl es <-> x ∈ es \/ x ∈ tbl.
Proof.
  unfold insert_all.
  induction es as [|e es IH]; intros tbl; simpl.
  - rewrite elem_of_nil. tauto.
  - rewrite IH, elem_of_insert_index_entry, elem_of_cons. tauto.
Qed.

Lemma insert_all_present es : forall tbl,
  (forall e, e ∈ es -> e ∈ tbl) -> insert_all tbl es = tbl.
Proof.
  unfold insert_all.
  induction es as [|e es IH]; intros tbl Hin; simpl; [reflexivity|].
  rewrite insert_index_entry_present by (apply Hin; left).
  apply IH. intros x Hx. apply Hin. right. assumption.
Qed.

Lemma insert_all_twice es tbl :
  insert_all (insert_all tbl es) es = insert_all tbl es.
Proof.
  apply insert_all_present. intros e He.
  apply elem_of_insert_all. left. assumption.
Qed.

Lemma insert_all_app tbl es es' :
  insert_all tbl (es ++ es') = insert_all (insert_all tbl es) es'.
Proof. unfold insert_all. apply fold_left_app. Qed.

Lemma insert_all_NoDup es : forall tbl, NoDup tbl -> NoDup (insert_all tbl es).
Proof.
  unfold insert_all.
  induction es as [|e es IH]; intros tbl Hnd; simpl; [assumption|].
  apply IH, insert_index_entry_NoDup, Hnd.
Qed.

Lemma insert_step_plan e a b :
  i a = i b -> same_plan a b (insert_step e a) (insert_step e b).
Proof.
  intros Hi. unfold insert_step. rewrite Hi.
  destruct (_ =? 0); (split; [reflexivity|]); exists [e]; simpl;
    (split; [reflexivity|]); (split; [reflexivity|]).
  - right. exists [e]. split; reflexivity.
  - left. split; reflexivity.
Qed.

Lemma same_plan_trans a b a1 b1 a2 b2 :
  same_plan a b a1 b1 -> same_plan a1 b1 a2 b2 -> same_plan a b a2 b2.
Proof.
  intros (Hi1 & es1 & Ha1 & Hb1 & Hc1) (Hi2 & es2 & Ha2 & Hb2 & Hc2).
  split; [assumption|]. exists (es1 ++ es2).
  rewrite !insert_all_app, <- Ha1, <- Hb1. split; [assumption|]. split; [assumption|].
  destruct Hc2 as [[Hca Hcb]|(ec & Hca & Hcb)].
  - rewrite Hca, Hcb. destruct Hc1 as [?|(ec & ? & ?)]; [left; assumption|].
    right. exists ec. split; assumption.
  - right. exists (es1 ++ ec). rewrite !insert_all_app, <- Ha1, <- Hb1.
    split; assumption.
Qed.

Lemma same_plan_refl a b : i a = i b -> same_plan a b a b.
Proof.
  intros Hi. split; [assumption|]. exists []. repeat split. left. split; reflexivity.
Qed.

Lemma loop_plan limit lines : forall a b,
  i a = i b ->
  same_plan a b (loop limit lines a).1 (loop limit lines b).1 /\
  (loop limit lines a).2 = (loop limit lines b).2.
Proof.
  induction lines as [|line lines IH]; intros a b Hi; simpl.
  - split; [apply same_plan_refl; assumption | reflexivity].
  - destruct (parse_line line) as [e|]; [| apply IH; assumption].
    pose proof (insert_step_plan e a b Hi) as Hstep.
    assert (Hi' : i (insert_step e a) = i (insert_step e b)) by apply Hstep.
    rewrite Hi'.
    destruct ((0 <? limit) && (limit <=? i (insert_step e b))); simpl.
    + split; [assumption | reflexivity].
    + destruct (IH _ _ Hi') as [Hp Hb]. split; [| assumption].
      eapply same_plan_trans; eassumption.
Qed.

Lemma loop_skips_malformed limit line rest st :
  parse_line line = None -> loop limit (line :: rest) st = loop limit rest st.
Proof. intros Hp. simpl. rewrite Hp. reflexivity. Qed.

Lemma loop_unlimited limit lines : forall st,
  limit <= 0 -> (loop limit lines st).2 = false.
Proof.
  induction lines as [|line lines IH]; intros st Hl; simpl; [reflexivity|].
  destruct (parse_line line); [| apply IH; assumption].
  destruct (Z.ltb_spec 0 limit); [lia|]. simpl. apply IH. assumption.
Qed.

Lemma run_idempotent limit data tbl :
  let '(err1, tbl1, _) := run limit data tbl in
  let '(err2, tbl2, _) := run limit data tbl1 in
  tbl2 = tbl1 /\ err2 = err1.
Proof.
  unfold run. destruct (Scanner.scanLines data) as [lines scanErr].
  set (a := mkLoop tbl tbl 0 [LogReadingIndex]).
  destruct (loop limit lines a) as [a' ba] eqn:Ha.
  assert (Hfin : forall b b' bb, i b = 0 -> view b = committed b ->
            loop limit lines b = (b', bb) ->
            bb = ba /\
            ((view b = view a' -> view b' = view a') /\
             (view b = committed a' -> committed b' = committed a'))).
  { intros b b' bb Hi Hvc Hb.
    destruct (loop_plan limit lines a b) as [(_ & es & Hva & Hvb & Hc) Hbrk];
      [symmetry; exact Hi|].
    rewrite Ha, Hb in *. simpl in *. split; [symmetry; assumption|].
    split; intros Hstart.
    - rewrite Hvb, Hstart, Hva. apply insert_all_twice.
    - destruct Hc as [[Hca Hcb]|(ec & Hca & Hcb)].
      + rewrite Hcb, <- Hvc. assumption.
      + rewrite Hcb, Hstart, Hca. apply insert_all_twice. }
  unfold finish at 1.
  destruct (if ba then None else scanErr) as [e|] eqn:Herr.
  - set (b := mkLoop (committed a') (committed a') 0 [LogReadingIndex]).
    destruct (loop limit lines b) as [b' bb] eqn:Hb.
    destruct (Hfin b b' bb eq_refl eq_refl Hb) as (-> & _ & Hcomm).
    unfold finish. rewrite Herr. split; [apply Hcomm|]; reflexivity.
  - set (b := mkLoop (view a') (view a') 0 [LogReadingIndex]).
    destruct (loop limit lines b) as [b' bb] eqn:Hb.
    destruct (Hfin b b' bb eq_refl eq_refl Hb) as (-> & Hview & _).
    unfold finish. rewrite Herr. split; [apply Hview|]; reflexivity.
Qed.

End LoadIndexFacts.

(** C3, as the claim states it, fails: a line longer than the scanner
    buffer ends the load with an error, the entry after it is never
    inserted (and the entry before it is lost with the open transaction);
    a line of exactly 16 KiB is already too long for the buffer; a
    malformed line leaves no trace in the log. *)
Lemma C3_long_line_aborts_the_load :
  (exists st lg,
     LoadIndex fullEngine
       (B "1:1:a" ++ [Scanner.newline] ++
        repeat "a"%char (N.to_nat 20000) ++ [Scanner.newline] ++
        B "2:2:b" ++ [Scanner.newline])
       (-1) freshState
       = (Some (ErrScanner Scanner.ErrTooLong), st, lg)
     /\ index_entries (database st) = [])
  /\ Scanner.scanLines (repeat "a"%char (N.to_nat (16 * 1024)) ++ [Scanner.newline])
       = ([], Some Scanner.ErrTooLong)
  /\ LoadIndex.run (-1) (B "no delimiters" ++ [Scanner.newline]) []
       = (None, [], [LogReadingIndex; LogDoneIndex 0]).
Proof.
  split; [| split].
  - eexists _, _. split; vm_compute; reflexivity.
  - vm_compute. reflexivity.
  - vm_compute. reflexivity.
Qed.

(** C3 (amended): every line that fits the 16 KiB scanner buffer together
    with its newline is read; a line that does not fit ends the scan with
    ErrTooLong, so that LoadIndex processes the lines before it only and,
    when no limit stopped it earlier, returns the scanner error with the
    table as of the last commit; a malformed line is skipped without any
    log line and without ending the run. *)
Theorem C3_LoadIndex_lines :
  (forall lines,
     Forall fits_buffer lines ->
     Scanner.scanLines (index_file lines) = (map Scanner.dropCR lines, None))
  /\ (forall limit before long rest tbl,
        Forall fits_buffer before ->
        Scanner.newline ∉ long ->
        (Scanner.bufferSize <= N.of_nat (length long))%N ->
        let r := LoadIndex.loop limit (map Scanner.dropCR before)
                   (LoadIndex.mkLoop tbl tbl 0 [LogReadingIndex]) in
        LoadIndex.run limit (index_file before ++ long ++ rest) tbl
          = LoadIndex.finish (Some Scanner.ErrTooLong) r
        /\ (limit <= 0 ->
            LoadIndex.run limit (index_file before ++ long ++ rest) tbl
              = (Some (ErrScanner Scanner.ErrTooLong),
                 LoadIndex.committed r.1, LoadIndex.logged r.1)))
  /\ (forall limit line rest st,
        LoadIndex.parse_line line = None ->
        LoadIndex.loop limit (line :: rest) st = LoadIndex.loop limit rest st).
Proof.
  split; [| split].
  - intros lines Hfit.
    pose proof (scanLines_index_file lines [] Hfit) as H.
    rewrite app_nil_r in H. rewrite H.
    change (Scanner.scanLines []) with (@nil gostring, @None Scanner.ScanError).
    cbv beta iota. rewrite app_nil_r. reflexivity.
  - intros limit before long rest tbl Hfit Hnl Hlen r.
    assert (Hrun : LoadIndex.run limit (index_file before ++ long ++ rest) tbl
                   = LoadIndex.finish (Some Scanner.ErrTooLong) r).
    { unfold LoadIndex.run. rewrite scanLines_index_file by assumption.
      unfold Scanner.scanLines at 1.
      rewrite scanFrom_too_long by (assumption || lia).
      rewrite app_nil_r. reflexivity. }
    split; [exact Hrun|]. intros Hlim. rewrite Hrun.
    pose proof (loop_unlimited limit (map Scanner.dropCR before)
                  (LoadIndex.mkLoop tbl tbl 0 [LogReadingIndex]) Hlim) as Hb.
    fold r in Hb. destruct r as [st b]. simpl in Hb. subst b. reflexivity.
  - apply loop_skips_malformed.
Qed.

Lemma C3_LoadIndex_lines_witness :
  Scanner.scanLines (index_file [B "597:10:AccessibleComputing"; B "10:12:Anarchism"])
    = ([B "597:10:AccessibleComputing"; B "10:12:Anarchism"], None)
  /\ LoadIndex.run 0
       (index_file [B "1:1:a"] ++ repeat "a"%char (N.to_nat Scanner.bufferSize) ++ B "2:2:b") []
     = (Some (ErrScanner Scanner.ErrTooLong), [], [LogReadingIndex])
  /\ LoadIndex.loop 0 [B "no delimiters"; B "3:4:x"] (LoadIndex.mkLoop [] [] 0 [])
     = LoadIndex.loop 0 [B "3:4:x"] (LoadIndex.mkLoop [] [] 0 []).
Proof.
  destruct C3_LoadIndex_lines as (Hscan & Hlong & Hskip).
  split; [| split].
  - refine (Hscan [B "597:10:AccessibleComputing"; B "10:12:Anarchism"] _).
    all_fit.
  - refine (proj2 (Hlong 0 [B "1:1:a"] (repeat "a"%char (N.to_nat Scanner.bufferSize))
                     (B "2:2:b") [] _ _ _) _).
    + all_fit.
    + intros Hin. apply list_elem_of_In, repeat_spec in Hin. discriminate.
    + rewrite repeat_length, N2Nat.id. lia.
    + lia.
  - exact (Hskip 0 (B "no delimiters") [B "3:4:x"] (LoadIndex.mkLoop [] [] 0 []) eq_refl).
Defined.

(** C9: INSERT OR IGNORE drops a pair that is already in index_entries and
    never creates a duplicate, and a second LoadIndex on the same input
    leaves index_entries (and the whole database) as the first run left
    it. *)
Theorem C9_LoadIndex_idempotent :
  (forall e tbl, e ∈ tbl -> insert_index_entry e tbl = tbl)
  /\ (forall e tbl, NoDup tbl -> NoDup (insert_index_entry e tbl))
  /\ (forall limit data tbl,
        let '(err1, tbl1, _) := LoadIndex.run limit data tbl in
        let '(err2, tbl2, _) := LoadIndex.run limit data tbl1 in
        tbl2 = tbl1 /\ err2 = err1)
  /\ (forall eng data limit st,
        let '(err1, st1, _) := LoadIndex eng data limit st in
        let '(err2, st2, _) := LoadIndex eng data limit st1 in
        st2 = st1 /\ err2 = err1).
Proof.
  split; [exact insert_index_entry_present|].
  split; [exact insert_index_entry_NoDup|].
  split; [exact run_idempotent|].
  intros eng data limit st. unfold LoadIndex, Open.
  destruct st as [[dbo ini ver] d]. simpl.
  destruct ini; simpl.
  - pose proof (run_idempotent limit data (index_entries d)) as H.
    destruct (LoadIndex.run limit data (index_entries d)) as [[err1 tbl1] lg1].
    simpl.
    destruct (LoadIndex.run limit data tbl1) as [[err2 tbl2] lg2].
    destruct H as [-> ->]. split; reflexivity.
  - destruct (store_available eng) eqn:Hav; simpl.
    + destruct (createTables eng (sqlite_master d)) as [[version m] lg].
      pose proof (run_idempotent limit data (index_entries d)) as H.
      simpl.
      destruct (LoadIndex.run limit data (index_entries d)) as [[err1 tbl1] lg1].
      simpl.
      destruct (LoadIndex.run limit data tbl1) as [[err2 tbl2] lg2].
      destruct H as [-> ->]. split; reflexivity.
    + split; reflexivity.
Qed.

Lemma C9_LoadIndex_idempotent_witness :
  insert_index_entry (mkIndexEntry 597 10) [mkIndexEntry 597 10] = [mkIndexEntry 597 10]
  /\ NoDup (insert_index_entry (mkIndexEntry 10 12) [mkIndexEntry 597 10]).
Proof.
  destruct C9_LoadIndex_idempotent as (Hdrop & Hnodup & _).
  split.
  - apply Hdrop. apply (bool_decide_unpack _). vm_compute. exact I.
  - apply Hnodup. apply (bool_decide_unpack _). vm_compute. exact I.
Defined.

(** ** UTF-8 and the byte cut *)

Section Utf8Facts.
Import Utf8.

Lemma in_range_weaken lo hi lo' hi' c :
  (lo' <= lo)%N -> (hi <= hi')%N ->
  in_range lo hi c = true -> in_range lo' hi' c = true.
Proof.
  unfold in_range. rewrite !andb_true_iff, !N.leb_le. lia.
Qed.

Lemma second_of_3_continuation b0 b1 :
  second_of_3 b0 b1 = true -> is_continuation b1 = true.
Proof.
  unfold second_of_3, is_continuation.
  repeat match goal with |- context [if ?c then _ else _] => destruct c end;
    apply in_range_weaken; lia.
Qed.

Lemma second_of_4_continuation b0 b1 :
  second_of_4 b0 b1 = true -> is_continuation b1 = true.
Proof.
  unfold second_of_4, is_continuation.
  repeat match goal with |- context [if ?c then _ else _] => destruct c end;
    apply in_range_weaken; lia.
Qed.

Lemma starts_character_continuation c rest :
  is_continuation c = true -> starts_character (c :: rest) = true -> False.
Proof. simpl. intros ->. discriminate. Qed.

(** Cutting valid text where a character starts leaves valid text. *)
Lemma valid_prefix n : forall a b,
  (length a <= n)%nat ->
  valid (a ++ b) = true -> starts_character b = true -> valid a = true.
Proof.
  induction n as [|n IH]; intros a b Hlen Hv Hb.
  { destruct a; [reflexivity | simpl in Hlen; lia]. }
  destruct a as [|b0 a]; [reflexivity|].
  simpl in Hlen. simpl app in Hv. simpl in Hv |- *.
  destruct (byte_val b0 <? 128)%N.
  { apply (IH a b); [lia | assumption..]. }
  destruct (in_range 194 223 b0).
  { destruct a as [|b1 a]; simpl in *.
    - destruct b as [|c b]; [discriminate|].
      apply andb_true_iff in Hv as [Hc _].
      destruct (starts_character_continuation c b Hc Hb).
    - apply andb_true_iff in Hv as [-> Hv]. simpl.
      apply (IH a b); [lia | assumption..]. }
  destruct (in_range 224 239 b0).
  { destruct a as [|b1 [|b2 a]]; simpl in *.
    - destruct b as [|c [|c' b]]; try discriminate.
      apply andb_true_iff in Hv as [Hv _]. apply andb_true_iff in Hv as [Hc _].
      apply second_of_3_continuation in Hc.
      destruct (starts_character_continuation _ _ Hc Hb).
    - destruct b as [|c b]; [discriminate|].
      apply andb_true_iff in Hv as [Hv _]. apply andb_true_iff in Hv as [_ Hc].
      destruct (starts_character_continuation _ _ Hc Hb).
    - apply andb_true_iff in Hv as [-> Hv]. simpl.
      apply (IH a b); [lia | assumption..]. }
  destruct (in_range 240 244 b0); [| discriminate].
  destruct a as [|b1 [|b2 [|b3 a]]]; simpl in *.
  - destruct b as [|c [|c' [|c'' b]]]; try discriminate.
    repeat (apply andb_true_iff in Hv as [Hv _]).
    apply second_of_4_continuation in Hv.
    destruct (starts_character_continuation _ _ Hv Hb).
  - destruct b as [|c [|c' b]]; try discriminate.
    apply andb_true_iff in Hv as [Hv _]. apply andb_true_iff in Hv as [Hv _].
    apply andb_true_iff in Hv as [_ Hc].
    destruct (starts_character_continuation _ _ Hc Hb).
  - destruct b as [|c b]; [discriminate|].
    apply andb_true_iff in Hv as [Hv _]. apply andb_true_iff in Hv as [_ Hc].
    destruct (starts_character_continuation _ _ Hc Hb).
  - apply andb_true_iff in Hv as [-> Hv]. simpl.
    apply (IH a b); [lia | assumption..].
Qed.

Lemma valid_take_boundary k s :
  valid s = true -> starts_character (drop k s) = true -> valid (take k s) = true.
Proof.
  intros Hv Hb. apply (valid_prefix (length (take k s)) _ (drop k s)).
  - lia.
  - rewrite take_drop. assumption.
  - assumption.
Qed.

(** ASCII letters in front of a text do not change its validity. *)
Lemma valid_ascii_run c k s :
  (byte_val c <? 128)%N = true -> valid (repeat c k ++ s) = valid s.
Proof.
  intros Hc. induction k as [|k IH]; [reflexivity|].
  simpl. rewrite Hc. assumption.
Qed.

End Utf8Facts.

(** ** The truncation of ProcessArticles *)

Section TruncateFacts.
Import ProcessArticles.

Lemma maxContentBytes_pos : 0 < maxContentBytes.
Proof. reflexivity. Qed.

Lemma truncateContent_short content :
  Z.of_nat (length content) <= maxContentBytes -> truncateContent content = content.
Proof.
  intros H. unfold truncateContent.
  destruct (Z.ltb_spec maxContentBytes (Z.of_nat (length content))); [lia | reflexivity].
Qed.

Lemma truncateContent_long content :
  maxContentBytes < Z.of_nat (length content) ->
  truncateContent content = take (Z.to_nat maxContentBytes) content.
Proof.
  intros H. unfold truncateContent.
  destruct (Z.ltb_spec maxContentBytes (Z.of_nat (length content))); [reflexivity | lia].
Qed.

Lemma truncateContent_is_take content :
  truncateContent content = take (Z.to_nat maxContentBytes) content.
Proof.
  pose proof maxContentBytes_pos.
  destruct (Z.lt_ge_cases maxContentBytes (Z.of_nat (length content))).
  - apply truncateContent_long. assumption.
  - rewrite truncateContent_short by lia. symmetry. apply take_ge. lia.
Qed.

Lemma truncateContent_length content :
  Z.of_nat (length (truncateContent content)) <= maxContentBytes.
Proof.
  pose proof maxContentBytes_pos.
  rewrite truncateContent_is_take, length_take. lia.
Qed.

Lemma truncateContent_valid content :
  Utf8.valid content = true ->
  Utf8.starts_character (drop (Z.to_nat maxContentBytes) content) = true ->
  Utf8.valid (truncateContent content) = true.
Proof.
  intros Hv Hb. rewrite truncateContent_is_take. apply valid_take_boundary; assumption.
Qed.

End TruncateFacts.

(** ** ProcessArticles *)

Section ProcessArticlesFacts.
Import ProcessArticles.

Lemma elem_of_upsert_article a r tbl :
  a ∈ upsert_article r tbl -> a = r \/ a ∈ tbl.
Proof.
  induction tbl as [|x tbl IH]; simpl.
  - rewrite list_elem_of_singleton. auto.
  - destruct (ID r <? ID x); [| destruct (ID r =? ID x)];
      rewrite !elem_of_cons; [tauto | tauto |].
    intros [->|H]; [tauto|]. destruct (IH H); tauto.
Qed.

Lemma elem_of_upsert_all a rows : forall tbl,
  a ∈ upsert_all tbl rows -> a ∈ rows \/ a ∈ tbl.
Proof.
  unfold upsert_all.
  induction rows as [|r rows IH]; intros tbl; simpl; [tauto|].
  intros H. destruct (IH _ H) as [?|H']; [left; right; assumption|].
  destruct (elem_of_upsert_article _ _ _ H') as [->|?]; [left; left | right; assumption].
Qed.

Lemma upsert_all_app tbl rows rows' :
  upsert_all tbl (rows ++ rows') = upsert_all (upsert_all tbl rows) rows'.
Proof. unfold upsert_all. apply fold_left_app. Qed.

Lemma store_step_fields page st :
  view (store_step page st) = upsert_article (rowOf page) (view st)
  /\ execs (store_step page st) = execs st ++ [rowOf page]
  /\ processed (store_step page st) = processed st + 1
  /\ stuck (store_step page st) = stuck st.
Proof. unfold store_step. destruct (batchSize <=? count st + 1); simpl; auto. Qed.

(** The table after the loop is the table before it with the new rows
    written in order. *)
Lemma loop_view indexSet limit stream : forall st,
  exists rows,
    execs (loop indexSet limit stream st) = execs st ++ rows
    /\ view (loop indexSet limit stream st) = upsert_all (view st) rows.
Proof.
  induction stream as [|[| |page] stream IH]; intros st; simpl.
  - exists []. rewrite app_nil_r. auto.
  - destruct (IH (log_decode_error st)) as (rows & He & Hv).
    exists rows. auto.
  - exists []. rewrite app_nil_r. auto.
  - destruct (kept indexSet page); [| apply (IH st)].
    destruct (store_step_fields page st) as (Hv & He & _).
    destruct ((0 <? limit) && (limit <=? processed (store_step page st))).
    + exists [rowOf page]. rewrite He, Hv. auto.
    + destruct (IH (store_step page st)) as (rows & He' & Hv').
      exists (rowOf page :: rows). rewrite He', Hv', He, Hv, <- app_assoc. auto.
Qed.

Lemma loop_execs_unlimited indexSet limit stream : forall st,
  limit <= 0 ->
  execs (loop indexSet limit stream st)
  = execs st ++ map rowOf (List.filter (kept indexSet) (pages_of stream)).
Proof.
  induction stream as [|[| |page] stream IH]; intros st Hl; simpl.
  - rewrite app_nil_r. reflexivity.
  - rewrite IH by assumption. reflexivity.
  - rewrite app_nil_r. reflexivity.
  - destruct (kept indexSet page); [| apply IH; assumption].
    destruct (store_step_fields page st) as (_ & He & _).
    destruct (Z.ltb_spec 0 limit); [lia|]. simpl.
    rewrite IH by assumption. rewrite He, <- app_assoc. reflexivity.
Qed.

Lemma loop_execs_limited indexSet limit stream : forall st,
  0 <= processed st < limit ->
  execs (loop indexSet limit stream st)
  = execs st ++ take (Z.to_nat (limit - processed st))
                  (map rowOf (List.filter (kept indexSet) (pages_of stream))).
Proof.
  induction stream as [|[| |page] stream IH]; intros st Hp; simpl.
  - rewrite take_nil, app_nil_r. reflexivity.
  - rewrite IH by assumption. reflexivity.
  - rewrite take_nil, app_nil_r. reflexivity.
  - destruct (kept indexSet page); [| apply (IH st); assumption].
    destruct (store_step_fields page st) as (_ & He & Hpr & _).
    destruct (Z.ltb_spec 0 limit); [| lia]. simpl.
    replace (Z.to_nat (limit - processed st))
      with (S (Z.to_nat (limit - processed st - 1))) by lia.
    simpl. rewrite Hpr.
    destruct (Z.leb_spec limit (processed st + 1)).
    + rewrite He. replace (Z.to_nat (limit - processed st - 1)) with 0%nat by lia.
      rewrite take_0. reflexivity.
    + rewrite IH by lia. rewrite He, Hpr, <- app_assoc.
      replace (limit - (processed st + 1)) with (limit - processed st - 1) by lia.
      reflexivity.
Qed.

(** The loop is left unless the decoder comes to keep an error; without
    a limit that stops the loop before, it does when the stream holds
    one. *)
Lemma loop_stuck indexSet limit stream : forall st,
  stuck st = false ->
  (stuck (loop indexSet limit stream st) = true -> StickyError ∈ stream)
  /\ (limit <= 0 -> StickyError ∈ stream -> stuck (loop indexSet limit stream st) = true).
Proof.
  induction stream as [|[| |page] stream IH]; intros st Hs; simpl.
  - rewrite Hs. split; [discriminate|]. intros _ H. inversion H.
  - destruct (IH (log_decode_error st) Hs) as [H1 H2]. split.
    + intros H. right. auto.
    + intros Hl H. apply elem_of_cons in H as [H|H]; [discriminate | auto].
  - split; [intros _; left | reflexivity].
  - destruct (store_step_fields page st) as (_ & _ & _ & Hst). rewrite Hs in Hst.
    assert (Hgoal : forall st',
              stuck st' = false ->
              (stuck (loop indexSet limit stream st') = true ->
               StickyError ∈ DecodedPage page :: stream)
              /\ (limit <= 0 -> StickyError ∈ DecodedPage page :: stream ->
                  stuck (loop indexSet limit stream st') = true)).
    { intros st' Hs'. destruct (IH st' Hs') as [H1 H2]. split.
      - intros H. right. auto.
      - intros Hl H. apply elem_of_cons in H as [H|H]; [discriminate | auto]. }
    destruct (kept indexSet page); [| apply Hgoal; assumption].
    destruct (Z.ltb_spec 0 limit); simpl; [| apply Hgoal; assumption].
    destruct (limit <=? _); [| apply Hgoal; assumption].
    rewrite Hst. split; [discriminate | lia].
Qed.

Lemma run_fields limit stream d :
  let st := loop (indexSetOf (index_entries d)) limit stream
              (mkLoop (articles d) (articles d) [] 0 0
                 [LogFoundArticles (Z.of_nat (size (indexSetOf (index_entries d))));
                  LogProcessingArticles] false) in
  view (run limit stream d) = view st
  /\ execs (run limit stream d) = execs st
  /\ stuck (run limit stream d) = stuck st.
Proof.
  intros st. unfold run. fold st. destruct (stuck st) eqn:Hs; simpl; auto.
Qed.

Lemma run_execs limit stream d :
  execs (run limit stream d)
  = first_rows limit
      (map rowOf (List.filter (kept (indexSetOf (index_entries d))) (pages_of stream))).
Proof.
  destruct (run_fields limit stream d) as (_ & -> & _).
  unfold first_rows. destruct (Z.ltb_spec 0 limit).
  - rewrite loop_execs_limited by (simpl; lia). simpl.
    rewrite Z.sub_0_r. reflexivity.
  - rewrite loop_execs_unlimited by lia. reflexivity.
Qed.

Lemma run_view limit stream d :
  view (run limit stream d) = upsert_all (articles d) (execs (run limit stream d)).
Proof.
  destruct (run_fields limit stream d) as (-> & -> & _).
  destruct (loop_view (indexSetOf (index_entries d)) limit stream
              (mkLoop (articles d) (articles d) [] 0 0
                 [LogFoundArticles (Z.of_nat (size (indexSetOf (index_entries d))));
                  LogProcessingArticles] false)) as (rows & He & Hv).
  simpl in He, Hv. rewrite He, Hv. reflexivity.
Qed.

Lemma run_stuck limit stream d :
  (stuck (run limit stream d) = true -> StickyError ∈ stream)
  /\ (limit <= 0 -> StickyError ∈ stream -> stuck (run limit stream d) = true).
Proof.
  destruct (run_fields limit stream d) as (_ & _ & ->).
  apply loop_stuck. reflexivity.
Qed.

(** Whether the loop is left depends on the stream, the limit and the
    index alone. *)
Lemma loop_stuck_same indexSet limit stream : forall a b,
  processed a = processed b -> stuck a = stuck b ->
  stuck (loop indexSet limit stream a) = stuck (loop indexSet limit stream b).
Proof.
  induction stream as [|[| |page] stream IH]; intros a b Hp Hs; simpl.
  - exact Hs.
  - apply IH; assumption.
  - reflexivity.
  - destruct (kept indexSet page); [| apply IH; assumption].
    destruct (store_step_fields page a) as (_ & _ & Hpa & Hsa).
    destruct (store_step_fields page b) as (_ & _ & Hpb & Hsb).
    rewrite Hpa, Hpb, Hp.
    destruct (_ && _); [congruence | apply IH; congruence].
Qed.

Lemma run_stuck_same limit stream d d' :
  index_entries d = index_entries d' ->
  stuck (run limit stream d) = stuck (run limit stream d').
Proof.
  intros Hi. destruct (run_fields limit stream d) as (_ & _ & ->).
  destruct (run_fields limit stream d') as (_ & _ & ->).
  rewrite Hi. apply loop_stuck_same; reflexivity.
Qed.

Lemma elem_of_first_rows {A} limit (x : A) rows :
  x ∈ first_rows limit rows -> x ∈ rows.
Proof.
  unfold first_rows. destruct (0 <? limit); [| auto].
  intros H. apply elem_of_take in H as (i & H & _).
  eapply list_elem_of_lookup_2. eassumption.
Qed.

Lemma elem_of_pages_of page stream :
  page ∈ pages_of stream -> DecodedPage page ∈ stream.
Proof.
  induction stream as [|[| |p] stream IH]; simpl; intros H.
  - inversion H.
  - right. auto.
  - inversion H.
  - apply elem_of_cons in H as [->|H]; [left | right; auto].
Qed.

(** A stream on which the decoder reaches the end of the file. *)
Lemma elem_of_pages_of_eof page stream :
  StickyError ∉ stream ->
  (page ∈ pages_of stream <-> DecodedPage page ∈ stream).
Proof.
  intros Hno. split; [apply elem_of_pages_of|].
  induction stream as [|[| |p] stream IH]; simpl; intros H.
  - inversion H.
  - apply not_elem_of_cons in Hno as [_ Hno].
    apply elem_of_cons in H as [H|H]; [discriminate | auto].
  - destruct Hno. left.
  - apply not_elem_of_cons in Hno as [_ Hno].
    apply elem_of_cons in H as [H|H]; [injection H as ->; left | right; auto].
Qed.

Lemma pages_of_app s1 s2 :
  StickyError ∉ s1 -> pages_of (s1 ++ s2) = pages_of s1 ++ pages_of s2.
Proof.
  induction s1 as [|[| |p] s1 IH]; simpl; intros Hno.
  - reflexivity.
  - apply not_elem_of_cons in Hno as [_ Hno]. auto.
  - destruct Hno. left.
  - apply not_elem_of_cons in Hno as [_ Hno]. f_equal. auto.
Qed.

(** Every row handed to [stmt.Exec] is the row of a kept page of the
    stream. *)
Lemma run_execs_from_kept limit stream d row :
  row ∈ execs (run limit stream d) ->
  exists page,
    DecodedPage page ∈ stream
    /\ kept (indexSetOf (index_entries d)) page = true
    /\ row = rowOf page.
Proof.
  rewrite run_execs. intros H. apply elem_of_first_rows in H.
  apply list_elem_of_fmap in H as (page & -> & H).
  apply list_elem_of_In, filter_In in H as [H Hk]. apply list_elem_of_In in H.
  exists page. split; [apply elem_of_pages_of, H | auto].
Qed.

Lemma kept_spec tbl page :
  kept (indexSetOf tbl) page = true
  <-> Page.NS page = 0 /\ exists seek, mkIndexEntry seek (Page.ID page) ∈ tbl.
Proof.
  unfold kept, indexSetOf.
  rewrite andb_true_iff, Z.eqb_eq, bool_decide_eq_true, elem_of_list_to_set,
    list_elem_of_fmap.
  split; intros [Hns Hid]; (split; [assumption|]).
  - destruct Hid as ([seek id] & Heq & Hin). simpl in Heq. subst. eauto.
  - destruct Hid as (seek & Hin). exists (mkIndexEntry seek (Page.ID page)). auto.
Qed.

Lemma redirectOf_first page : redirectOf page = first_redirect_title page.
Proof.
  unfold redirectOf, first_redirect_title. destruct (Page.Redirect page); reflexivity.
Qed.

End ProcessArticlesFacts.

Section UpsertFacts.

Lemma upsert_article_has_id r tbl :
  exists a, a ∈ upsert_article r tbl /\ ID a = ID r.
Proof.
  induction tbl as [|x tbl (a & Ha & Hid)]; simpl.
  - exists r. split; [left | reflexivity].
  - destruct (ID r <? ID x); [| destruct (ID r =? ID x)].
    + exists r. split; [left | reflexivity].
    + exists r. split; [left | reflexivity].
    + exists a. split; [right; assumption | assumption].
Qed.

Lemma upsert_article_keeps_ids r tbl a :
  a ∈ tbl -> exists a', a' ∈ upsert_article r tbl /\ ID a' = ID a.
Proof.
  induction tbl as [|x tbl IH]; simpl; [intros H; inversion H|].
  rewrite elem_of_cons. intros Ha.
  destruct (ID r <? ID x); [| destruct (Z.eqb_spec (ID r) (ID x)) as [Heq|Hne]].
  - exists a. split; [right | reflexivity]. apply elem_of_cons. assumption.
  - destruct Ha as [->|Ha].
    + exists r. split; [left | assumption].
    + exists a. split; [right; assumption | reflexivity].
  - destruct Ha as [->|Ha].
    + exists x. split; [left | reflexivity].
    + destruct (IH Ha) as (a' & Ha' & Hid). exists a'. split; [right|]; assumption.
Qed.

Lemma upsert_all_keeps_ids rows : forall tbl a,
  a ∈ tbl -> exists a', a' ∈ upsert_all tbl rows /\ ID a' = ID a.
Proof.
  unfold upsert_all.
  induction rows as [|r rows IH]; intros tbl a Ha; simpl.
  - exists a. auto.
  - destruct (upsert_article_keeps_ids r tbl a Ha) as (a1 & Ha1 & Hid1).
    destruct (IH _ _ Ha1) as (a2 & Ha2 & Hid2).
    exists a2. split; [assumption | congruence].
Qed.

Lemma upsert_all_has_id rows : forall tbl r,
  r ∈ rows -> exists a, a ∈ upsert_all tbl rows /\ ID a = ID r.
Proof.
  unfold upsert_all.
  induction rows as [|x rows IH]; intros tbl r Hr; [inversion Hr|].
  apply elem_of_cons in Hr as [->|Hr]; simpl.
  - destruct (upsert_article_has_id x tbl) as (a & Ha & Hid).
    destruct (upsert_all_keeps_ids rows _ _ Ha) as (a' & Ha' & Hid').
    exists a'. split; [assumption | congruence].
  - apply IH. assumption.
Qed.

End UpsertFacts.

(** ** Open and the calls that start with it *)

Section OpenFacts.

Lemma Open_initialized eng st :
  initialized (wiki st) = true -> Open eng st = (None, st, []).
Proof. intros H. unfold Open. rewrite H. reflexivity. Qed.

Lemma Open_success eng st st1 lg :
  Open eng st = (None, st1, lg) ->
  initialized (wiki st1) = true
  /\ db_open (wiki st1) = (db_open (wiki st) || negb (initialized (wiki st)))
  /\ articles (database st1) = articles (database st)
  /\ index_entries (database st1) = index_entries (database st).
Proof.
  unfold Open. destruct (initialized (wiki st)) eqn:Hi.
  - intros [= <- <-]. rewrite Hi, orb_false_r. auto.
  - destruct (store_available eng); simpl; [| discriminate].
    destruct (createTables eng (sqlite_master (database st))) as [[version m] lg'].
    intros [= <- <-]. simpl. rewrite orb_true_r. auto.
Qed.

Lemma createTables_writes_probe_line eng m :
  existsb probe_line (createTables eng m).2 = true.
Proof.
  unfold createTables.
  destruct (match Schema.table_object _ _ with Some o => Some (obj_sql o) | None => None end)
    as [[|c sql]|];
    repeat match goal with
           | |- context [if ?b then _ else _] => destruct b
           end;
    simpl; rewrite ?existsb_app; simpl; rewrite ?orb_true_r; reflexivity.
Qed.

Lemma GetArticle_after_Open lib eng title st st1 lg :
  Open eng st = (None, st1, lg) ->
  GetArticle lib eng title st =
  (match Sql.find_article_by_title_exact title (articles (database st)) with
   | Some a => Ok a
   | None =>
       match Sql.find_article_by_title_ci
               (cases_Title lib (strings_ToLower lib title)) (articles (database st)) with
       | Some a => Ok a
       | None => Err (ErrArticleNotFound title)
       end
   end, st1, lg).
Proof.
  intros HO. unfold GetArticle. rewrite HO.
  destruct (Open_success _ _ _ _ HO) as (_ & _ & -> & _).
  destruct (Sql.find_article_by_title_exact _ _); [reflexivity|].
  destruct (Sql.find_article_by_title_ci _ _); reflexivity.
Qed.

Lemma find_exact_hit title tbl :
  (exists a, a ∈ tbl /\ Title a = title) ->
  exists a, Sql.find_article_by_title_exact title tbl = Some a
            /\ a ∈ tbl /\ Title a = title.
Proof.
  intros (a & Ha & Ht). unfold Sql.find_article_by_title_exact.
  destruct (find _ tbl) as [a'|] eqn:Hf.
  - apply find_some in Hf as [Hin Heq]. exists a'.
    apply bool_decide_eq_true in Heq. rewrite <- list_elem_of_In in Hin. auto.
  - apply list_elem_of_In in Ha. eapply find_none in Hf; [| exact Ha].
    apply bool_decide_eq_false in Hf. contradiction.
Qed.

Lemma find_exact_miss title tbl :
  (forall a, a ∈ tbl -> Title a <> title) ->
  Sql.find_article_by_title_exact title tbl = None.
Proof.
  intros Hno. unfold Sql.find_article_by_title_exact.
  destruct (find _ tbl) as [a'|] eqn:Hf; [| reflexivity].
  apply find_some in Hf as [Hin Heq]. apply bool_decide_eq_true in Heq.
  apply list_elem_of_In in Hin. destruct (Hno _ Hin Heq).
Qed.

Lemma find_ci_hit title tbl :
  (exists a, a ∈ tbl /\ sql_lower (Title a) = sql_lower title) ->
  exists a, Sql.find_article_by_title_ci title tbl = Some a
            /\ a ∈ tbl /\ sql_lower (Title a) = sql_lower title.
Proof.
  intros (a & Ha & Ht). unfold Sql.find_article_by_title_ci.
  destruct (find _ tbl) as [a'|] eqn:Hf.
  - apply find_some in Hf as [Hin Heq]. exists a'.
    apply bool_decide_eq_true in Heq. rewrite <- list_elem_of_In in Hin. auto.
  - apply list_elem_of_In in Ha. eapply find_none in Hf; [| exact Ha].
    apply bool_decide_eq_false in Hf. contradiction.
Qed.

Lemma find_ci_miss title tbl :
  (forall a, a ∈ tbl -> sql_lower (Title a) <> sql_lower title) ->
  Sql.find_article_by_title_ci title tbl = None.
Proof.
  intros Hno. unfold Sql.find_article_by_title_ci.
  destruct (find _ tbl) as [a'|] eqn:Hf; [| reflexivity].
  apply find_some in Hf as [Hin Heq]. apply bool_decide_eq_true in Heq.
  apply list_elem_of_In in Hin. destruct (Hno _ Hin Heq).
Qed.

(** Neither lookup of [GetArticle] finds a row: the call reports the
    title as not found. *)
Lemma GetArticle_not_found lib eng title st st1 lg :
  Open eng st = (None, st1, lg) ->
  (forall a, a ∈ articles (database st) ->
     Title a <> title
     /\ sql_lower (Title a) <> sql_lower (cases_Title lib (strings_ToLower lib title))) ->
  GetArticle lib eng title st = (Err (ErrArticleNotFound title), st1, lg).
Proof.
  intros HO Hno. rewrite (GetArticle_after_Open _ _ _ _ _ _ HO).
  rewrite find_exact_miss by (intros a Ha; apply (Hno a Ha)).
  rewrite find_ci_miss by (intros a Ha; apply (Hno a Ha)).
  reflexivity.
Qed.

End OpenFacts.

(** ** INSERT OR REPLACE and the lookup by id *)

Section UpsertLookup.

Lemma find_id_upsert_same r tbl :
  Sql.find_article_by_id (ID r) (upsert_article r tbl) = Some r.
Proof.
  unfold Sql.find_article_by_id.
  induction tbl as [|x tbl IH]; simpl.
  - rewrite Z.eqb_refl. reflexivity.
  - destruct (Z.ltb_spec (ID r) (ID x)); [simpl; rewrite Z.eqb_refl; reflexivity|].
    destruct (Z.eqb_spec (ID r) (ID x)); [simpl; rewrite Z.eqb_refl; reflexivity|].
    simpl. destruct (Z.eqb_spec (ID x) (ID r)); [congruence | exact IH].
Qed.

Lemma find_id_upsert_other id r tbl :
  id <> ID r ->
  Sql.find_article_by_id id (upsert_article r tbl) = Sql.find_article_by_id id tbl.
Proof.
  intros Hne. unfold Sql.find_article_by_id.
  induction tbl as [|x tbl IH]; simpl.
  - destruct (Z.eqb_spec (ID r) id); [congruence | reflexivity].
  - destruct (Z.ltb_spec (ID r) (ID x)).
    + simpl. destruct (Z.eqb_spec (ID r) id); [congruence | reflexivity].
    + destruct (Z.eqb_spec (ID r) (ID x)) as [Heq|Hneq]; simpl.
      * destruct (Z.eqb_spec (ID r) id); [congruence|].
        destruct (Z.eqb_spec (ID x) id); [congruence | reflexivity].
      * rewrite IH. reflexivity.
Qed.

Lemma find_app {A} (f : A -> bool) l x :
  find f (l ++ [x])
  = match find f l with
    | Some y => Some y
    | None => if f x then Some x else None
    end.
Proof. induction l as [|y l IH]; simpl; [reflexivity|]. destruct (f y); auto. Qed.

(** Reading a row back after a series of writes: the latest write for
    the id, or what the table held. *)
Lemma find_id_upsert_all id rows : forall tbl,
  Sql.find_article_by_id id (upsert_all tbl rows)
  = match Sql.find_article_by_id id (rev rows) with
    | Some r => Some r
    | None => Sql.find_article_by_id id tbl
    end.
Proof.
  induction rows as [|r rows IH]; intros tbl; [reflexivity|].
  change (upsert_all tbl (r :: rows)) with (upsert_all (upsert_article r tbl) rows).
  rewrite IH. simpl rev. unfold Sql.find_article_by_id at 3. rewrite find_app.
  fold (Sql.find_article_by_id id (rev rows)).
  destruct (Sql.find_article_by_id id (rev rows)); [reflexivity|].
  destruct (Z.eqb_spec (ID r) id) as [<-|Hne].
  - apply find_id_upsert_same.
  - apply find_id_upsert_other. congruence.
Qed.

Lemma find_id_rev_last id front row back :
  ID row = id ->
  (forall r, r ∈ back -> ID r <> id) ->
  Sql.find_article_by_id id (rev (front ++ row :: back)) = Some row.
Proof.
  intros Hid Hback. rewrite rev_app_distr. simpl rev. rewrite <- app_assoc. simpl.
  unfold Sql.find_article_by_id.
  assert (Hnone : find (fun a => ID a =? id) (rev back) = None).
  { destruct (find _ (rev back)) as [x|] eqn:Hf; [| reflexivity].
    apply find_some in Hf as [Hin Hx]. apply Z.eqb_eq in Hx.
    apply in_rev, list_elem_of_In in Hin. destruct (Hback x Hin Hx). }
  induction (rev back) as [|x l IH]; simpl in *.
  - rewrite (proj2 (Z.eqb_eq _ _) Hid). reflexivity.
  - destruct (ID x =? id); [discriminate | auto].
Qed.

Lemma find_id_rev_none id rows :
  (forall r, r ∈ rows -> ID r <> id) ->
  Sql.find_article_by_id id (rev rows) = None.
Proof.
  intros Hno. unfold Sql.find_article_by_id.
  destruct (find _ (rev rows)) as [x|] eqn:Hf; [| reflexivity].
  apply find_some in Hf as [Hin Hx]. apply Z.eqb_eq in Hx.
  apply in_rev, list_elem_of_In in Hin. destruct (Hno x Hin Hx).
Qed.

Lemma upsert_article_keeps_other a r tbl :
  a ∈ tbl -> ID a <> ID r -> a ∈ upsert_article r tbl.
Proof.
  intros Ha Hne. induction tbl as [|x tbl IH]; simpl; [inversion Ha|].
  apply elem_of_cons in Ha.
  destruct (ID r <? ID x); [right; apply elem_of_cons; assumption|].
  destruct (Z.eqb_spec (ID r) (ID x)) as [Heq|Hneq].
  - destruct Ha as [->|Ha]; [congruence | right; assumption].
  - destruct Ha as [->|Ha]; [left | right; apply IH; assumption].
Qed.

Lemma upsert_all_keeps_other a rows : forall tbl,
  a ∈ tbl -> (forall r, r ∈ rows -> ID r <> ID a) -> a ∈ upsert_all tbl rows.
Proof.
  unfold upsert_all.
  induction rows as [|r rows IH]; intros tbl Ha Hno; simpl; [assumption|].
  apply IH.
  - apply upsert_article_keeps_other; [assumption|].
    intros Heq. apply (Hno r); [left | congruence].
  - intros x Hx. apply Hno. right. assumption.
Qed.

Lemma upsert_article_increasing r tbl :
  ids_increasing tbl -> ids_increasing (upsert_article r tbl).
Proof.
  induction tbl as [|x tbl IH]; simpl.
  - intros _. split; [intros b Hb; inversion Hb | exact I].
  - intros [Hx Htbl].
    destruct (Z.ltb_spec (ID r) (ID x)); [| destruct (Z.eqb_spec (ID r) (ID x))].
    + simpl. split; [| auto].
      intros b Hb. apply elem_of_cons in Hb as [->|Hb]; [assumption|].
      specialize (Hx b Hb). lia.
    + simpl. split; [| assumption]. intros b Hb. rewrite e. auto.
    + simpl. split; [| auto]. intros b Hb.
      apply elem_of_upsert_article in Hb as [->|Hb]; [lia | auto].
Qed.

Lemma upsert_all_increasing rows : forall tbl,
  ids_increasing tbl -> ids_increasing (upsert_all tbl rows).
Proof.
  unfold upsert_all. induction rows as [|r rows IH]; intros tbl H; simpl; [assumption|].
  apply IH, upsert_article_increasing, H.
Qed.

Lemma find_id_increasing_head x tbl :
  ids_increasing (x :: tbl) -> Sql.find_article_by_id (ID x) tbl = None.
Proof.
  intros [Hx _]. unfold Sql.find_article_by_id.
  destruct (find _ tbl) as [y|] eqn:Hf; [| reflexivity].
  apply find_some in Hf as [Hin Hy]. apply Z.eqb_eq in Hy.
  apply list_elem_of_In in Hin. specialize (Hx y Hin). lia.
Qed.

(** Two tables with increasing ids that answer every lookup by id alike
    are the same table. *)
Lemma increasing_ext l1 : forall l2,
  ids_increasing l1 -> ids_increasing l2 ->
  (forall id, Sql.find_article_by_id id l1 = Sql.find_article_by_id id l2) ->
  l1 = l2.
Proof.
  induction l1 as [|x l1 IH]; intros [|y l2] H1 H2 Hext.
  - reflexivity.
  - specialize (Hext (ID y)). simpl in Hext. rewrite Z.eqb_refl in Hext. discriminate.
  - specialize (Hext (ID x)). simpl in Hext. rewrite Z.eqb_refl in Hext. discriminate.
  - assert (Hxy : x = y).
    { pose proof (Hext (ID x)) as Hx. pose proof (Hext (ID y)) as Hy.
      unfold Sql.find_article_by_id in Hx, Hy. simpl in Hx, Hy.
      rewrite Z.eqb_refl in Hx, Hy.
      destruct (Z.eqb_spec (ID y) (ID x)) as [e|Hne]; [congruence|].
      destruct (Z.eqb_spec (ID x) (ID y)) as [e|_]; [congruence|].
      symmetry in Hx. apply find_some in Hx as [Hinx _].
      apply find_some in Hy as [Hiny _].
      apply list_elem_of_In in Hinx, Hiny.
      pose proof (proj1 H1 y Hiny). pose proof (proj1 H2 x Hinx). lia. }
    subst y. f_equal. apply IH; [apply H1 | apply H2 |].
    intros id. destruct (Z.eq_dec id (ID x)) as [->|Hne].
    + rewrite !find_id_increasing_head by assumption. reflexivity.
    + specialize (Hext id). unfold Sql.find_article_by_id in *. simpl in Hext.
      destruct (Z.eqb_spec (ID x) id); [congruence | exact Hext].
Qed.

Lemma upsert_all_twice tbl rows :
  ids_increasing tbl -> upsert_all (upsert_all tbl rows) rows = upsert_all tbl rows.
Proof.
  intros H. apply increasing_ext.
  - apply upsert_all_increasing, upsert_all_increasing, H.
  - apply upsert_all_increasing, H.
  - intros id. rewrite (find_id_upsert_all id rows (upsert_all tbl rows)).
    destruct (Sql.find_article_by_id id (rev rows)) eqn:Hf; [| reflexivity].
    rewrite find_id_upsert_all, Hf. reflexivity.
Qed.

End UpsertLookup.

Section UpsertLast.

Lemma upsert_article_self r tbl : r ∈ upsert_article r tbl.
Proof.
  pose proof (find_id_upsert_same r tbl) as H. unfold Sql.find_article_by_id in H.
  apply find_some in H as [H _]. apply list_elem_of_In, H.
Qed.

(** The last row written for an id is in the table. *)
Lemma upsert_all_last tbl front row back :
  (forall r, r ∈ back -> ID r <> ID row) ->
  row ∈ upsert_all tbl (front ++ row :: back).
Proof.
  intros Hback. rewrite upsert_all_app.
  change (upsert_all (upsert_all tbl front) (row :: back))
    with (upsert_all (upsert_article row (upsert_all tbl front)) back).
  apply upsert_all_keeps_other; [apply upsert_article_self | exact Hback].
Qed.

End UpsertLast.

(** ** The outcome of a ProcessArticles call *)

Section ProcessArticlesCalls.
Import ProcessArticles.

(** What the last commit left is the table with a first part of the
    writes; no commit happens before [batchSize] rows are written. *)
Lemma loop_committed base indexSet limit stream : forall st,
  (exists j,
     (j <= length (execs st))%nat
     /\ committed st = upsert_all base (take j (execs st))
     /\ (j = 0%nat \/ batchSize <= Z.of_nat (length (execs st))))
  /\ view st = upsert_all base (execs st)
  /\ 0 <= count st <= Z.of_nat (length (execs st)) ->
  let st' := loop indexSet limit stream st in
  exists j,
    (j <= length (execs st'))%nat
    /\ committed st' = upsert_all base (take j (execs st'))
    /\ (j = 0%nat \/ batchSize <= Z.of_nat (length (execs st'))).
Proof.
  induction stream as [|[| |page] stream IH]; intros st Hinv; simpl.
  - apply Hinv.
  - apply IH. exact Hinv.
  - apply Hinv.
  - assert (Hstep : (exists j,
                       (j <= length (execs (store_step page st)))%nat
                       /\ committed (store_step page st)
                          = upsert_all base (take j (execs (store_step page st)))
                       /\ (j = 0%nat
                           \/ batchSize <= Z.of_nat (length (execs (store_step page st)))))
                    /\ view (store_step page st)
                       = upsert_all base (execs (store_step page st))
                    /\ 0 <= count (store_step page st)
                       <= Z.of_nat (length (execs (store_step page st)))).
    { destruct Hinv as ((j & Hj & Hc & Hb) & Hv & Hcount).
      assert (Hv' : upsert_article (rowOf page) (view st)
                    = upsert_all base (execs st ++ [rowOf page])).
      { rewrite upsert_all_app, <- Hv. reflexivity. }
      unfold store_step. destruct (Z.leb_spec batchSize (count st + 1)); simpl.
      - split; [| split; [exact Hv' | rewrite length_app; simpl; lia]].
        exists (length (execs st ++ [rowOf page])). rewrite firstn_all.
        split; [lia|]. split; [exact Hv' | right; rewrite length_app; simpl; lia].
      - split; [| split; [exact Hv' | rewrite length_app; simpl; lia]].
        exists j. rewrite take_app_le by lia. rewrite length_app. simpl.
        split; [lia|]. split; [exact Hc|]. destruct Hb; [left; assumption | right; lia]. }
    destruct (kept indexSet page); [| apply IH; exact Hinv].
    destruct (_ && _); [apply Hstep | apply IH; exact Hstep].
Qed.

Lemma run_committed limit stream d :
  stuck (run limit stream d) = true ->
  exists j,
    (j <= length (execs (run limit stream d)))%nat
    /\ committed (run limit stream d)
       = upsert_all (articles d) (take j (execs (run limit stream d)))
    /\ (j = 0%nat \/ batchSize <= Z.of_nat (length (execs (run limit stream d)))).
Proof.
  unfold run.
  set (init := mkLoop (articles d) (articles d) [] 0 0
                 [LogFoundArticles (Z.of_nat (size (indexSetOf (index_entries d))));
                  LogProcessingArticles] false).
  assert (Hinv : (exists j,
                    (j <= length (execs init))%nat
                    /\ committed init = upsert_all (articles d) (take j (execs init))
                    /\ (j = 0%nat \/ batchSize <= Z.of_nat (length (execs init))))
                 /\ view init = upsert_all (articles d) (execs init)
                 /\ 0 <= count init <= Z.of_nat (length (execs init))).
  { simpl. split; [| split; [reflexivity | lia]].
    exists 0%nat. simpl. split; [lia|]. split; [reflexivity | left; reflexivity]. }
  pose proof (loop_committed (articles d) (indexSetOf (index_entries d)) limit stream
                init Hinv) as H.
  cbv zeta in H. destruct (stuck (loop _ _ _ init)); [intros _; exact H | discriminate].
Qed.

(** The four ways a call ends. *)
Lemma ProcessArticles_result eng stream limit st :
  match Open eng st with
  | (Some e, st0, lg0) => ProcessArticles eng stream limit st = Returns (Some e, st0, lg0)
  | (None, st0, lg0) =>
      let written := rows_written limit stream (index_entries (database st)) in
      if Schema.insert_prepares eng (sqlite_master (database st0)) then
        if stuck (run limit stream (database st0)) then
          exists j lg,
            ProcessArticles eng stream limit st
            = NeverReturns
                (mkState (wiki st0)
                   (mkDatabase (sqlite_master (database st0))
                      (upsert_all (articles (database st)) (take j written))
                      (index_entries (database st))))
                lg
            /\ (j <= length written)%nat
            /\ (j = 0%nat \/ batchSize <= Z.of_nat (length written))
        else
          exists lg,
            ProcessArticles eng stream limit st
            = Returns
                (None,
                 mkState (wiki st0)
                   (mkDatabase (sqlite_master (database st0))
                      (upsert_all (articles (database st)) written)
                      (index_entries (database st))),
                 lg)
      else
        ProcessArticles eng stream limit st
        = Returns
            (Some ErrPrepareStatement, st0,
             lg0 ++ [LogFoundArticles
                       (Z.of_nat (size (indexSetOf (index_entries (database st)))))])
  end.
Proof.
  unfold ProcessArticles. destruct (Open eng st) as [[[e|] st0] lg0] eqn:HO; [reflexivity|].
  destruct (Open_success _ _ _ _ HO) as (_ & _ & Ha & Hi). cbv zeta.
  destruct (Schema.insert_prepares eng _); [| rewrite Hi; reflexivity].
  unfold rows_written. rewrite <- Hi, <- Ha, <- run_execs.
  destruct (stuck (run limit stream (database st0))) eqn:Hs.
  - destruct (run_committed limit stream (database st0) Hs) as (j & Hj & Hc & Hb).
    exists j. eexists. rewrite Hc. auto.
  - eexists. rewrite run_view. reflexivity.
Qed.

Lemma ProcessArticles_success eng stream limit st st1 lg :
  ProcessArticles eng stream limit st = Returns (None, st1, lg) ->
  initialized (wiki st1) = true
  /\ articles (database st1)
     = upsert_all (articles (database st))
         (rows_written limit stream (index_entries (database st)))
  /\ index_entries (database st1) = index_entries (database st)
  /\ (limit <= 0 -> StickyError ∉ stream).
Proof.
  intros H. pose proof (ProcessArticles_result eng stream limit st) as Hr.
  destruct (Open eng st) as [[[e|] st0] lg0] eqn:HO.
  - rewrite Hr in H. discriminate.
  - cbv zeta in Hr.
    destruct (Schema.insert_prepares eng _); [| rewrite Hr in H; discriminate].
    destruct (stuck (run limit stream (database st0))) eqn:Hs.
    + destruct Hr as (j & lg' & Hr & _). rewrite Hr in H. discriminate.
    + destruct Hr as [lg' Hr]. rewrite Hr in H. injection H as <- _.
      destruct (Open_success _ _ _ _ HO) as (Hi & _).
      repeat (split; [auto; fail|]). intros Hl Hin.
      rewrite (proj2 (run_stuck limit stream (database st0)) Hl Hin) in Hs. discriminate.
Qed.

(** On an initialized handle whose schema lets the statement prepare,
    and with a decoder that reaches the end of the file, the call
    returns nil. *)
Lemma ProcessArticles_returns eng stream limit st :
  initialized (wiki st) = true ->
  Schema.insert_prepares eng (sqlite_master (database st)) = true ->
  StickyError ∉ stream ->
  exists lg,
    ProcessArticles eng stream limit st
    = Returns
        (None,
         mkState (wiki st)
           (mkDatabase (sqlite_master (database st))
              (upsert_all (articles (database st))
                 (rows_written limit stream (index_entries (database st))))
              (index_entries (database st))),
         lg).
Proof.
  intros Hi Hp Hno. pose proof (ProcessArticles_result eng stream limit st) as Hr.
  rewrite (Open_initialized _ _ Hi) in Hr. cbv zeta in Hr. rewrite Hp in Hr.
  destruct (stuck (run limit stream (database st))) eqn:Hs; [| exact Hr].
  destruct (Hno (proj1 (run_stuck limit stream (database st)) Hs)).
Qed.

Lemma GetArticleByID_initialized eng id st :
  initialized (wiki st) = true ->
  GetArticleByID eng id st
  = (match Sql.find_article_by_id id (articles (database st)) with
     | Some a => Ok a
     | None => Err (ErrArticleIDNotFound id)
     end, st, []).
Proof.
  intros Hi. unfold GetArticleByID. rewrite (Open_initialized _ _ Hi).
  destruct (Sql.find_article_by_id _ _); reflexivity.
Qed.

Lemma Open_fresh eng d :
  store_available eng = true ->
  Open eng (mkState NewWiki d)
  = (None,
     mkState (mkWiki true true (createTables eng (sqlite_master d)).1.1)
       (mkDatabase (createTables eng (sqlite_master d)).1.2 (articles d) (index_entries d)),
     (createTables eng (sqlite_master d)).2).
Proof.
  intros Hs. unfold Open. simpl. rewrite Hs. simpl.
  destruct (createTables eng (sqlite_master d)) as [[v m] lg]. reflexivity.
Qed.

Lemma Open_fresh_fails eng d e st lg :
  Open eng (mkState NewWiki d) = (Some e, st, lg) -> store_available eng = false.
Proof.
  destruct (store_available eng) eqn:Hs; [| reflexivity].
  rewrite (Open_fresh _ _ Hs). discriminate.
Qed.

(** On a database file of the program's making the INSERT prepares
    exactly when the module its triggers write to is in the build. *)
Lemma insert_prepares_own origin eng :
  Schema.insert_prepares eng (createTables eng (schema_from origin)).1.2
  = module_at_hand origin eng.
Proof.
  destruct eng as [s [|] [|] m]; destruct origin as [[s0 [|] [|] m0]|];
    vm_compute; reflexivity.
Qed.

End ProcessArticlesCalls.

(** ** Claims on ProcessArticles and GetArticle *)

(** C1, as the claim states it, fails: a valid UTF-8 text of 10 MiB + 1
    byte that ends in a two-byte character is cut in the middle of that
    character, and the page is stored with content that is not valid
    UTF-8. *)
Lemma C1_cut_splits_a_character :
  Utf8.valid straddling_text = true
  /\ Z.of_nat (length straddling_text) = ProcessArticles.maxContentBytes + 1
  /\ ProcessArticles.truncateContent straddling_text
     = repeat "a"%char (Z.to_nat ProcessArticles.maxContentBytes - 1) ++ ["195"%char]
  /\ Utf8.valid (ProcessArticles.truncateContent straddling_text) = false
  /\ ProcessArticles.execs
       (ProcessArticles.run (-1)
          [DecodedPage (Page.mk (B "E") 0 1 [] straddling_text)]
          (mkDatabase [] [] [mkIndexEntry 0 1]))
     = [mkArticle 1 (B "E") 0 (ProcessArticles.truncateContent straddling_text) []].
Proof.
  pose proof maxContentBytes_pos as Hpos.
  assert (Hcut : ProcessArticles.truncateContent straddling_text
                 = repeat "a"%char (Z.to_nat ProcessArticles.maxContentBytes - 1)
                     ++ ["195"%char]).
  { rewrite truncateContent_is_take. unfold straddling_text.
    remember (Z.to_nat ProcessArticles.maxContentBytes) as n eqn:Hn.
    destruct n as [|k]; [lia|].
    replace (S k - 1)%nat with k by lia. replace (S k) with (k + 1)%nat by lia.
    rewrite take_app_add' by (rewrite repeat_length; reflexivity).
    reflexivity. }
  split; [| split; [| split; [| split]]].
  - unfold straddling_text. rewrite valid_ascii_run by reflexivity. reflexivity.
  - unfold straddling_text. rewrite length_app, repeat_length. simpl length. lia.
  - exact Hcut.
  - rewrite Hcut, valid_ascii_run by reflexivity. reflexivity.
  - rewrite run_execs. reflexivity.
Qed.

(** C1 (amended): the content stored for a page is the first
    min(len, 10 MiB) bytes of the page text, cut at the byte offset with no
    adjustment: it is at most 10 MiB long, it is the text itself when the
    text is at most 10 MiB long, and it is valid UTF-8 when the text is and
    the byte at offset 10 MiB (if there is one) starts a character. *)
Theorem C1_stored_content_is_a_bounded_prefix :
  forall limit stream d row,
    row ∈ ProcessArticles.execs (ProcessArticles.run limit stream d) ->
    exists page,
      DecodedPage page ∈ stream
      /\ Content row = take (Z.to_nat ProcessArticles.maxContentBytes) (Page.Text page)
      /\ Z.of_nat (length (Content row)) <= ProcessArticles.maxContentBytes
      /\ (Z.of_nat (length (Page.Text page)) <= ProcessArticles.maxContentBytes ->
          Content row = Page.Text page)
      /\ (Utf8.valid (Page.Text page) = true ->
          Utf8.starts_character
            (drop (Z.to_nat ProcessArticles.maxContentBytes) (Page.Text page)) = true ->
          Utf8.valid (Content row) = true).
Proof.
  intros limit stream d row Hrow.
  destruct (run_execs_from_kept _ _ _ _ Hrow) as (page & Hin & _ & ->).
  exists page. simpl. split; [assumption|].
  split; [apply truncateContent_is_take|].
  split; [apply truncateContent_length|].
  split; [apply truncateContent_short | apply truncateContent_valid].
Qed.

Lemma C1_stored_content_is_a_bounded_prefix_witness :
  exists page,
    DecodedPage page ∈ [DecodedPage (Page.mk (B "Anarchism") 0 12 [] (B "Anarchism is"))]
    /\ Content (mkArticle 12 (B "Anarchism") 0 (B "Anarchism is") [])
       = take (Z.to_nat ProcessArticles.maxContentBytes) (Page.Text page)
    /\ Z.of_nat (length (Content (mkArticle 12 (B "Anarchism") 0 (B "Anarchism is") [])))
       <= ProcessArticles.maxContentBytes
    /\ (Z.of_nat (length (Page.Text page)) <= ProcessArticles.maxContentBytes ->
        Content (mkArticle 12 (B "Anarchism") 0 (B "Anarchism is") []) = Page.Text page)
    /\ (Utf8.valid (Page.Text page) = true ->
        Utf8.starts_character
          (drop (Z.to_nat ProcessArticles.maxContentBytes) (Page.Text page)) = true ->
        Utf8.valid (Content (mkArticle 12 (B "Anarchism") 0 (B "Anarchism is") [])) = true).
Proof.
  apply (C1_stored_content_is_a_bounded_prefix (-1)
           [DecodedPage (Page.mk (B "Anarchism") 0 12 [] (B "Anarchism is"))]
           (mkDatabase [] [] [mkIndexEntry 10 12])).
  apply (bool_decide_unpack _). vm_compute. exact I.
Defined.

(** C7: when ProcessArticles returns nil, articles is the table it found
    with one row written, in stream order, for each page whose namespace
    is 0 and whose id occurs as article_id in index_entries, and for no
    other page (a positive limit ends the run after the first [limit] such
    pages, and without one the decoder has reached the end of the file).
    The row carries the page's id and title, namespace 0 and the first
    redirect target's title (the empty string without one); the last row
    written for an id is in articles afterwards, and every row of articles
    is such a row or was there before.  So no row with another namespace
    enters articles, and GetArticle on a title that no kept page and no
    earlier row bears reports it as not found, as for "Talk:Anarchism" in
    the end-to-end scenario, whose two other pages are stored.  The call
    does return nil when Open succeeds on a database file that is new or
    of this program's making, the build has the full-text module the file
    uses, and the decoder reaches the end of the dump. *)
Theorem C7_ProcessArticles_keeps_indexed_main_namespace :
  (forall eng stream limit st st1 lg,
     ProcessArticles eng stream limit st = Returns (None, st1, lg) ->
     let idx := index_entries (database st) in
     let kept_rows :=
       map ProcessArticles.rowOf
         (List.filter (ProcessArticles.kept (ProcessArticles.indexSetOf idx))
            (pages_of stream)) in
     let written := first_rows limit kept_rows in
     articles (database st1) = upsert_all (articles (database st)) written
     /\ index_entries (database st1) = idx
     /\ (limit <= 0 ->
         written = kept_rows
         /\ forall page,
              DecodedPage page ∈ stream ->
              (ProcessArticles.rowOf page ∈ written
               <-> Page.NS page = 0
                   /\ exists seek, mkIndexEntry seek (Page.ID page) ∈ idx))
     /\ (0 < limit -> written = take (Z.to_nat limit) kept_rows)
     /\ (forall row,
           row ∈ written ->
           (exists a, a ∈ articles (database st1) /\ ID a = ID row)
           /\ exists page,
                DecodedPage page ∈ stream
                /\ Page.NS page = 0
                /\ (exists seek, mkIndexEntry seek (Page.ID page) ∈ idx)
                /\ row = mkArticle (Page.ID page) (Page.Title page) 0
                           (ProcessArticles.truncateContent (Page.Text page))
                           (first_redirect_title page))
     /\ (forall front row back,
           written = front ++ row :: back ->
           (forall r, r ∈ back -> ID r <> ID row) ->
           row ∈ articles (database st1))
     /\ (forall a,
           a ∈ articles (database st1) -> a ∈ written \/ a ∈ articles (database st))
     /\ ((forall a, a ∈ articles (database st) -> Namespace a = 0) ->
         forall a, a ∈ articles (database st1) -> Namespace a = 0))
  /\ (forall lib eng eng' limit stream title st st1 lg,
        ProcessArticles eng stream limit st = Returns (None, st1, lg) ->
        (forall a, a ∈ articles (database st) ->
           Title a <> title
           /\ sql_lower (Title a)
              <> sql_lower (cases_Title lib (strings_ToLower lib title))) ->
        (forall page, DecodedPage page ∈ stream -> Page.NS page = 0 ->
           Page.Title page <> title
           /\ sql_lower (Page.Title page)
              <> sql_lower (cases_Title lib (strings_ToLower lib title))) ->
        GetArticle lib eng' title st1 = (Err (ErrArticleNotFound title), st1, []))
  /\ (forall origin eng stream limit st st0 lg0,
        Open eng st = (None, st0, lg0) ->
        sqlite_master (database st0) = (createTables eng (schema_from origin)).1.2 ->
        module_at_hand origin eng = true ->
        StickyError ∉ stream ->
        exists st1 lg, ProcessArticles eng stream limit st = Returns (None, st1, lg))
  /\ articles (database (after_ingestion fullEngine))
     = [mkArticle 10 (B "AccessibleComputing") 0 [] (B "Computer accessibility");
        mkArticle 12 (B "Anarchism") 0 (B "Anarchism is a political philosophy") []]
  /\ GetArticle AsciiText.lib fullEngine (B "Talk:Anarchism") (after_ingestion fullEngine)
     = (Err (ErrArticleNotFound (B "Talk:Anarchism")), after_ingestion fullEngine, []).
Proof.
  split; [| split; [| split; [| split]]].
  - intros eng stream limit st st1 lg Hrun idx kept_rows written.
    destruct (ProcessArticles_success _ _ _ _ _ _ Hrun) as (_ & Harts & Hidx & Heof).
    change (rows_written limit stream (index_entries (database st))) with written in Harts.
    assert (Hfrom : forall row,
              row ∈ written ->
              exists page,
                DecodedPage page ∈ stream
                /\ Page.NS page = 0
                /\ (exists seek, mkIndexEntry seek (Page.ID page) ∈ idx)
                /\ row = mkArticle (Page.ID page) (Page.Title page) 0
                           (ProcessArticles.truncateContent (Page.Text page))
                           (first_redirect_title page)).
    { intros row Hrow. apply elem_of_first_rows in Hrow.
      apply list_elem_of_fmap in Hrow as (page & -> & Hin).
      apply list_elem_of_In, filter_In in Hin as [Hin Hk].
      apply list_elem_of_In, elem_of_pages_of in Hin.
      apply kept_spec in Hk as [Hns Hx]. exists page.
      repeat (split; [assumption|]).
      unfold ProcessArticles.rowOf. rewrite Hns, redirectOf_first. reflexivity. }
    split; [exact Harts|]. split; [exact Hidx|].
    split; [| split; [| split; [| split; [| split]]]].
    + intros Hl.
      assert (Hw : written = kept_rows).
      { unfold written, first_rows. destruct (Z.ltb_spec 0 limit); [lia | reflexivity]. }
      split; [exact Hw|]. intros page Hin. split.
      * intros Hrow. destruct (Hfrom _ Hrow) as (page' & _ & Hns & Hx & Heq).
        unfold ProcessArticles.rowOf in Heq. injection Heq as Hid _ Hns' _ _.
        rewrite Hid. auto.
      * intros Hcond. rewrite Hw. apply list_elem_of_fmap. exists page.
        split; [reflexivity|]. apply list_elem_of_In, filter_In. split.
        -- apply list_elem_of_In, (elem_of_pages_of_eof _ _ (Heof Hl)). assumption.
        -- apply kept_spec. assumption.
    + intros Hl. unfold written, first_rows.
      destruct (Z.ltb_spec 0 limit); [reflexivity | lia].
    + intros row Hrow. split; [| apply Hfrom; assumption].
      rewrite Harts. apply upsert_all_has_id. assumption.
    + intros front row back Hw Hback. rewrite Harts, Hw. apply upsert_all_last, Hback.
    + intros a Ha. rewrite Harts in Ha. apply elem_of_upsert_all, Ha.
    + intros Hinit a Ha. rewrite Harts in Ha.
      apply elem_of_upsert_all in Ha as [Ha|Ha]; [| apply Hinit; assumption].
      destruct (Hfrom a Ha) as (page & _ & _ & _ & ->). reflexivity.
  - intros lib eng eng' limit stream title st st1 lg Hrun Hold Hnew.
    destruct (ProcessArticles_success _ _ _ _ _ _ Hrun) as (Hini & Harts & _ & _).
    apply GetArticle_not_found; [apply Open_initialized; exact Hini|].
    intros a Ha. rewrite Harts in Ha.
    apply elem_of_upsert_all in Ha as [Ha|Ha]; [| apply (Hold a Ha)].
    apply elem_of_first_rows in Ha.
    apply list_elem_of_fmap in Ha as (page & -> & Hin).
    apply list_elem_of_In, filter_In in Hin as [Hin Hk].
    apply list_elem_of_In, elem_of_pages_of in Hin.
    apply kept_spec in Hk as [Hns _]. apply (Hnew page Hin Hns).
  - intros origin eng stream limit st st0 lg0 HO Hm Hmod Hno.
    pose proof (ProcessArticles_result eng stream limit st) as Hr.
    rewrite HO in Hr. cbv zeta in Hr.
    rewrite Hm, insert_prepares_own, Hmod in Hr.
    destruct (ProcessArticles.stuck _) eqn:Hs.
    + destruct (Hno (proj1 (run_stuck limit stream (database st0)) Hs)).
    + destruct Hr as [lg Hr]. eauto.
  - vm_compute. reflexivity.
  - vm_compute. reflexivity.
Qed.

Lemma C7_ProcessArticles_keeps_indexed_main_namespace_witness :
  articles (database
    (mkState (mkWiki true true (B "none"))
       (mkDatabase []
          [mkArticle 12 (B "Anarchism") 0 (B "text") (B "r")]
          [mkIndexEntry 10 12; mkIndexEntry 11 13])))
  = upsert_all []
      (first_rows (-1)
         (map ProcessArticles.rowOf
            (List.filter
               (ProcessArticles.kept
                  (ProcessArticles.indexSetOf [mkIndexEntry 10 12; mkIndexEntry 11 13]))
               (pages_of
                  [DecodedPage (Page.mk (B "Anarchism") 0 12 [Redirect.mk (B "r")] (B "text"));
                   DecodedPage (Page.mk (B "Talk:Anarchism") 1 13 [] (B "Discussion"));
                   DecodedPage (Page.mk (B "Unlisted") 0 14 [] (B "No index line"))])))).
Proof.
  refine (proj1 (proj1 C7_ProcessArticles_keeps_indexed_main_namespace
                   likeEngine
                   [DecodedPage (Page.mk (B "Anarchism") 0 12 [Redirect.mk (B "r")] (B "text"));
                    DecodedPage (Page.mk (B "Talk:Anarchism") 1 13 [] (B "Discussion"));
                    DecodedPage (Page.mk (B "Unlisted") 0 14 [] (B "No index line"))]
                   (-1)
                   (mkState (mkWiki true true (B "none"))
                      (mkDatabase [] [] [mkIndexEntry 10 12; mkIndexEntry 11 13]))
                   _ [LogFoundArticles 2; LogProcessingArticles; LogDoneArticles 1] _)).
  vm_compute. reflexivity.
Defined.

(** C8: GetArticle returns a row whose title is the input when there is
    one; otherwise a row whose LOWER(title) equals LOWER of the title-cased,
    lower-cased input when there is one; otherwise the error "article not
    found" with the input title.  With "Anarchism" as the only title,
    GetArticle("anarchism") returns that article. *)
Theorem C8_GetArticle_exact_then_case_insensitive :
  (forall lib eng title st st1 lg,
     Open eng st = (None, st1, lg) ->
     let tbl := articles (database st) in
     let retry := cases_Title lib (strings_ToLower lib title) in
     ((exists a, a ∈ tbl /\ Title a = title) ->
      exists a, GetArticle lib eng title st = (Ok a, st1, lg)
                /\ a ∈ tbl /\ Title a = title)
     /\ ((forall a, a ∈ tbl -> Title a <> title) ->
         (exists a, a ∈ tbl /\ sql_lower (Title a) = sql_lower retry) ->
         exists a, GetArticle lib eng title st = (Ok a, st1, lg)
                   /\ a ∈ tbl /\ sql_lower (Title a) = sql_lower retry)
     /\ ((forall a, a ∈ tbl ->
            Title a <> title /\ sql_lower (Title a) <> sql_lower retry) ->
         GetArticle lib eng title st = (Err (ErrArticleNotFound title), st1, lg)))
  /\ (forall eng w m idx id ns content redirect,
        initialized w = true ->
        let row := mkArticle id (B "Anarchism") ns content redirect in
        let st := mkState w (mkDatabase m [row] idx) in
        GetArticle AsciiText.lib eng (B "anarchism") st = (Ok row, st, [])).
Proof.
  split.
  - intros lib eng title st st1 lg HO tbl retry.
    rewrite (GetArticle_after_Open _ _ _ _ _ _ HO). fold tbl. fold retry.
    split; [| split].
    + intros Hex. destruct (find_exact_hit _ _ Hex) as (a & -> & Hin & Ht).
      exists a. auto.
    + intros Hno Hex. rewrite find_exact_miss by assumption.
      destruct (find_ci_hit _ _ Hex) as (a & -> & Hin & Ht). exists a. auto.
    + intros Hno.
      rewrite find_exact_miss by (intros a Ha; apply (Hno a Ha)).
      rewrite find_ci_miss by (intros a Ha; apply (Hno a Ha)).
      reflexivity.
  - intros eng w m idx id ns content redirect Hini row st.
    rewrite (GetArticle_after_Open _ _ _ st st []) by (apply Open_initialized; exact Hini).
    reflexivity.
Qed.

Lemma C8_GetArticle_exact_then_case_insensitive_witness :
  exists a,
    GetArticle AsciiText.lib fullEngine (B "Anarchism") (after_ingestion fullEngine)
      = (Ok a, after_ingestion fullEngine, [])
    /\ a ∈ articles (database (after_ingestion fullEngine))
    /\ Title a = B "Anarchism".
Proof.
  refine (proj1 (proj1 C8_GetArticle_exact_then_case_insensitive
                   AsciiText.lib fullEngine (B "Anarchism")
                   (after_ingestion fullEngine) (after_ingestion fullEngine) [] _) _).
  - vm_compute. reflexivity.
  - exists (mkArticle 12 (B "Anarchism") 0 (B "Anarchism is a political philosophy") []).
    split; [apply (bool_decide_unpack _); vm_compute; exact I | reflexivity].
Defined.

(** ** SearchTitles *)

Section SearchFacts.

Lemma normalize_pos n : 0 < SearchTitles.normalize n.
Proof. unfold SearchTitles.normalize. destruct (Z.leb_spec n 0); lia. Qed.

Lemma normalize_nonpositive n : n <= 0 -> SearchTitles.normalize n = 20.
Proof. unfold SearchTitles.normalize. destruct (Z.leb_spec n 0); lia. Qed.

Lemma normalize_positive n : 0 < n -> SearchTitles.normalize n = n.
Proof. unfold SearchTitles.normalize. destruct (Z.leb_spec n 0); lia. Qed.

Lemma limit_rows_length {A} n (rows : list A) :
  0 <= n -> Z.of_nat (length (Sql.limit_rows n rows)) <= n.
Proof.
  intros Hn. unfold Sql.limit_rows. destruct (Z.ltb_spec n 0); [lia|].
  rewrite length_take. lia.
Qed.

Lemma search_like_length d pattern n :
  0 <= n -> Z.of_nat (length (Sql.search_like d pattern n)) <= n.
Proof.
  intros Hn. unfold Sql.search_like. destruct (_ <? _); [simpl; lia|].
  apply limit_rows_length, Hn.
Qed.

Lemma search_fts_length eng d expr n titles :
  0 <= n -> Sql.search_fts eng d expr n = inr titles ->
  Z.of_nat (length titles) <= n.
Proof.
  intros Hn. unfold Sql.search_fts.
  destruct (Schema.table_object _ _) as [o|]; [| discriminate].
  destruct (obj_module o) as [[|]|]; try discriminate.
  - destruct (fts5_compiled eng); [| discriminate].
    destruct (fts5_match eng _ _); intros [= <-]; [| simpl; lia].
    apply limit_rows_length. assumption.
  - destruct (fts4_compiled eng); discriminate.
Qed.

Lemma uses_fts_not_none v :
  SearchTitles.uses_fts v = true -> eqb v (B "none") = false.
Proof.
  unfold SearchTitles.uses_fts, eqb. rewrite orb_true_iff, !bool_decide_eq_true.
  intros [->| ->]; reflexivity.
Qed.

Lemma uses_fts_none : SearchTitles.uses_fts (B "none") = false.
Proof. reflexivity. Qed.

(** The three ways through [SearchTitles] once the handle is
    initialized. *)
Lemma SearchTitles_like_mode eng q n st :
  initialized (wiki st) = true ->
  SearchTitles.uses_fts (ftsVersion (wiki st)) = false ->
  SearchTitles eng q n st = (Ok (like_answer (database st) q n), st, []).
Proof.
  intros Hi Hm. unfold SearchTitles. rewrite (Open_initialized _ _ Hi), Hm.
  rewrite bool_decide_eq_true_2 by reflexivity. rewrite orb_true_r.
  destruct st. reflexivity.
Qed.

Lemma SearchTitles_fts_failed eng q n st e :
  initialized (wiki st) = true ->
  SearchTitles.uses_fts (ftsVersion (wiki st)) = true ->
  Sql.search_fts eng (database st) (SearchTitles.ftsQuery q) (SearchTitles.normalize n)
    = inl e ->
  SearchTitles eng q n st
  = (Ok (like_answer (database st) q n), demoted st, [LogFtsQueryFailed]).
Proof.
  intros Hi Hm Hq. unfold SearchTitles. rewrite (Open_initialized _ _ Hi), Hm, Hq.
  reflexivity.
Qed.

Lemma SearchTitles_fts_answered eng q n st titles :
  initialized (wiki st) = true ->
  SearchTitles.uses_fts (ftsVersion (wiki st)) = true ->
  Sql.search_fts eng (database st) (SearchTitles.ftsQuery q) (SearchTitles.normalize n)
    = inr titles ->
  SearchTitles eng q n st = (Ok titles, st, []).
Proof.
  intros Hi Hm Hq. unfold SearchTitles. rewrite (Open_initialized _ _ Hi), Hm, Hq.
  rewrite (uses_fts_not_none _ Hm). simpl. destruct st. reflexivity.
Qed.

Lemma SearchTitles_after_Open eng q n st st1 lg :
  Open eng st = (None, st1, lg) ->
  SearchTitles eng q n st =
  let '(r, st2, lg2) := SearchTitles eng q n st1 in (r, st2, lg ++ lg2).
Proof.
  intros HO. destruct (Open_success _ _ _ _ HO) as (Hi & _).
  unfold SearchTitles at 2. rewrite (Open_initialized _ _ Hi).
  unfold SearchTitles. rewrite HO.
  destruct (SearchTitles.uses_fts _); [destruct (Sql.search_fts _ _ _ _)|];
    reflexivity.
Qed.

Lemma SearchTitles_length eng q n st titles st' lg :
  SearchTitles eng q n st = (Ok titles, st', lg) ->
  Z.of_nat (length titles) <= SearchTitles.normalize n.
Proof.
  pose proof (normalize_pos n) as Hpos.
  unfold SearchTitles. destruct (Open eng st) as [[[e|] st1] lg1]; [discriminate|].
  destruct (SearchTitles.uses_fts _) eqn:Hm.
  - destruct (Sql.search_fts _ _ _ _) as [e|found] eqn:Hq.
    + intros [= <- _ _]. simpl. apply search_like_length. lia.
    + rewrite (uses_fts_not_none _ Hm). simpl. intros [= <- _ _].
      eapply search_fts_length; [| exact Hq]. lia.
  - rewrite bool_decide_eq_true_2 by reflexivity. rewrite orb_true_r.
    intros [= <- _ _]. apply search_like_length. lia.
Qed.

Lemma SearchTitles_normalized eng q n st :
  n <= 0 -> SearchTitles eng q n st = SearchTitles eng q 20 st.
Proof.
  intros Hn. unfold SearchTitles.
  rewrite (normalize_nonpositive n Hn), (normalize_positive 20) by lia.
  reflexivity.
Qed.

(** The pattern of the empty query matches every title. *)
Lemma like_characters_percent s : Sql.like_characters [Sql.percent] s = true.
Proof.
  induction s as [|c s IH]; [reflexivity|].
  simpl in *. exact IH.
Qed.

Lemma like_characters_star_all pat :
  (forall s, Sql.like_characters pat s = true) ->
  forall s, Sql.like_characters (Sql.percent :: pat) s = true.
Proof. intros H s. destruct s; simpl; rewrite H; reflexivity. Qed.

Lemma like_percent s : Sql.like (B "%") s = true.
Proof. apply like_characters_percent. Qed.

Lemma like_empty_query s : Sql.like (SearchTitles.likePattern []) s = true.
Proof. apply like_characters_star_all, like_characters_percent. Qed.

Lemma filter_all {A} (f : A -> bool) l :
  (forall x, f x = true) -> List.filter f l = l.
Proof.
  intros Hf. induction l as [|x l IH]; simpl; [reflexivity|].
  rewrite Hf, IH. reflexivity.
Qed.

Lemma like_answer_empty_query d n :
  like_answer d [] n = Sql.limit_rows (SearchTitles.normalize n) (titles_in_order d).
Proof.
  unfold like_answer, Sql.search_like, titles_in_order.
  change (Sql.likePatternLimit <? Z.of_nat (length (SearchTitles.likePattern [])))
    with false. cbv iota.
  rewrite filter_all by (intros a; apply like_empty_query). reflexivity.
Qed.

Lemma insert_sorted_not_nil x l : Sql.insert_sorted x l <> [].
Proof. destruct l; simpl; [| destruct (leb x _)]; discriminate. Qed.

Lemma titles_in_order_nil d : titles_in_order d = [] <-> articles d = [].
Proof.
  unfold titles_in_order. destruct (articles d) as [|a tbl]; [tauto|].
  split; [| discriminate]. simpl. unfold Sql.distinct. simpl.
  intros H. destruct (insert_sorted_not_nil _ _ H).
Qed.

Lemma limit_rows_nil {A} n (rows : list A) :
  0 < n -> Sql.limit_rows n rows = [] <-> rows = [].
Proof.
  intros Hn. unfold Sql.limit_rows. destruct (Z.ltb_spec n 0); [lia|].
  destruct rows; [rewrite take_nil; tauto|].
  replace (Z.to_nat n) with (S (Z.to_nat n - 1)) by lia. simpl.
  split; discriminate.
Qed.

End SearchFacts.

(** ** Sequences of calls on an initialized handle *)

Section CallFacts.

Lemma quiet_app a b : quiet (a ++ b) <-> quiet a /\ quiet b.
Proof. unfold quiet. rewrite existsb_app, orb_false_iff. tauto. Qed.

Lemma quiet_nil : quiet [].
Proof. reflexivity. Qed.

Lemma LoadIndex_loop_quiet limit lines : forall st,
  quiet (LoadIndex.logged st) -> quiet (LoadIndex.logged (LoadIndex.loop limit lines st).1).
Proof.
  induction lines as [|line lines IH]; intros st Hq; simpl; [assumption|].
  destruct (LoadIndex.parse_line line) as [e|]; [| apply IH; assumption].
  assert (Hq' : quiet (LoadIndex.logged (LoadIndex.insert_step e st))).
  { unfold LoadIndex.insert_step. destruct (_ =? 0); simpl; [| assumption].
    apply quiet_app. split; [assumption | reflexivity]. }
  destruct (_ && _); [assumption | apply IH; assumption].
Qed.

Lemma LoadIndex_run_quiet limit data tbl : quiet (LoadIndex.run limit data tbl).2.
Proof.
  unfold LoadIndex.run. destruct (Scanner.scanLines data) as [lines scanErr].
  pose proof (LoadIndex_loop_quiet limit lines
                (LoadIndex.mkLoop tbl tbl 0 [LogReadingIndex]) eq_refl) as Hq.
  destruct (LoadIndex.loop _ _ _) as [st b]. unfold LoadIndex.finish.
  destruct (if b then None else scanErr); simpl in *; [assumption|].
  apply quiet_app. split; [assumption | reflexivity].
Qed.

Lemma ProcessArticles_loop_quiet indexSet limit stream : forall st,
  quiet (ProcessArticles.logged st) ->
  quiet (ProcessArticles.logged (ProcessArticles.loop indexSet limit stream st)).
Proof.
  induction stream as [|[| |page] stream IH]; intros st Hq; simpl; [assumption | | |].
  - apply IH. simpl. apply quiet_app. split; [assumption | reflexivity].
  - apply quiet_app. split; [assumption | reflexivity].
  - destruct (ProcessArticles.kept indexSet page); [| apply IH; assumption].
    assert (Hq' : quiet (ProcessArticles.logged (ProcessArticles.store_step page st))).
    { unfold ProcessArticles.store_step. destruct (_ <=? _); simpl; [| assumption].
      apply quiet_app. split; [assumption | reflexivity]. }
    destruct (_ && _); [assumption | apply IH; assumption].
Qed.

Lemma ProcessArticles_run_quiet limit stream d :
  quiet (ProcessArticles.logged (ProcessArticles.run limit stream d)).
Proof.
  unfold ProcessArticles.run.
  match goal with
  | |- context [ProcessArticles.loop ?s ?l ?x ?i] =>
      pose proof (ProcessArticles_loop_quiet s l x i eq_refl) as Hq;
      destruct (ProcessArticles.stuck (ProcessArticles.loop s l x i))
  end; [exact Hq|].
  simpl. apply quiet_app. split; [exact Hq | reflexivity].
Qed.

Lemma keeps_handle_refl st : initialized (wiki st) = true -> keeps_handle st st.
Proof. intros H. repeat split; auto. Qed.

Lemma keeps_handle_trans st1 st2 st3 :
  keeps_handle st1 st2 -> keeps_handle st2 st3 -> keeps_handle st1 st3.
Proof.
  intros (H1 & H2 & H3 & H4) (H1' & H2' & H3' & H4').
  split; [assumption|]. split; [congruence|]. split; [congruence|].
  destruct H4' as [H|H]; [rewrite H; assumption | right; assumption].
Qed.

(** On an initialized handle no call re-creates tables or probes for
    FTS, and none touches the handle except for the demotion of the mode
    to "none". *)
Lemma perform_keeps_handle lib eng c st :
  initialized (wiki st) = true ->
  keeps_handle st (perform lib eng c st).1 /\ quiet (perform lib eng c st).2.
Proof.
  intros Hi. pose proof (Open_initialized eng st Hi) as HO.
  destruct c as [|data limit|stream limit|title|id|query limit]; simpl.
  - rewrite HO. split; [apply keeps_handle_refl; assumption | reflexivity].
  - unfold LoadIndex. rewrite HO.
    pose proof (LoadIndex_run_quiet limit data (index_entries (database st))) as Hq.
    destruct (LoadIndex.run _ _ _) as [[err tbl] lg]. simpl in *.
    split; [repeat split; auto | assumption].
  - unfold ProcessArticles. rewrite HO.
    pose proof (ProcessArticles_run_quiet limit stream (database st)) as Hq.
    destruct (Schema.insert_prepares eng _);
      [destruct (ProcessArticles.stuck _)|]; simpl;
      (split; [repeat split; auto|]); assumption || reflexivity.
  - rewrite (GetArticle_after_Open _ _ _ _ _ _ HO). simpl.
    split; [apply keeps_handle_refl; assumption | reflexivity].
  - unfold GetArticleByID. rewrite HO.
    destruct (Sql.find_article_by_id _ _); simpl;
      (split; [apply keeps_handle_refl; assumption | reflexivity]).
  - destruct (SearchTitles.uses_fts (ftsVersion (wiki st))) eqn:Hm.
    + destruct (Sql.search_fts eng (database st) (SearchTitles.ftsQuery query)
                  (SearchTitles.normalize limit)) as [e|titles] eqn:Hq.
      * rewrite (SearchTitles_fts_failed _ _ _ _ _ Hi Hm Hq). simpl.
        split; [repeat split; auto | reflexivity].
      * rewrite (SearchTitles_fts_answered _ _ _ _ _ Hi Hm Hq). simpl.
        split; [apply keeps_handle_refl; assumption | reflexivity].
    + rewrite (SearchTitles_like_mode _ _ _ _ Hi Hm). simpl.
      split; [apply keeps_handle_refl; assumption | reflexivity].
Qed.

Lemma perform_all_keeps_handle lib calls : forall st,
  initialized (wiki st) = true ->
  keeps_handle st (perform_all lib calls st).1 /\ quiet (perform_all lib calls st).2.
Proof.
  induction calls as [|[eng c] calls IH]; intros st Hi; simpl.
  - split; [apply keeps_handle_refl; assumption | reflexivity].
  - destruct (perform_keeps_handle lib eng c st Hi) as [Hk Hq].
    destruct (perform lib eng c st) as [st1 lg1]. simpl in *.
    destruct (comes_back eng c st); [| split; assumption].
    destruct (IH st1 (proj1 Hk)) as [Hk' Hq'].
    destruct (perform_all lib calls st1) as [st2 lg2]. simpl in *.
    split; [eapply keeps_handle_trans; eassumption|].
    apply quiet_app. split; assumption.
Qed.

End CallFacts.

(** ** Claims on Open and SearchTitles *)

(** C10: once Open has succeeded the handle is initialized, and from then
    on every Open returns nil at once, changing nothing and logging
    nothing; every sequence of calls of the package keeps the handle
    initialized, keeps the connection and the schema, keeps the detected
    mode (but for the demotion to "none" by SearchTitles) and writes none
    of the lines of createTables.  The first Open of an uninitialized
    handle does write one. *)
Theorem C10_Open_idempotent :
  forall eng st st1 lg,
    Open eng st = (None, st1, lg) ->
    initialized (wiki st1) = true
    /\ (initialized (wiki st) = false -> existsb probe_line lg = true)
    /\ (forall eng', Open eng' st1 = (None, st1, []))
    /\ (forall lib calls,
          let r := perform_all lib calls st1 in
          keeps_handle st1 r.1
          /\ quiet r.2
          /\ forall eng', Open eng' r.1 = (None, r.1, [])).
Proof.
  intros eng st st1 lg HO.
  destruct (Open_success _ _ _ _ HO) as (Hi & _).
  split; [exact Hi|]. split; [| split].
  - intros Hu. unfold Open in HO. rewrite Hu in HO.
    destruct (store_available eng); simpl in HO; [| discriminate].
    pose proof (createTables_writes_probe_line eng (sqlite_master (database st))) as Hp.
    destruct (createTables eng (sqlite_master (database st))) as [[version m] lg'].
    injection HO as _ <-. exact Hp.
  - intros eng'. apply Open_initialized. exact Hi.
  - intros lib calls r.
    destruct (perform_all_keeps_handle lib calls st1 Hi) as [Hk Hq].
    split; [exact Hk|]. split; [exact Hq|].
    intros eng'. apply Open_initialized. apply Hk.
Qed.

Lemma C10_Open_idempotent_witness :
  initialized (wiki (opened fullEngine)) = true
  /\ Open likeEngine (opened fullEngine) = (None, opened fullEngine, []).
Proof.
  assert (HO : Open fullEngine freshState
               = (None, opened fullEngine, (Open fullEngine freshState).2))
    by (vm_compute; reflexivity).
  destruct (C10_Open_idempotent _ _ _ _ HO) as (Hi & _ & Hagain & _).
  split; [exact Hi | exact (Hagain likeEngine)].
Defined.

(** C5 (the code at the failing input, and what it does attempt): an
    error that [db.Query] returns for the full-text statement is logged,
    sets the mode to "none" for good and is answered by the LIKE query, as
    the claim says.  A MATCH that fails while the rows are read is no such
    error: SearchTitles returns the empty list, logs nothing, leaves the
    mode as it is and does not ask the LIKE query, which would have found
    the title; the next search runs the full-text statement again. *)
Theorem C5_failed_match_is_not_demoted :
  (forall lib eng q n st st1 lg e,
     Open eng st = (None, st1, lg) ->
     SearchTitles.uses_fts (ftsVersion (wiki st1)) = true ->
     Sql.search_fts eng (database st1) (SearchTitles.ftsQuery q) (SearchTitles.normalize n)
       = inl e ->
     SearchTitles eng q n st
       = (Ok (like_answer (database st1) q n), demoted st1, lg ++ [LogFtsQueryFailed])
     /\ ftsVersion (wiki (demoted st1)) = B "none"
     /\ forall calls,
          let st' := (perform_all lib calls (demoted st1)).1 in
          ftsVersion (wiki st') = B "none"
          /\ forall eng' q' n',
               SearchTitles eng' q' n' st'
                 = (Ok (like_answer (database st') q' n'), st', []))
  /\ (forall eng q n st o,
        initialized (wiki st) = true ->
        SearchTitles.uses_fts (ftsVersion (wiki st)) = true ->
        Schema.table_object (B "articles_fts") (sqlite_master (database st)) = Some o ->
        obj_module o = Some Fts5 ->
        fts5_compiled eng = true ->
        fts5_match eng (articles (database st)) (SearchTitles.ftsQuery q) = None ->
        SearchTitles eng q n st = (Ok [], st, []))
  /\ ftsVersion (wiki after_mercury) = B "fts5"
  /\ fts5_match fts5Engine (articles (database after_mercury))
       (SearchTitles.ftsQuery (B "Mercury (")) = None
  /\ SearchTitles fts5Engine (B "Mercury (") 5 after_mercury = (Ok [], after_mercury, [])
  /\ like_answer (database after_mercury) (B "Mercury (") 5 = [B "Mercury (planet)"]
  /\ SearchTitles fts5Engine (B "Mercury") 5 after_mercury
     = (Ok [B "Mercury (planet)"], after_mercury, []).
Proof.
  split; [| split].
  - intros lib eng q n st st1 lg e HO Hm Hq.
    destruct (Open_success _ _ _ _ HO) as (Hi & _).
    split; [| split; [reflexivity|]].
    + rewrite (SearchTitles_after_Open _ _ _ _ _ _ HO).
      rewrite (SearchTitles_fts_failed _ _ _ _ _ Hi Hm Hq). reflexivity.
    + intros calls st'.
      assert (Hid : initialized (wiki (demoted st1)) = true) by exact Hi.
      destruct (perform_all_keeps_handle lib calls (demoted st1) Hid)
        as [(Hi' & _ & _ & Hv) _].
      fold st' in Hi', Hv.
      assert (Hnone : ftsVersion (wiki st') = B "none")
        by (destruct Hv as [-> | ->]; reflexivity).
      split; [exact Hnone|].
      intros eng' q' n'. apply SearchTitles_like_mode; [exact Hi'|].
      rewrite Hnone. reflexivity.
  - intros eng q n st o Hi Hm Ht Ho H5 Hmatch.
    apply (SearchTitles_fts_answered _ _ _ _ _ Hi Hm).
    unfold Sql.search_fts. rewrite Ht, Ho, H5, Hmatch. reflexivity.
  - repeat split; vm_compute; reflexivity.
Qed.

Lemma C5_failed_match_is_not_demoted_witness :
  SearchTitles fts4Engine (B "Anarch") 5 (after_ingestion fts4Engine)
    = (Ok [B "Anarchism"], demoted (after_ingestion fts4Engine), [LogFtsQueryFailed])
  /\ ftsVersion (wiki (demoted (after_ingestion fts4Engine))) = B "none".
Proof.
  destruct (proj1 C5_failed_match_is_not_demoted AsciiText.lib fts4Engine (B "Anarch") 5
              (after_ingestion fts4Engine) (after_ingestion fts4Engine) []
              Sql.NoSuchColumnRank)
    as (Hcall & Hmode & _).
  - vm_compute. reflexivity.
  - vm_compute. reflexivity.
  - vm_compute. reflexivity.
  - split; [exact Hcall | exact Hmode].
Defined.

(** C6, as the claim states it, fails: with limit 0 and one matching
    title, SearchTitles returns one title, more than the limit. *)
Lemma C6_limit_zero_returns_a_title :
  exists st' lg,
    SearchTitles likeEngine (B "Anarch") 0 (after_ingestion likeEngine)
      = (Ok [B "Anarchism"], st', lg)
    /\ ~ (Z.of_nat (length [B "Anarchism"]) <= 0).
Proof.
  eexists _, _. split; [vm_compute; reflexivity | simpl; lia].
Qed.

(** C6 (amended): the list SearchTitles returns has at most N entries when
    N is positive and at most 20 entries when N <= 0, a limit N <= 0 being
    replaced by 20 before any query is issued. *)
Theorem C6_SearchTitles_length_bounded :
  forall eng q n st titles st' lg,
    SearchTitles eng q n st = (Ok titles, st', lg) ->
    (0 < n -> Z.of_nat (length titles) <= n)
    /\ (n <= 0 -> Z.of_nat (length titles) <= 20
                  /\ SearchTitles eng q n st = SearchTitles eng q 20 st).
Proof.
  intros eng q n st titles st' lg Hs.
  pose proof (SearchTitles_length _ _ _ _ _ _ _ Hs) as Hlen.
  split; intros Hn.
  - rewrite normalize_positive in Hlen by assumption. exact Hlen.
  - rewrite normalize_nonpositive in Hlen by assumption.
    split; [exact Hlen | apply SearchTitles_normalized; assumption].
Qed.

Lemma C6_SearchTitles_length_bounded_witness :
  (0 < 1 -> Z.of_nat (length [B "AccessibleComputing"]) <= 1)
  /\ (1 <= 0 ->
      Z.of_nat (length [B "AccessibleComputing"]) <= 20
      /\ SearchTitles likeEngine (B "A") 1 (after_ingestion likeEngine)
         = SearchTitles likeEngine (B "A") 20 (after_ingestion likeEngine)).
Proof.
  apply (C6_SearchTitles_length_bounded likeEngine (B "A") 1 (after_ingestion likeEngine)
           [B "AccessibleComputing"] (after_ingestion likeEngine) []).
  vm_compute. reflexivity.
Defined.

(** C4, as the claim states it, fails: on a store with articles the empty
    query matches every title, and SearchTitles returns titles. *)
Lemma C4_empty_query_returns_titles :
  SearchTitles likeEngine [] 5 (after_ingestion likeEngine)
    = (Ok [B "AccessibleComputing"; B "Anarchism"], after_ingestion likeEngine, []).
Proof. vm_compute. reflexivity. Qed.

(** C4 (amended): the empty query is turned away by handleSearch before the
    package is called.  SearchTitles itself, given the empty query, answers
    from the LIKE query, in mode "none" and when [db.Query] returns an
    error for the full-text statement, with the first N distinct titles in
    title order, N <= 0 counting as 20; that list is empty exactly when
    articles has no row.  On an fts5 table under a build with fts5 the
    answer is the rows read from the full-text statement for the
    expression made of a star alone: none when that MATCH fails, as it
    does in the scenario of a single stored page. *)
Theorem C4_empty_query :
  (forall eng limitStr st,
     handleSearch eng [] limitStr st
       = (BadRequest (B "Missing query parameter 'q'"), st, []))
  /\ (forall eng n st,
        initialized (wiki st) = true ->
        SearchTitles.uses_fts (ftsVersion (wiki st)) = false ->
        SearchTitles eng [] n st
          = (Ok (Sql.limit_rows (SearchTitles.normalize n) (titles_in_order (database st))),
             st, []))
  /\ (forall eng n st e,
        initialized (wiki st) = true ->
        SearchTitles.uses_fts (ftsVersion (wiki st)) = true ->
        Sql.search_fts eng (database st) (SearchTitles.ftsQuery [])
          (SearchTitles.normalize n) = inl e ->
        SearchTitles eng [] n st
          = (Ok (Sql.limit_rows (SearchTitles.normalize n) (titles_in_order (database st))),
             demoted st, [LogFtsQueryFailed]))
  /\ (forall eng n st o,
        initialized (wiki st) = true ->
        SearchTitles.uses_fts (ftsVersion (wiki st)) = true ->
        Schema.table_object (B "articles_fts") (sqlite_master (database st)) = Some o ->
        obj_module o = Some Fts5 ->
        fts5_compiled eng = true ->
        SearchTitles.ftsQuery [] = B "*"
        /\ SearchTitles eng [] n st
           = (Ok match fts5_match eng (articles (database st)) (B "*") with
                 | Some ranked =>
                     Sql.limit_rows (SearchTitles.normalize n) (Sql.distinct ranked)
                 | None => []
                 end,
              st, []))
  /\ SearchTitles fts5Engine [] 5 after_mercury = (Ok [], after_mercury, [])
  /\ articles (database after_mercury)
     = [mkArticle 7 (B "Mercury (planet)") 0 (B "Mercury is a planet") []]
  /\ (forall n d,
        Sql.limit_rows (SearchTitles.normalize n) (titles_in_order d) = []
        <-> articles d = []).
Proof.
  split; [reflexivity|]. split; [| split; [| split; [| split; [| split]]]].
  - intros eng n st Hi Hm.
    rewrite (SearchTitles_like_mode _ _ _ _ Hi Hm), like_answer_empty_query. reflexivity.
  - intros eng n st e Hi Hm Hq.
    rewrite (SearchTitles_fts_failed _ _ _ _ _ Hi Hm Hq), like_answer_empty_query.
    reflexivity.
  - intros eng n st o Hi Hm Ht Ho H5. split; [reflexivity|].
    apply (SearchTitles_fts_answered _ _ _ _ _ Hi Hm).
    unfold Sql.search_fts. rewrite Ht, Ho, H5.
    change (SearchTitles.ftsQuery []) with (B "*").
    destruct (fts5_match eng _ _); reflexivity.
  - vm_compute. reflexivity.
  - vm_compute. reflexivity.
  - intros n d. rewrite limit_rows_nil by apply normalize_pos.
    apply titles_in_order_nil.
Qed.

Lemma C4_empty_query_witness :
  SearchTitles likeEngine [] 1 (after_ingestion likeEngine)
    = (Ok (Sql.limit_rows (SearchTitles.normalize 1)
             (titles_in_order (database (after_ingestion likeEngine)))),
       after_ingestion likeEngine, []).
Proof.
  apply (proj1 (proj2 C4_empty_query) likeEngine 1 (after_ingestion likeEngine)).
  - vm_compute. reflexivity.
  - vm_compute. reflexivity.
Defined.

(** In mode "fts4" over a table that fts4 backs, the statement of
    SearchTitles (ORDER BY rank) fails whatever the query, so that every
    search is answered by the LIKE query and the mode drops to "none". *)
Lemma SearchTitles_fts4_falls_back eng q n st o :
  initialized (wiki st) = true ->
  ftsVersion (wiki st) = B "fts4" ->
  Schema.table_object (B "articles_fts") (sqlite_master (database st)) = Some o ->
  obj_module o = Some Fts4 ->
  SearchTitles eng q n st
  = (Ok (like_answer (database st) q n), demoted st, [LogFtsQueryFailed]).
Proof.
  intros Hi Hv Ht Hm.
  assert (Hq : exists e,
             Sql.search_fts eng (database st) (SearchTitles.ftsQuery q)
               (SearchTitles.normalize n) = inl e).
  { unfold Sql.search_fts. rewrite Ht, Hm. destruct (fts4_compiled eng); eauto. }
  destruct Hq as [e Hq].
  apply (SearchTitles_fts_failed _ _ _ _ e Hi); [rewrite Hv; reflexivity | exact Hq].
Qed.

(** C2 (the code at the failing input): after an Open that settled on
    fts4, the FTS statement of SearchTitles is rejected for its rank
    column; the titles returned are those of the LIKE query, in title
    order, and the mode is "none" from then on. *)
Theorem C2_fts4_search_is_answered_by_LIKE :
  ftsVersion (wiki (after_ingestion fts4Engine)) = B "fts4"
  /\ Sql.search_fts fts4Engine (database (after_ingestion fts4Engine))
       (SearchTitles.ftsQuery (B "A")) 5 = inl Sql.NoSuchColumnRank
  /\ SearchTitles fts4Engine (B "A") 5 (after_ingestion fts4Engine)
     = (Ok (Sql.search_like (database (after_ingestion fts4Engine)) (B "%A%") 5),
        demoted (after_ingestion fts4Engine), [LogFtsQueryFailed])
  /\ Sql.search_like (database (after_ingestion fts4Engine)) (B "%A%") 5
     = [B "AccessibleComputing"; B "Anarchism"].
Proof. repeat split; vm_compute; reflexivity. Qed.

(** * Further properties *)

(** ** Index lines *)

Section ParseFacts.

Lemma cut_Some sep s a b :
  cut sep s = Some (a, b) <-> s = a ++ sep :: b /\ sep ∉ a.
Proof.
  revert a b. induction s as [|c s IH]; intros a b; simpl.
  - split; [discriminate|]. intros [H _]. destruct a; discriminate.
  - case_bool_decide as Hc.
    + subst c. split.
      * intros [= <- <-]. split; [reflexivity | apply not_elem_of_nil].
      * intros [Heq Hnot]. destruct a as [|x a].
        -- simpl in Heq. injection Heq as ->. reflexivity.
        -- simpl in Heq. injection Heq as -> _.
           exfalso. apply Hnot. left.
    + destruct (cut sep s) as [[a' b']|] eqn:Hcut.
      * split.
        -- intros [= <- <-]. destruct (proj1 (IH a' b') eq_refl) as [-> Hnot].
           split; [reflexivity|]. apply not_elem_of_cons. auto.
        -- intros [Heq Hnot]. destruct a as [|x a].
           ++ simpl in Heq. injection Heq as -> _. contradiction.
           ++ simpl in Heq. injection Heq as -> Hs.
              apply not_elem_of_cons in Hnot as [_ Hnot].
              assert (H : Some (a', b') = Some (a, b)) by (apply IH; auto).
              injection H as -> ->. reflexivity.
      * split; [discriminate|]. intros [Heq Hnot]. destruct a as [|x a].
        -- simpl in Heq. injection Heq as -> _. contradiction.
        -- simpl in Heq. injection Heq as -> Hs.
           apply not_elem_of_cons in Hnot as [_ Hnot].
           assert (H : None = Some (a, b)) by (apply IH; auto). discriminate.
Qed.

Lemma digits_value_bound s : forall acc v,
  0 <= acc -> digits_value acc s = Some v -> acc <= v.
Proof.
  induction s as [|c s IH]; intros acc v Hacc; simpl.
  - intros [= <-]. lia.
  - destruct (is_digit c) eqn:Hd; [| discriminate].
    unfold is_digit in Hd. apply andb_true_iff in Hd as [Hlo Hhi].
    apply N.leb_le in Hlo, Hhi. intros Hv. apply IH in Hv; lia.
Qed.

Lemma ParseInt_int64 s v :
  ParseInt s = Some v -> - 2 ^ 63 <= v < 2 ^ 63.
Proof.
  unfold ParseInt. destruct s as [|c s]; [discriminate|].
  set (body := if _ || _ then s else c :: s).
  destruct (ParseUint64 body) as [un|] eqn:Hun; [| discriminate].
  assert (0 <= un).
  { unfold ParseUint64 in Hun. destruct body; [discriminate|].
    destruct (digits_value 0 _) as [w|] eqn:Hw; [| discriminate].
    apply digits_value_bound in Hw; [| lia].
    destruct (w <? 2 ^ 64); [| discriminate]. injection Hun as <-. exact Hw. }
  destruct (bool_decide (c = "-"%char)); simpl.
  - destruct (Z.ltb_spec (2 ^ 63) un); [discriminate|]. intros [= <-]. lia.
  - destruct (Z.leb_spec (2 ^ 63) un); [discriminate|]. intros [= <-]. lia.
Qed.

Lemma parse_line_Some line e :
  LoadIndex.parse_line line = Some e
  <-> exists p0 p1 title,
        line = p0 ++ ":"%char :: p1 ++ ":"%char :: title
        /\ (":"%char ∉ p0) /\ (":"%char ∉ p1)
        /\ ParseInt p0 = Some (Seek e) /\ ParseInt p1 = Some (EntryID e).
Proof.
  unfold LoadIndex.parse_line, SplitN3. split.
  - destruct (cut ":"%char line) as [[p0 r]|] eqn:H0; [| discriminate].
    destruct (cut ":"%char r) as [[p1 title]|] eqn:H1; [| discriminate].
    apply cut_Some in H0 as [-> Hn0]. apply cut_Some in H1 as [-> Hn1].
    destruct (ParseInt p0) as [seek|] eqn:Hs; [| discriminate].
    destruct (ParseInt p1) as [id|] eqn:Hi; [| discriminate].
    intros [= <-]. exists p0, p1, title. simpl. auto 10.
  - intros (p0 & p1 & title & -> & Hn0 & Hn1 & Hs & Hi).
    rewrite (proj2 (cut_Some ":"%char _ p0 (p1 ++ ":"%char :: title))) by auto.
    rewrite (proj2 (cut_Some ":"%char _ p1 title)) by auto.
    rewrite Hs, Hi. destruct e. reflexivity.
Qed.

End ParseFacts.

(** X1: a line of the index is turned into an entry exactly when it has the
    form p0:p1:title with no colon in p0 and p1 and both parse as decimal
    int64 numbers; the title, colons included, plays no part, and both
    fields of the entry lie in the int64 range. *)
Theorem X1_parse_line_reads_the_first_two_fields :
  forall line e,
    (LoadIndex.parse_line line = Some e
     <-> exists p0 p1 title,
           line = p0 ++ ":"%char :: p1 ++ ":"%char :: title
           /\ (":"%char ∉ p0) /\ (":"%char ∉ p1)
           /\ ParseInt p0 = Some (Seek e) /\ ParseInt p1 = Some (EntryID e))
    /\ (LoadIndex.parse_line line = Some e ->
        - 2 ^ 63 <= Seek e < 2 ^ 63 /\ - 2 ^ 63 <= EntryID e < 2 ^ 63).
Proof.
  intros line e. split; [apply parse_line_Some|].
  intros H. apply parse_line_Some in H as (p0 & p1 & _ & _ & _ & _ & Hs & Hi).
  split; eapply ParseInt_int64; eassumption.
Qed.

Lemma X1_parse_line_reads_the_first_two_fields_witness :
  - 2 ^ 63 <= Seek (mkIndexEntry 11 13) < 2 ^ 63
  /\ - 2 ^ 63 <= EntryID (mkIndexEntry 11 13) < 2 ^ 63.
Proof.
  apply (proj2 (X1_parse_line_reads_the_first_two_fields
                  (B "11:13:Talk:Anarchism") (mkIndexEntry 11 13))).
  reflexivity.
Defined.

(** ** LoadIndex in full *)

Section LoadIndexRun.
Import LoadIndex.

Lemma insert_step_fields e st :
  view (insert_step e st) = insert_index_entry e (view st)
  /\ i (insert_step e st) = i st + 1
  /\ committed (insert_step e st)
     = (if (i st + 1) mod batchSize =? 0 then insert_index_entry e (view st)
        else committed st).
Proof. unfold insert_step. destruct (_ =? 0); simpl; auto. Qed.

Lemma insert_all_cons tbl e es :
  insert_all tbl (e :: es) = insert_all (insert_index_entry e tbl) es.
Proof. reflexivity. Qed.

(** The loop in closed form. *)
Lemma loop_closed_form limit lines : forall st,
  0 <= i st ->
  limit <= 0 \/ i st < limit ->
  let es := entries_of lines in
  let n := inserted_count limit (i st) (length es) in
  let r := loop limit lines st in
  view r.1 = insert_all (view st) (take n es)
  /\ i r.1 = i st + Z.of_nat n
  /\ committed r.1
     = (if 0 <? committed_count (i st) n
        then insert_all (view st) (take (Z.to_nat (committed_count (i st) n)) es)
        else committed st)
  /\ r.2 = ((0 <? limit) && (limit <=? i st + Z.of_nat n)).
Proof.
  unfold inserted_count, committed_count, batchSize.
  induction lines as [|line lines IH]; intros st Hi Hlim.
  - simpl.
    assert (Hn : (if 0 <? limit then Nat.min (Z.to_nat (limit - i st)) 0 else 0%nat)
                 = 0%nat) by (destruct (0 <? limit); lia).
    rewrite Hn. simpl Z.of_nat. rewrite Z.add_0_r.
    assert (Hk : (0 <? 10000 * (i st / 10000) - i st) = false).
    { apply Z.ltb_ge. pose proof (Z.mul_div_le (i st) 10000). lia. }
    rewrite Hk. repeat split.
    destruct (Z.ltb_spec 0 limit); [| reflexivity].
    destruct (Z.leb_spec limit (i st)); [lia | reflexivity].
  - simpl. unfold entries_of. simpl omap.
    destruct (parse_line line) as [e|] eqn:Hp; [| apply IH; assumption].
    fold (entries_of lines).
    destruct (insert_step_fields e st) as (Hv & Hi' & Hc). unfold batchSize in Hc.
    destruct ((0 <? limit) && (limit <=? i (insert_step e st))) eqn:Hstop.
    + apply andb_true_iff in Hstop as [Hpos Hle].
      apply Z.ltb_lt in Hpos. apply Z.leb_le in Hle. rewrite Hi' in Hle.
      destruct Hlim as [Hlim|Hlim]; [lia|].
      assert (Hl : limit = i st + 1) by lia.
      destruct (Z.ltb_spec 0 limit); [| lia].
      replace (Nat.min (Z.to_nat (limit - i st)) (length (e :: entries_of lines)))
        with 1%nat by (simpl; lia).
      simpl fst; simpl snd. rewrite Hv, Hi', Hc.
      change (take 1 (e :: entries_of lines)) with [e].
      split; [reflexivity|]. split; [lia|]. split.
      * destruct (Z.eqb_spec ((i st + 1) mod 10000) 0) as [Hm|Hm].
        -- assert (Hk : 10000 * ((i st + Z.of_nat 1) / 10000) - i st = 1).
           { pose proof (Z.div_mod (i st + 1) 10000). lia. }
           rewrite Hk. reflexivity.
        -- assert (Hk : (0 <? 10000 * ((i st + Z.of_nat 1) / 10000) - i st) = false).
           { apply Z.ltb_ge.
             pose proof (Z.div_mod (i st + 1) 10000).
             pose proof (Z.mod_pos_bound (i st + 1) 10000).
             replace (i st + Z.of_nat 1) with (i st + 1) by lia. lia. }
           rewrite Hk. reflexivity.
      * destruct (Z.leb_spec limit (i st + Z.of_nat 1)); [reflexivity | lia].
    + assert (Hgo : limit <= 0 \/ i (insert_step e st) < limit).
      { rewrite Hi'. apply andb_false_iff in Hstop as [Hs|Hs].
        - apply Z.ltb_ge in Hs. auto.
        - apply Z.leb_gt in Hs. rewrite Hi' in Hs. auto. }
      destruct (IH (insert_step e st) ltac:(lia) Hgo) as (IHv & IHi & IHc & IHb).
      set (n' := if 0 <? limit
                 then Nat.min (Z.to_nat (limit - i (insert_step e st)))
                        (length (entries_of lines))
                 else length (entries_of lines)) in *.
      assert (Hn : (if 0 <? limit
                    then Nat.min (Z.to_nat (limit - i st))
                           (length (e :: entries_of lines))
                    else length (e :: entries_of lines)) = S n').
      { unfold n'. rewrite Hi'. destruct (Z.ltb_spec 0 limit); simpl; lia. }
      rewrite Hn. rewrite IHv, IHi, IHb, IHc, Hv, Hi', Hc.
      replace (i st + 1 + Z.of_nat n') with (i st + Z.of_nat (S n')) by lia.
      split; [reflexivity|]. split; [reflexivity|]. split; [| reflexivity].
      set (Q := (i st + Z.of_nat (S n')) / 10000).
      assert (HQ : 10000 * Q <= i st + Z.of_nat (S n') < 10000 * Q + 10000).
      { unfold Q. pose proof (Z.div_mod (i st + Z.of_nat (S n')) 10000).
        pose proof (Z.mod_pos_bound (i st + Z.of_nat (S n')) 10000). lia. }
      destruct (Z.ltb_spec 0 (10000 * Q - (i st + 1))) as [Hk1|Hk1].
      * destruct (Z.ltb_spec 0 (10000 * Q - i st)); [| lia].
        replace (Z.to_nat (10000 * Q - i st))
          with (S (Z.to_nat (10000 * Q - (i st + 1)))) by lia.
        reflexivity.
      * destruct (Z.eqb_spec ((i st + 1) mod 10000) 0) as [Hm|Hm].
        -- assert (Hq : 10000 * Q - i st = 1).
           { pose proof (Z.div_mod (i st + 1) 10000). nia. }
           rewrite Hq. reflexivity.
        -- destruct (Z.ltb_spec 0 (10000 * Q - i st)) as [Hk|Hk]; [| reflexivity].
           exfalso. apply Hm.
           assert (Hq : i st + 1 = 10000 * Q) by lia.
           rewrite Hq, Z.mul_comm. apply Z.mod_mul. lia.
Qed.

End LoadIndexRun.

Section LoadIndexTables.
Import LoadIndex.

Lemma insert_all_prefix es : forall tbl, tbl `prefix_of` insert_all tbl es.
Proof.
  unfold insert_all. induction es as [|e es IH]; intros tbl; simpl; [reflexivity|].
  etrans; [| apply IH]. unfold insert_index_entry.
  case_bool_decide; [reflexivity | by apply prefix_app_r].
Qed.

Lemma insert_all_fresh es : forall tbl,
  NoDup es -> (forall x, x ∈ es -> x ∉ tbl) -> insert_all tbl es = tbl ++ es.
Proof.
  unfold insert_all. induction es as [|e es IH]; intros tbl Hnd Hnew; simpl.
  - rewrite app_nil_r. reflexivity.
  - apply NoDup_cons in Hnd as [He Hnd].
    unfold insert_index_entry at 2. rewrite bool_decide_eq_false_2 by (apply Hnew; left).
    rewrite IH; [rewrite <- app_assoc; reflexivity | assumption |].
    intros x Hx. rewrite elem_of_app, list_elem_of_singleton.
    intros [Hin| ->]; [apply (Hnew x); [right|]; assumption | contradiction].
Qed.

Lemma insert_all_length es : forall tbl,
  (length (insert_all tbl es) <= length tbl + length es)%nat.
Proof.
  unfold insert_all. induction es as [|e es IH]; intros tbl; simpl; [lia|].
  etrans; [apply IH|]. unfold insert_index_entry.
  case_bool_decide; [lia | rewrite length_app; simpl; lia].
Qed.

Lemma first_rows_inserted_count {A} limit (l : list A) :
  take (inserted_count limit 0 (length l)) l = first_rows limit l.
Proof.
  unfold inserted_count, first_rows. destruct (0 <? limit).
  - rewrite Z.sub_0_r. destruct (Nat.le_ge_cases (Z.to_nat limit) (length l)).
    + rewrite Nat.min_l by assumption. reflexivity.
    + rewrite Nat.min_r by assumption. rewrite !take_ge by lia. reflexivity.
  - apply firstn_all.
Qed.

(** Whatever the outcome, the table after the run is the table before it
    with the first entries of the scanned lines inserted. *)
Lemma run_table limit data tbl :
  exists k,
    (LoadIndex.run limit data tbl).1.2
    = insert_all tbl (take k (entries_of (Scanner.scanLines data).1)).
Proof.
  unfold run. destruct (Scanner.scanLines data) as [lines scanErr]. simpl.
  destruct (loop_closed_form limit lines (mkLoop tbl tbl 0 [LogReadingIndex])
              ltac:(simpl; lia) ltac:(simpl; lia)) as (Hv & _ & Hc & _).
  destruct (loop limit lines _) as [r b]. simpl in *. unfold finish.
  destruct (if b then None else scanErr); simpl.
  - rewrite Hc. destruct (0 <? _); [eauto|]. exists 0%nat. reflexivity.
  - rewrite Hv. eauto.
Qed.

(** A file of lines that fit the buffer is read to its end. *)
Lemma run_index_file limit lines tbl :
  Forall fits_buffer lines ->
  let es := first_rows limit (entries_of (map Scanner.dropCR lines)) in
  exists lg,
    LoadIndex.run limit (index_file lines) tbl = (None, insert_all tbl es, lg)
    /\ last lg = Some (LogDoneIndex (Z.of_nat (length es))).
Proof.
  intros Hfit es.
  pose proof (scanLines_index_file lines [] Hfit) as Hscan.
  rewrite app_nil_r in Hscan.
  change (Scanner.scanLines []) with (@nil gostring, @None Scanner.ScanError) in Hscan.
  cbv beta iota in Hscan. rewrite app_nil_r in Hscan.
  unfold LoadIndex.run. rewrite Hscan.
  destruct (loop_closed_form limit (map Scanner.dropCR lines)
              (LoadIndex.mkLoop tbl tbl 0 [LogReadingIndex])
              ltac:(simpl; lia) ltac:(simpl; lia)) as (Hv & Hi & _ & _).
  destruct (LoadIndex.loop limit _ _) as [r b]. simpl in Hv, Hi.
  rewrite first_rows_inserted_count in Hv. fold es in Hv.
  assert (Hlen : Z.of_nat (length es) = LoadIndex.i r).
  { rewrite Hi. unfold es. rewrite <- first_rows_inserted_count, length_take.
    unfold inserted_count. destruct (0 <? limit); lia. }
  exists (LoadIndex.logged r ++ [LogDoneIndex (LoadIndex.i r)]).
  unfold LoadIndex.finish.
  replace (if b then None else None) with (@None Scanner.ScanError)
    by (destruct b; reflexivity).
  rewrite Hv. split; [reflexivity|]. rewrite last_snoc, Hlen. reflexivity.
Qed.

End LoadIndexTables.

(** X2: when every line of the index file fits the scanner buffer,
    LoadIndex returns nil and index_entries is the old table with the
    entries of the parsable lines inserted in file order, only the first
    [limit] of them under a positive limit.  Rows are only ever appended:
    entries that are new and pairwise distinct are all appended, in order,
    and the count in the last log line is the number of lines processed,
    duplicates included. *)
Theorem X2_LoadIndex_inserts_the_parsed_lines :
  forall limit lines tbl,
    Forall fits_buffer lines ->
    let es := first_rows limit (entries_of (map Scanner.dropCR lines)) in
    exists lg,
      LoadIndex.run limit (index_file lines) tbl = (None, insert_all tbl es, lg)
      /\ last lg = Some (LogDoneIndex (Z.of_nat (length es)))
      /\ (forall x, x ∈ insert_all tbl es <-> x ∈ es \/ x ∈ tbl)
      /\ (length (insert_all tbl es) <= length tbl + length es)%nat
      /\ (NoDup es -> (forall x, x ∈ es -> x ∉ tbl) -> insert_all tbl es = tbl ++ es).
Proof.
  intros limit lines tbl Hfit es.
  destruct (run_index_file limit lines tbl Hfit) as (lg & Hrun & Hlast).
  exists lg. split; [exact Hrun|]. split; [exact Hlast|].
  split; [intros x; apply elem_of_insert_all|].
  split; [apply insert_all_length | apply insert_all_fresh].
Qed.

Lemma X2_LoadIndex_inserts_the_parsed_lines_witness :
  exists lg,
    LoadIndex.run 3
      (index_file [B "1:1:a"; B "2:2:b"; B "oops"; B "3:3:c"; B "4:4:d"]) []
    = (None, [mkIndexEntry 1 1; mkIndexEntry 2 2; mkIndexEntry 3 3], lg).
Proof.
  destruct (X2_LoadIndex_inserts_the_parsed_lines 3
              [B "1:1:a"; B "2:2:b"; B "oops"; B "3:3:c"; B "4:4:d"] [])
    as (lg & Hrun & _); [all_fit|].
  exists lg. exact Hrun.
Defined.

(** X3: whatever the file holds and however the run ends, LoadIndex keeps
    every row that was in index_entries, in place (the old table is a
    prefix of the new one), adds no duplicate pair, and adds only entries
    read from lines of the file. *)
Theorem X3_LoadIndex_only_appends :
  forall limit data tbl,
    let tbl' := (LoadIndex.run limit data tbl).1.2 in
    tbl `prefix_of` tbl'
    /\ (NoDup tbl -> NoDup tbl')
    /\ (forall x, x ∈ tbl' ->
          x ∈ tbl
          \/ exists line, line ∈ (Scanner.scanLines data).1
                          /\ LoadIndex.parse_line line = Some x).
Proof.
  intros limit data tbl tbl'. destruct (run_table limit data tbl) as [k Hk].
  fold tbl' in Hk. rewrite Hk.
  split; [apply insert_all_prefix|]. split; [apply insert_all_NoDup|].
  intros x Hx. apply elem_of_insert_all in Hx as [Hx|Hx]; [right | left; assumption].
  apply elem_of_take in Hx as (j & Hx & _).
  apply list_elem_of_lookup_2 in Hx. unfold entries_of in Hx.
  apply list_elem_of_omap in Hx as (line & Hin & Hp). eauto.
Qed.

Lemma X3_LoadIndex_only_appends_witness :
  NoDup (LoadIndex.run (-1) (B "1:1:a") [mkIndexEntry 1 1]).1.2.
Proof.
  apply (proj1 (proj2 (X3_LoadIndex_only_appends (-1) (B "1:1:a") [mkIndexEntry 1 1]))).
  apply (bool_decide_unpack _). vm_compute. exact I.
Defined.

(** X4: when an over-long line ends a load without limit, index_entries
    holds exactly the entries of the lines before it up to the last full
    batch of 10000; the entries after the last commit are given up. *)
Theorem X4_failed_load_keeps_full_batches :
  forall limit before long rest tbl,
    limit <= 0 ->
    Forall fits_buffer before ->
    Scanner.newline ∉ long ->
    (Scanner.bufferSize <= N.of_nat (length long))%N ->
    let es := entries_of (map Scanner.dropCR before) in
    let full := LoadIndex.batchSize * (Z.of_nat (length es) / LoadIndex.batchSize) in
    exists lg,
      LoadIndex.run limit (index_file before ++ long ++ rest) tbl
      = (Some (ErrScanner Scanner.ErrTooLong),
         insert_all tbl (take (Z.to_nat full) es), lg).
Proof.
  intros limit before long rest tbl Hlim Hfit Hnl Hlen es full.
  unfold LoadIndex.run. rewrite scanLines_index_file by assumption.
  unfold Scanner.scanLines at 1.
  rewrite scanFrom_too_long by (assumption || lia).
  rewrite app_nil_r.
  pose proof (loop_unlimited limit (map Scanner.dropCR before)
                (LoadIndex.mkLoop tbl tbl 0 [LogReadingIndex]) Hlim) as Hb.
  destruct (loop_closed_form limit (map Scanner.dropCR before)
              (LoadIndex.mkLoop tbl tbl 0 [LogReadingIndex])
              ltac:(simpl; lia) ltac:(simpl; lia)) as (_ & _ & Hc & _).
  destruct (LoadIndex.loop limit _ _) as [r b]. simpl in Hb, Hc. subst b.
  exists (LoadIndex.logged r). unfold LoadIndex.finish. rewrite Hc.
  fold es. unfold inserted_count, committed_count.
  destruct (Z.ltb_spec 0 limit) as [?|_]; [lia|].
  rewrite Z.add_0_l, Z.sub_0_r. fold full.
  destruct (Z.ltb_spec 0 full) as [?|Hz]; [reflexivity|].
  replace (Z.to_nat full) with 0%nat by lia. reflexivity.
Qed.

Lemma X4_failed_load_keeps_full_batches_witness :
  exists lg,
    LoadIndex.run 0
      (index_file [B "1:1:a"] ++ repeat "a"%char (N.to_nat Scanner.bufferSize) ++ B "2:2:b")
      [mkIndexEntry 7 7]
    = (Some (ErrScanner Scanner.ErrTooLong), [mkIndexEntry 7 7], lg).
Proof.
  destruct (X4_failed_load_keeps_full_batches 0 [B "1:1:a"]
              (repeat "a"%char (N.to_nat Scanner.bufferSize)) (B "2:2:b")
              [mkIndexEntry 7 7]) as (lg & Hrun).
  - lia.
  - all_fit.
  - intros Hin. apply list_elem_of_In, repeat_spec in Hin. discriminate.
  - rewrite repeat_length, N2Nat.id. lia.
  - exists lg. exact Hrun.
Defined.

(** ** ProcessArticles in full *)

Section ArticleFacts.

Lemma ids_increasing_NoDup tbl : ids_increasing tbl -> NoDup (map ID tbl).
Proof.
  induction tbl as [|a tbl IH]; simpl; [intros _; apply NoDup_nil_2|].
  intros [Ha Htbl]. apply NoDup_cons. split; [| auto].
  intros Hin. apply list_elem_of_fmap in Hin as (b & Heq & Hb).
  specialize (Ha b Hb). lia.
Qed.

End ArticleFacts.

(** X5: what ProcessArticles wrote can be read back by id.  For every row
    it handed to the store, with no later row of the same id, GetArticleByID
    returns that very row (the last write for an id wins); for an id it
    wrote no row for, GetArticleByID answers as before the run.  In a run
    without limit, the article read back for a kept page that is the last
    kept page of its id carries the page's title verbatim. *)
Theorem X5_GetArticleByID_reads_back_what_was_stored :
  forall eng eng' limit stream st st1 lg,
    ProcessArticles eng stream limit st = Returns (None, st1, lg) ->
    let rows := rows_written limit stream (index_entries (database st)) in
    (forall front row back,
       rows = front ++ row :: back ->
       (forall r, r ∈ back -> ID r <> ID row) ->
       GetArticleByID eng' (ID row) st1 = (Ok row, st1, []))
    /\ (forall id,
          (forall r, r ∈ rows -> ID r <> id) ->
          GetArticleByID eng' id st1
          = (match Sql.find_article_by_id id (articles (database st)) with
             | Some a => Ok a
             | None => Err (ErrArticleIDNotFound id)
             end, st1, []))
    /\ (limit <= 0 ->
        forall before page after,
          stream = before ++ DecodedPage page :: after ->
          ProcessArticles.kept
            (ProcessArticles.indexSetOf (index_entries (database st))) page = true ->
          (forall p, DecodedPage p ∈ after -> Page.ID p <> Page.ID page) ->
          exists a,
            GetArticleByID eng' (Page.ID page) st1 = (Ok a, st1, [])
            /\ ID a = Page.ID page /\ Title a = Page.Title page).
Proof.
  intros eng eng' limit stream st st1 lg Hrun rows.
  destruct (ProcessArticles_success _ _ _ _ _ _ Hrun) as (Hi & Harts & _ & Heof).
  fold rows in Harts.
  assert (Hback : forall front row back,
            rows = front ++ row :: back ->
            (forall r, r ∈ back -> ID r <> ID row) ->
            GetArticleByID eng' (ID row) st1 = (Ok row, st1, [])).
  { intros front row back Hrows Hb.
    rewrite (GetArticleByID_initialized _ _ _ Hi), Harts, find_id_upsert_all, Hrows.
    rewrite (find_id_rev_last (ID row) front row back eq_refl Hb). reflexivity. }
  split; [exact Hback|]. split.
  - intros id Hno.
    rewrite (GetArticleByID_initialized _ _ _ Hi), Harts, find_id_upsert_all.
    rewrite (find_id_rev_none _ _ Hno). reflexivity.
  - intros Hlim before page after Hstream Hk Hafter.
    exists (ProcessArticles.rowOf page). split; [| split; reflexivity].
    apply (Hback
             (map ProcessArticles.rowOf
                (List.filter
                   (ProcessArticles.kept
                      (ProcessArticles.indexSetOf (index_entries (database st))))
                   (pages_of before)))
             (ProcessArticles.rowOf page)
             (map ProcessArticles.rowOf
                (List.filter
                   (ProcessArticles.kept
                      (ProcessArticles.indexSetOf (index_entries (database st))))
                   (pages_of after)))).
    + unfold rows, rows_written, first_rows.
      destruct (Z.ltb_spec 0 limit); [lia|].
      assert (Hno : StickyError ∉ before).
      { intros Hin. apply (Heof Hlim). rewrite Hstream. apply elem_of_app. auto. }
      rewrite Hstream, (pages_of_app _ _ Hno).
      change (pages_of (DecodedPage page :: after)) with (page :: pages_of after).
      rewrite List.filter_app. simpl. rewrite Hk, map_app. reflexivity.
    + intros r Hr. apply list_elem_of_fmap in Hr as (p & -> & Hp).
      apply list_elem_of_In, filter_In in Hp as [Hp _].
      apply list_elem_of_In, elem_of_pages_of in Hp. simpl. apply Hafter. assumption.
Qed.

Lemma X5_GetArticleByID_reads_back_what_was_stored_witness :
  exists a,
    GetArticleByID likeEngine 12
      (mkState (mkWiki true true (B "none"))
         (mkDatabase [] [mkArticle 12 (B "Anarchism") 0 (B "new text") []]
            [mkIndexEntry 10 12]))
    = (Ok a,
       mkState (mkWiki true true (B "none"))
         (mkDatabase [] [mkArticle 12 (B "Anarchism") 0 (B "new text") []]
            [mkIndexEntry 10 12]), [])
    /\ ID a = 12 /\ Title a = B "Anarchism".
Proof.
  refine (proj2 (proj2 (X5_GetArticleByID_reads_back_what_was_stored
            likeEngine likeEngine (-1)
            [DecodedPage (Page.mk (B "Anarchism") 0 12 [] (B "old text"));
             DecodedPage (Page.mk (B "Anarchism") 0 12 [] (B "new text"))]
            (mkState (mkWiki true true (B "none"))
               (mkDatabase [] [] [mkIndexEntry 10 12]))
            _ _ _)) _
            [DecodedPage (Page.mk (B "Anarchism") 0 12 [] (B "old text"))]
            (Page.mk (B "Anarchism") 0 12 [] (B "new text")) [] _ _ _).
  - vm_compute. reflexivity.
  - lia.
  - reflexivity.
  - vm_compute. reflexivity.
  - intros p Hp. inversion Hp.
Defined.

Section RowsUntouched.

(** [Open], with any outcome, leaves the rows of both tables alone. *)
Lemma Open_keeps_rows eng st :
  articles (database (Open eng st).1.2) = articles (database st)
  /\ index_entries (database (Open eng st).1.2) = index_entries (database st).
Proof.
  unfold Open. destruct (initialized (wiki st)); [auto|].
  destruct (store_available eng); simpl; [| auto].
  destruct (createTables eng (sqlite_master (database st))) as [[v m] lg]. auto.
Qed.

Lemma Open_outcome eng st :
  exists e st0 lg0,
    Open eng st = (e, st0, lg0)
    /\ articles (database st0) = articles (database st)
    /\ index_entries (database st0) = index_entries (database st).
Proof.
  pose proof (Open_keeps_rows eng st) as H.
  destruct (Open eng st) as [[e st0] lg0]. exists e, st0, lg0. auto.
Qed.

Lemma GetArticle_keeps_rows lib eng title st :
  articles (database (GetArticle lib eng title st).1.2) = articles (database st)
  /\ index_entries (database (GetArticle lib eng title st).1.2)
     = index_entries (database st).
Proof.
  unfold GetArticle. destruct (Open_outcome eng st) as (e & st0 & lg0 & -> & Ha & Hi).
  destruct e; [auto|].
  destruct (Sql.find_article_by_title_exact _ _);
    [| destruct (Sql.find_article_by_title_ci _ _)]; auto.
Qed.

Lemma GetArticleByID_keeps_rows eng id st :
  articles (database (GetArticleByID eng id st).1.2) = articles (database st)
  /\ index_entries (database (GetArticleByID eng id st).1.2)
     = index_entries (database st).
Proof.
  unfold GetArticleByID. destruct (Open_outcome eng st) as (e & st0 & lg0 & -> & Ha & Hi).
  destruct e; [auto|]. destruct (Sql.find_article_by_id _ _); auto.
Qed.

Lemma SearchTitles_keeps_rows eng query limit st :
  articles (database (SearchTitles eng query limit st).1.2) = articles (database st)
  /\ index_entries (database (SearchTitles eng query limit st).1.2)
     = index_entries (database st).
Proof.
  unfold SearchTitles. destruct (Open_outcome eng st) as (e & st0 & lg0 & -> & Ha & Hi).
  destruct e; [auto|].
  destruct (SearchTitles.uses_fts _); [destruct (Sql.search_fts _ _ _ _)|]; auto.
Qed.

Lemma LoadIndex_keeps_articles eng data limit st :
  articles (database (LoadIndex eng data limit st).1.2) = articles (database st).
Proof.
  unfold LoadIndex. destruct (Open_outcome eng st) as (e & st0 & lg0 & -> & Ha & Hi).
  destruct e; [auto|]. destruct (LoadIndex.run _ _ _) as [[err tbl] lg]. auto.
Qed.

Lemma ProcessArticles_articles eng stream limit st :
  exists rows,
    articles (database (state_of (ProcessArticles eng stream limit st)))
    = upsert_all (articles (database st)) rows.
Proof.
  pose proof (ProcessArticles_result eng stream limit st) as Hr.
  destruct (Open_outcome eng st) as (e & st0 & lg0 & HO & Ha & Hi).
  rewrite HO in Hr. destruct e.
  - rewrite Hr. exists []. exact Ha.
  - cbv zeta in Hr.
    destruct (Schema.insert_prepares eng _); [destruct (ProcessArticles.stuck _)|].
    + destruct Hr as (j & lg & -> & _). simpl. eauto.
    + destruct Hr as [lg ->]. simpl. eauto.
    + rewrite Hr. exists []. exact Ha.
Qed.

Lemma perform_articles lib eng c st :
  exists rows,
    articles (database (perform lib eng c st).1)
    = upsert_all (articles (database st)) rows.
Proof.
  destruct c as [|data limit|stream limit|title|id|query limit]; simpl.
  - exists []. pose proof (Open_keeps_rows eng st) as [H _].
    destruct (Open eng st) as [[e st0] lg0]. exact H.
  - exists []. pose proof (LoadIndex_keeps_articles eng data limit st) as H.
    destruct (LoadIndex eng data limit st) as [[e st0] lg0]. exact H.
  - apply ProcessArticles_articles.
  - exists []. pose proof (GetArticle_keeps_rows lib eng title st) as [H _].
    destruct (GetArticle lib eng title st) as [[e st0] lg0]. exact H.
  - exists []. pose proof (GetArticleByID_keeps_rows eng id st) as [H _].
    destruct (GetArticleByID eng id st) as [[e st0] lg0]. exact H.
  - exists []. pose proof (SearchTitles_keeps_rows eng query limit st) as [H _].
    destruct (SearchTitles eng query limit st) as [[e st0] lg0]. exact H.
Qed.

End RowsUntouched.

(** X6: the ids of articles stay strictly increasing in row order, hence
    pairwise distinct, through ProcessArticles and through every sequence
    of calls of the package: no call ever leaves two rows with one id. *)
Theorem X6_article_ids_stay_unique :
  forall lib calls st,
    ids_increasing (articles (database st)) ->
    ids_increasing (articles (database (perform_all lib calls st).1))
    /\ NoDup (map ID (articles (database (perform_all lib calls st).1))).
Proof.
  intros lib calls st H.
  assert (Hinc : ids_increasing (articles (database (perform_all lib calls st).1))).
  { revert st H. induction calls as [|[eng c] calls IH]; intros st H; [exact H|].
    simpl. destruct (perform_articles lib eng c st) as [rows Hrows].
    destruct (perform lib eng c st) as [st1 lg1]. simpl in Hrows.
    assert (Hstep : ids_increasing (articles (database st1)))
      by (rewrite Hrows; apply upsert_all_increasing, H).
    destruct (comes_back eng c st); [| exact Hstep].
    specialize (IH st1 Hstep).
    destruct (perform_all lib calls st1) as [st2 lg2]. exact IH. }
  split; [exact Hinc | apply ids_increasing_NoDup, Hinc].
Qed.

Lemma X6_article_ids_stay_unique_witness :
  NoDup (map ID (articles (database
    (perform_all AsciiText.lib
       [(likeEngine, CallLoadIndex scenario_index (-1));
        (likeEngine, CallProcessArticles scenario_stream (-1));
        (likeEngine, CallProcessArticles scenario_stream 1)] freshState).1))).
Proof.
  apply (X6_article_ids_stay_unique AsciiText.lib
           [(likeEngine, CallLoadIndex scenario_index (-1));
            (likeEngine, CallProcessArticles scenario_stream (-1));
            (likeEngine, CallProcessArticles scenario_stream 1)] freshState).
  exact I.
Defined.

(** X7: over a table whose ids are in increasing order, running
    ProcessArticles a second time on the same stream with the same limit
    changes nothing: when the first call returns, the second returns the
    same error value and leaves the state as the first left it (INSERT OR
    REPLACE writes the same rows over themselves). *)
Theorem X7_ProcessArticles_idempotent :
  forall eng stream limit st err1 st1 lg1,
    ids_increasing (articles (database st)) ->
    ProcessArticles eng stream limit st = Returns (err1, st1, lg1) ->
    exists lg2, ProcessArticles eng stream limit st1 = Returns (err1, st1, lg2).
Proof.
  intros eng stream limit st err1 st1 lg1 Hinc Hrun.
  pose proof (ProcessArticles_result eng stream limit st) as Hr.
  destruct (Open eng st) as [[[e|] st0] lg0] eqn:HO.
  - rewrite Hr in Hrun. injection Hrun as <- <- <-. unfold Open in HO.
    destruct (initialized (wiki st)) eqn:Hini; [discriminate|].
    destruct (store_available eng) eqn:Hav; simpl in HO.
    + destruct (createTables _ _) as [[v m] lg']. discriminate.
    + injection HO as <- <- _. unfold ProcessArticles, Open. simpl.
      rewrite Hav. simpl. eauto.
  - destruct (Open_success _ _ _ _ HO) as (Hi & _). cbv zeta in Hr.
    destruct (Schema.insert_prepares eng (sqlite_master (database st0))) eqn:Hp.
    + destruct (ProcessArticles.stuck (ProcessArticles.run limit stream (database st0)))
        eqn:Hs.
      * destruct Hr as (j & lg & Hr & _). rewrite Hr in Hrun. discriminate.
      * destruct Hr as [lg Hr]. rewrite Hr in Hrun. injection Hrun as <- <- <-.
        set (st1 := mkState (wiki st0) _).
        pose proof (ProcessArticles_result eng stream limit st1) as Hr2.
        rewrite (Open_initialized eng st1 Hi) in Hr2. cbv zeta in Hr2.
        change (sqlite_master (database st1)) with (sqlite_master (database st0)) in Hr2.
        rewrite Hp in Hr2.
        assert (Hs2 : ProcessArticles.stuck (ProcessArticles.run limit stream (database st1))
                      = false).
        { rewrite <- Hs. apply run_stuck_same. unfold st1. simpl.
          destruct (Open_success _ _ _ _ HO) as (_ & _ & _ & Hidx). symmetry. exact Hidx. }
        rewrite Hs2 in Hr2. destruct Hr2 as [lg2 Hr2]. exists lg2. rewrite Hr2.
        unfold st1. simpl. rewrite upsert_all_twice by assumption. reflexivity.
    + rewrite Hr in Hrun. injection Hrun as <- <- <-.
      pose proof (ProcessArticles_result eng stream limit st0) as Hr2.
      rewrite (Open_initialized eng st0 Hi) in Hr2. cbv zeta in Hr2. rewrite Hp in Hr2.
      eauto.
Qed.

Lemma X7_ProcessArticles_idempotent_witness :
  exists lg2,
    ProcessArticles likeEngine scenario_stream (-1) (after_ingestion likeEngine)
    = Returns (None, after_ingestion likeEngine, lg2).
Proof.
  refine (X7_ProcessArticles_idempotent likeEngine scenario_stream (-1)
            (LoadIndex likeEngine scenario_index (-1) freshState).1.2
            None (after_ingestion likeEngine) _ I _).
  vm_compute. reflexivity.
Defined.

Section DecodeErrors.
Import ProcessArticles.





Lemma pages_of_skip_call_errors stream :
  pages_of (skip_call_errors stream) = pages_of stream.
Proof.
  induction stream as [|[| |p] stream IH]; simpl; [reflexivity | exact IH | reflexivity |].
  f_equal. exact IH.
Qed.

End DecodeErrors.



(** X9: ProcessArticles never deletes.  After a successful run
    index_entries is as before, every id that had a row still has one, a
    row whose id was not written is still there unchanged, and every row
    of articles is an old row or a row the run wrote. *)
Theorem X9_ProcessArticles_never_deletes :
  forall eng stream limit st st1 lg,
    ProcessArticles eng stream limit st = Returns (None, st1, lg) ->
    let rows := rows_written limit stream (index_entries (database st)) in
    index_entries (database st1) = index_entries (database st)
    /\ (forall a, a ∈ articles (database st) ->
          (exists a', a' ∈ articles (database st1) /\ ID a' = ID a)
          /\ ((forall r, r ∈ rows -> ID r <> ID a) -> a ∈ articles (database st1)))
    /\ (forall a, a ∈ articles (database st1) ->
          a ∈ rows \/ a ∈ articles (database st)).
Proof.
  intros eng stream limit st st1 lg Hrun rows.
  destruct (ProcessArticles_success _ _ _ _ _ _ Hrun) as (_ & Harts & Hidx & _).
  fold rows in Harts. rewrite Harts.
  split; [exact Hidx|]. split.
  - intros a Ha. split.
    + apply upsert_all_keeps_ids. assumption.
    + intros Hno. apply upsert_all_keeps_other; assumption.
  - intros a Ha. apply elem_of_upsert_all. assumption.
Qed.

Lemma X9_ProcessArticles_never_deletes_witness :
  index_entries (database (after_ingestion likeEngine))
  = index_entries (database (LoadIndex likeEngine scenario_index (-1) freshState).1.2).
Proof.
  refine (proj1 (X9_ProcessArticles_never_deletes likeEngine scenario_stream (-1)
                   (LoadIndex likeEngine scenario_index (-1) freshState).1.2
                   (after_ingestion likeEngine) _ _)).
  vm_compute. reflexivity.
Defined.

(** ** createTables and Open in full *)

Section SchemaFacts.
Import Schema.

Lemma is_named_spec t n o :
  is_named t n o = true <-> obj_type o = t /\ obj_name o = n.
Proof.
  unfold is_named, eqb. rewrite andb_true_iff, !bool_decide_eq_true. tauto.
Qed.

Lemma has_object_create t n o m :
  has_object t n (create_if_not_exists o m) = has_object t n m || is_named t n o.
Proof.
  unfold create_if_not_exists.
  destruct (has_object (obj_type o) (obj_name o) m) eqn:Hin.
  - destruct (is_named t n o) eqn:Hn; [| rewrite orb_false_r; reflexivity].
    apply is_named_spec in Hn as [<- <-]. rewrite Hin. reflexivity.
  - unfold has_object. rewrite existsb_app. simpl. rewrite orb_false_r. reflexivity.
Qed.

Lemma table_object_None n m :
  table_object n m = None <-> has_object TTable n m = false.
Proof.
  unfold table_object, has_object. induction m as [|x m IH]; simpl; [tauto|].
  destruct (bool_decide (obj_type x = TTable) && eqb (obj_name x) n); simpl;
    [split; discriminate | exact IH].
Qed.

Lemma table_object_create n o m :
  table_object n (create_if_not_exists o m)
  = match table_object n m with
    | Some x => Some x
    | None => if is_named TTable n o then Some o else None
    end.
Proof.
  unfold create_if_not_exists.
  destruct (has_object (obj_type o) (obj_name o) m) eqn:Hin.
  - destruct (table_object n m) eqn:Ht; [reflexivity|].
    destruct (is_named TTable n o) eqn:Hn; [| reflexivity].
    apply is_named_spec in Hn as [Hty Hnm]. rewrite Hty, Hnm in Hin.
    apply table_object_None in Ht. congruence.
  - unfold table_object. rewrite find_app. reflexivity.
Qed.

Lemma create_present o m : in_schema o m = true -> create_if_not_exists o m = m.
Proof. unfold in_schema, create_if_not_exists. intros ->. reflexivity. Qed.

Lemma in_schema_create o o' m :
  in_schema o (create_if_not_exists o' m)
  = in_schema o m || is_named (obj_type o) (obj_name o) o'.
Proof. apply has_object_create. Qed.

Lemma elem_of_create_mono x o m : x ∈ m -> x ∈ create_if_not_exists o m.
Proof.
  unfold create_if_not_exists. destruct (has_object _ _ m); [auto|].
  intros H. apply elem_of_app. auto.
Qed.

Lemma is_named_self o : is_named (obj_type o) (obj_name o) o = true.
Proof. apply is_named_spec. auto. Qed.

End SchemaFacts.

(** Rewriting with the two lemmas on [create_if_not_exists] through a
    schema built by [createTables]. *)
Ltac schema_reduce :=
  unfold Schema.create_all; cbn [fold_left Schema.article_indexes Schema.fts_triggers];
  repeat (rewrite table_object_create || rewrite has_object_create
          || rewrite in_schema_create);
  repeat match goal with
         | |- context [is_named ?t ?n ?o] =>
             let b := eval vm_compute in (is_named t n o) in
             change (is_named t n o) with b
         end;
  rewrite ?orb_false_r, ?orb_true_r.

Ltac schema_mono :=
  unfold Schema.create_all; cbn [fold_left Schema.article_indexes Schema.fts_triggers];
  repeat apply elem_of_create_mono.

Section CreateTablesFacts.

(** [createTables] on a database that has no articles_fts table. *)
Lemma createTables_fresh eng m :
  Schema.table_object (B "articles_fts") m = None ->
  exists m' lg,
    createTables eng m = (ladder eng, m', lg)
    /\ Schema.table_object (B "articles_fts") m' = ladder_table eng
    /\ Forall (fun o => in_schema o m' = true) base_objects
    /\ (forall name,
          name ∈ [B "articles_ai"; B "articles_ad"; B "articles_au"] ->
          Schema.has_object TTrigger name m'
          = Schema.has_object TTrigger name m
            || fts5_compiled eng || fts4_compiled eng)
    /\ (forall o, o ∈ m -> o ∈ m').
Proof.
  intros Hnone. unfold createTables.
  set (m2 := Schema.create_all Schema.article_indexes
               (Schema.create_if_not_exists Schema.articles_table m)).
  assert (H2 : Schema.table_object (B "articles_fts") m2 = None).
  { unfold m2. schema_reduce. rewrite Hnone. reflexivity. }
  rewrite H2.
  assert (H2' : Schema.has_object TTable (B "articles_fts") m2 = false)
    by (apply table_object_None; exact H2).
  rewrite H2'. rewrite orb_false_r.
  unfold ladder, ladder_table.
  destruct (fts5_compiled eng); [| destruct (fts4_compiled eng)];
    (eexists _, _; split; [reflexivity|]); simpl orb.
  all: split; [schema_reduce; rewrite H2; reflexivity|].
  all: split;
    [ unfold base_objects; cbn [app Schema.article_indexes];
      repeat (apply Forall_cons_2; [unfold in_schema; cbn [obj_type obj_name
                Schema.articles_table Schema.index_entries_table
                Schema.index_entries_index]; unfold m2; schema_reduce; reflexivity|]);
      apply Forall_nil_2 |].
  all: split; [| intros o Ho; schema_mono; unfold m2; schema_mono; exact Ho].
  all: intros name Hname;
    repeat (apply elem_of_cons in Hname as [->|Hname];
            [unfold m2; schema_reduce; reflexivity|]);
    inversion Hname.
Qed.

End CreateTablesFacts.

Section CreateTablesExisting.

Lemma with_base_present m :
  Forall (fun o => in_schema o m = true) base_objects -> with_base m = m.
Proof.
  unfold base_objects, with_base, Schema.create_all.
  cbn [app Schema.article_indexes fold_left]. intros H.
  repeat (apply Forall_cons in H as [?H H]).
  repeat (rewrite (create_present _ m) by assumption). reflexivity.
Qed.

(** [createTables] on a database that has an articles_fts table. *)
Lemma createTables_existing eng m o c sql :
  Schema.table_object (B "articles_fts") m = Some o ->
  obj_sql o = c :: sql ->
  createTables eng m
  = (detect (c :: sql), with_base m,
     [LogDetectedExisting (detect (c :: sql)); mode_line (detect (c :: sql))]).
Proof.
  intros Ht Hsql. unfold createTables.
  assert (H2 : Schema.table_object (B "articles_fts")
                 (Schema.create_all Schema.article_indexes
                    (Schema.create_if_not_exists Schema.articles_table m)) = Some o).
  { schema_reduce. rewrite Ht. reflexivity. }
  rewrite H2, Hsql. fold (detect (c :: sql)). unfold mode_line, with_base.
  destruct (eqb (detect (c :: sql)) (B "none")); reflexivity.
Qed.

Lemma createTables_fresh_none eng m :
  Schema.table_object (B "articles_fts") m = None ->
  fts5_compiled eng = false -> fts4_compiled eng = false ->
  createTables eng m
  = (B "none", with_base m,
     [LogFts5Unavailable; LogFts4Unavailable; LogFtsNotAvailable]).
Proof.
  intros Hnone H5 H4. unfold createTables.
  assert (H2 : Schema.table_object (B "articles_fts")
                 (Schema.create_all Schema.article_indexes
                    (Schema.create_if_not_exists Schema.articles_table m)) = None).
  { schema_reduce. rewrite Hnone. reflexivity. }
  rewrite H2, (proj1 (table_object_None _ _) H2), H5, H4. reflexivity.
Qed.

Lemma with_base_table_object m :
  Schema.table_object (B "articles_fts") (with_base m)
  = Schema.table_object (B "articles_fts") m.
Proof.
  unfold with_base. schema_reduce.
  destruct (Schema.table_object (B "articles_fts") m); reflexivity.
Qed.

Lemma with_base_triggers name m :
  Schema.has_object TTrigger name (with_base m) = Schema.has_object TTrigger name m.
Proof.
  unfold with_base, Schema.create_all. cbn [fold_left Schema.article_indexes].
  rewrite !has_object_create. unfold is_named.
  cbn [obj_type Schema.articles_table Schema.index_entries_table
       Schema.index_entries_index].
  rewrite !bool_decide_eq_false_2 by discriminate. simpl. rewrite !orb_false_r.
  reflexivity.
Qed.

End CreateTablesExisting.

(** X10: on a database without an articles_fts table, createTables tries
    fts5, then fts4, then gives up: the mode is fts5 when the module
    exists, else fts4 when that module exists, else none.  The table it
    leaves in the schema is the one of that mode (none for mode none), the
    three triggers exist afterwards exactly when they existed before or a
    full-text table was created, the plain tables and indexes exist in
    every case, and no object of the schema is dropped. *)
Theorem X10_createTables_capability_ladder :
  forall eng m,
    Schema.table_object (B "articles_fts") m = None ->
    exists m' lg,
      createTables eng m = (ladder eng, m', lg)
      /\ Schema.table_object (B "articles_fts") m' = ladder_table eng
      /\ Forall (fun o => in_schema o m' = true) base_objects
      /\ (forall name,
            name ∈ [B "articles_ai"; B "articles_ad"; B "articles_au"] ->
            Schema.has_object TTrigger name m'
            = Schema.has_object TTrigger name m
              || fts5_compiled eng || fts4_compiled eng)
      /\ (forall o, o ∈ m -> o ∈ m').
Proof. exact createTables_fresh. Qed.

Lemma X10_createTables_capability_ladder_witness :
  exists m' lg,
    createTables fts4Engine [] = (B "fts4", m', lg)
    /\ Schema.table_object (B "articles_fts") m' = Some Schema.fts4_table.
Proof.
  destruct (X10_createTables_capability_ladder fts4Engine [] eq_refl)
    as (m' & lg & Hc & Ht & _).
  exists m', lg. split; [exact Hc | exact Ht].
Defined.

(** X11: a database keeps the mode it was created with.  When createTables
    has created a full-text table, every later createTables on the
    resulting schema, under any engine, detects that same mode from the
    table's DDL, leaves the schema exactly as it is and logs the detection;
    when it ended in mode none, a later createTables under the same engine
    ends in none again with the schema unchanged. *)
Theorem X11_reopening_keeps_the_mode :
  forall eng m,
    Schema.table_object (B "articles_fts") m = None ->
    let '(v, m', lg) := createTables eng m in
    (v <> B "none" ->
     forall eng',
       createTables eng' m' = (v, m', [LogDetectedExisting v; LogUsingFts v]))
    /\ (v = B "none" -> createTables eng m' = (v, m', lg)).
Proof.
  intros eng m Hnone.
  destruct (createTables_fresh eng m Hnone) as (m' & lg & Hc & Ht & Hbase & _ & _).
  rewrite Hc. unfold ladder, ladder_table in *.
  destruct (fts5_compiled eng) eqn:H5; [| destruct (fts4_compiled eng) eqn:H4].
  - split; [| discriminate]. intros _ eng'.
    rewrite (createTables_existing eng' m' _ _ _ Ht eq_refl), (with_base_present _ Hbase).
    reflexivity.
  - split; [| discriminate]. intros _ eng'.
    rewrite (createTables_existing eng' m' _ _ _ Ht eq_refl), (with_base_present _ Hbase).
    reflexivity.
  - split; [intros H; destruct (H eq_refl)|]. intros _.
    rewrite (createTables_fresh_none eng m Hnone H5 H4) in Hc.
    injection Hc as <- <-.
    rewrite (createTables_fresh_none eng _ Ht H5 H4), (with_base_present _ Hbase).
    reflexivity.
Qed.

Lemma X11_reopening_keeps_the_mode_witness :
  createTables fullEngine (createTables fts4Engine []).1.2
  = (B "fts4", (createTables fts4Engine []).1.2,
     [LogDetectedExisting (B "fts4"); LogUsingFts (B "fts4")]).
Proof.
  pose proof (X11_reopening_keeps_the_mode fts4Engine [] eq_refl) as H.
  assert (Hc : createTables fts4Engine []
               = (B "fts4", (createTables fts4Engine []).1.2,
                  (createTables fts4Engine []).2)) by (vm_compute; reflexivity).
  rewrite Hc in H. cbv beta iota in H. destruct H as [H _]. apply H. discriminate.
Defined.

(** X12: an articles_fts table that exists decides the mode by its DDL
    alone (fts5 if the text contains "fts5" in any letter case, else fts4
    if it contains "fts4", else none), whatever modules the engine has;
    createTables then creates no trigger and no full-text table, only the
    plain tables and indexes that are missing. *)
Theorem X12_existing_table_decides_the_mode :
  forall eng m o c sql,
    Schema.table_object (B "articles_fts") m = Some o ->
    obj_sql o = c :: sql ->
    createTables eng m
    = (detect (c :: sql), with_base m,
       [LogDetectedExisting (detect (c :: sql)); mode_line (detect (c :: sql))])
    /\ Schema.table_object (B "articles_fts") (with_base m) = Some o
    /\ (forall name,
          Schema.has_object TTrigger name (with_base m)
          = Schema.has_object TTrigger name m).
Proof.
  intros eng m o c sql Ht Hsql.
  split; [apply (createTables_existing eng m o c sql Ht Hsql)|].
  split; [rewrite with_base_table_object; exact Ht|].
  intros name. apply with_base_triggers.
Qed.

Lemma X12_existing_table_decides_the_mode_witness :
  createTables likeEngine [Schema.fts5_table]
  = (detect (obj_sql Schema.fts5_table), with_base [Schema.fts5_table],
     [LogDetectedExisting (detect (obj_sql Schema.fts5_table));
      mode_line (detect (obj_sql Schema.fts5_table))])
  /\ detect (obj_sql Schema.fts5_table) = B "fts5".
Proof.
  split; [| vm_compute; reflexivity].
  exact (proj1 (X12_existing_table_decides_the_mode likeEngine [Schema.fts5_table]
                  Schema.fts5_table "C"%char
                  (B "REATE VIRTUAL TABLE articles_fts USING fts5(title, content, content_rowid=id, content='articles')")
                  eq_refl eq_refl)).
Defined.

(** ** The queries *)

Section SqlFacts.

Lemma elem_of_distinct_from seen l x :
  x ∈ Sql.distinct_from seen l <-> x ∈ l /\ x ∉ seen.
Proof.
  revert seen. induction l as [|y l IH]; intros seen; simpl.
  - rewrite elem_of_nil. tauto.
  - destruct (bool_decide_reflect (y ∈ seen)) as [Hy|Hy].
    + rewrite IH, elem_of_cons. split; [tauto|].
      intros [[->|Hx] Hn]; [contradiction|tauto].
    + rewrite !elem_of_cons, IH, elem_of_cons. split.
      * intros [->|[Hx Hn]]; [tauto|]. split; [tauto|]. intros Hs. apply Hn. tauto.
      * intros [[->|Hx] Hn]; [tauto|].
        destruct (decide (x = y)) as [->|Hne]; [tauto|]. right. split; [assumption|].
        intros [?|?]; contradiction.
Qed.

Lemma NoDup_distinct_from seen l : NoDup (Sql.distinct_from seen l).
Proof.
  revert seen. induction l as [|y l IH]; intros seen; simpl; [constructor|].
  destruct (bool_decide (y ∈ seen)); [apply IH|].
  constructor; [| apply IH]. rewrite elem_of_distinct_from, elem_of_cons. tauto.
Qed.

Lemma sublist_distinct_from seen l : Sql.distinct_from seen l `sublist_of` l.
Proof.
  revert seen. induction l as [|y l IH]; intros seen; simpl; [constructor|].
  destruct (bool_decide (y ∈ seen)); [apply sublist_cons, IH | apply sublist_skip, IH].
Qed.

Lemma elem_of_distinct l x : x ∈ Sql.distinct l <-> x ∈ l.
Proof.
  unfold Sql.distinct. rewrite elem_of_distinct_from, elem_of_nil. tauto.
Qed.

Lemma insert_sorted_perm x l : Sql.insert_sorted x l ≡ₚ x :: l.
Proof.
  induction l as [|y l IH]; simpl; [reflexivity|].
  destruct (leb x y); [reflexivity|]. rewrite IH. apply Permutation_swap.
Qed.

Lemma order_by_title_perm l : Sql.order_by_title l ≡ₚ l.
Proof.
  unfold Sql.order_by_title. induction l as [|y l IH]; simpl; [reflexivity|].
  rewrite insert_sorted_perm, IH. reflexivity.
Qed.

Lemma leb_total s t : leb s t = false -> leb t s = true.
Proof.
  revert t. induction s as [|c s IH]; intros [|d t]; simpl; try discriminate; auto.
  destruct (N.ltb_spec (byte_val c) (byte_val d)); [discriminate|].
  destruct (N.ltb_spec (byte_val d) (byte_val c)); [reflexivity|]. apply IH.
Qed.

Lemma leb_trans s t u : leb s t = true -> leb t u = true -> leb s u = true.
Proof.
  revert t u. induction s as [|c s IH]; intros [|d t] [|e u]; simpl;
    try discriminate; auto.
  destruct (N.ltb_spec (byte_val c) (byte_val d)),
           (N.ltb_spec (byte_val d) (byte_val c)),
           (N.ltb_spec (byte_val d) (byte_val e)),
           (N.ltb_spec (byte_val e) (byte_val d)),
           (N.ltb_spec (byte_val c) (byte_val e)),
           (N.ltb_spec (byte_val e) (byte_val c));
    try discriminate; try reflexivity; try lia.
  apply IH.
Qed.

Lemma insert_sorted_order x l :
  in_title_order l -> in_title_order (Sql.insert_sorted x l).
Proof.
  induction l as [|y l IH]; simpl.
  - intros _. split; [| exact I]. intros z Hz. apply elem_of_nil in Hz. destruct Hz.
  - intros [Hy Hl]. destruct (leb x y) eqn:Hxy.
    + simpl. split; [| split; assumption].
      intros z Hz. apply elem_of_cons in Hz as [->|Hz]; [assumption|].
      apply (leb_trans _ y); auto.
    + simpl. split; [| apply IH, Hl].
      intros z Hz. rewrite insert_sorted_perm in Hz.
      apply elem_of_cons in Hz as [->|Hz]; [apply leb_total, Hxy | apply Hy, Hz].
Qed.

Lemma order_by_title_order l : in_title_order (Sql.order_by_title l).
Proof.
  unfold Sql.order_by_title. induction l as [|y l IH]; simpl; [exact I|].
  apply insert_sorted_order, IH.
Qed.

Lemma in_title_order_take n l : in_title_order l -> in_title_order (take n l).
Proof.
  revert n. induction l as [|y l IH]; intros [|n]; simpl; auto.
  intros [Hy Hl]. split; [| apply IH, Hl].
  intros z Hz. apply Hy. apply (elem_of_sublist _ _ _ Hz), sublist_take.
Qed.

Lemma sublist_limit_rows {A} n (l : list A) : Sql.limit_rows n l `sublist_of` l.
Proof. unfold Sql.limit_rows. destruct (n <? 0); [reflexivity | apply sublist_take]. Qed.

Lemma limit_rows_all {A} n (l : list A) :
  Z.of_nat (length (Sql.limit_rows n l)) < n -> Sql.limit_rows n l = l.
Proof.
  unfold Sql.limit_rows. destruct (Z.ltb_spec n 0); [reflexivity|].
  rewrite length_take. intros Hlen. apply take_ge. lia.
Qed.

Lemma in_title_order_limit_rows n l :
  in_title_order l -> in_title_order (Sql.limit_rows n l).
Proof.
  unfold Sql.limit_rows. destruct (n <? 0); [auto | apply in_title_order_take].
Qed.

End SqlFacts.

Section LikeFacts.

Lemma like_star_intro pat s :
  Sql.like_characters pat s = true ->
  Sql.like_characters (Sql.percent :: pat) s = true.
Proof. intros H. destruct s; simpl; rewrite H; reflexivity. Qed.

Lemma like_star_cons pat c s :
  Sql.like_characters (Sql.percent :: pat) s = true ->
  Sql.like_characters (Sql.percent :: pat) (c :: s) = true.
Proof. intros H. simpl. apply orb_true_iff. right. exact H. Qed.

Lemma like_star_app pat pre s :
  Sql.like_characters (Sql.percent :: pat) s = true ->
  Sql.like_characters (Sql.percent :: pat) (pre ++ s) = true.
Proof.
  intros H. induction pre as [|c pre IH]; [exact H|].
  rewrite <- app_comm_cons. apply like_star_cons, IH.
Qed.

(** A run of pattern characters matches itself, and every run that
    differs from it in the case of letters A-Z only: [%] and [_] in it
    match themselves too. *)
Lemma like_literal cq : forall cm pat rest,
  Forall2 (fun c d => Sql.same_character c d = true) cq cm ->
  Sql.like_characters pat rest = true ->
  Sql.like_characters (cq ++ pat) (cm ++ rest) = true.
Proof.
  induction cq as [|c cq IH]; intros cm pat rest Hm Hr.
  - apply Forall2_nil_inv_l in Hm. subst cm. exact Hr.
  - apply Forall2_cons_inv_l in Hm as (d & cm' & Hd & Hm & ->).
    rewrite <- !app_comm_cons.
    destruct (N.eqb_spec c Sql.percent) as [->|Hp].
    { apply like_star_cons, like_star_intro, IH; assumption. }
    simpl. rewrite (proj2 (N.eqb_neq _ _) Hp). rewrite Hd. simpl.
    apply IH; assumption.
Qed.

Lemma byte_val_inj b b' : byte_val b = byte_val b' -> b = b'.
Proof.
  unfold byte_val. intros H.
  rewrite <- (ascii_N_embedding b), <- (ascii_N_embedding b'), H. reflexivity.
Qed.

Lemma byte_val_bound b : (byte_val b < 256)%N.
Proof. apply N_ascii_bounded. Qed.

(** Two bytes that [LOWER] makes equal are equal or the two cases of
    one letter. *)
Lemma lower_byte_eq b b' :
  lower_byte b = lower_byte b' ->
  b = b'
  \/ ((65 <= byte_val b < 128)%N /\ (65 <= byte_val b' < 128)%N
      /\ Sql.fold_ascii (byte_val b) = Sql.fold_ascii (byte_val b')).
Proof.
  unfold lower_byte, is_upper, Sql.fold_ascii. intros H.
  pose proof (byte_val_bound b) as Hb. pose proof (byte_val_bound b') as Hb'.
  destruct (N.leb_spec 65 (byte_val b)), (N.leb_spec (byte_val b) 90),
           (N.leb_spec 65 (byte_val b')), (N.leb_spec (byte_val b') 90);
    simpl in H |- *;
    try (left; exact H);
    try (apply (f_equal byte_val) in H; unfold byte_val in H at 1;
         rewrite ?N_ascii_embedding in H by lia;
         unfold byte_val in H; rewrite ?N_ascii_embedding in H by lia;
         fold (byte_val b) in H; fold (byte_val b') in H;
         first [ left; apply byte_val_inj; lia | right; lia ]).
Qed.

Lemma byte_val_NUL b : byte_val b = 0%N -> b = NUL.
Proof. intros H. apply byte_val_inj. rewrite H. reflexivity. Qed.

Lemma starts_character_spec b rest :
  Utf8.starts_character (b :: rest) = negb (Sql.is_continuation (byte_val b)).
Proof.
  unfold Utf8.starts_character, Utf8.is_continuation, Utf8.in_range, Sql.is_continuation.
  f_equal. f_equal.
  destruct (N.leb_spec (byte_val b) 191), (N.ltb_spec (byte_val b) 192); lia || reflexivity.
Qed.

(** Where the text that follows starts a character, the characters of
    the two parts are read apart. *)
Lemma characters_from_app s t : forall pending,
  NUL ∉ s -> Utf8.starts_character t = true ->
  Sql.characters_from pending (s ++ t)
  = Sql.characters_from pending s ++ Sql.characters t.
Proof.
  induction s as [|b s IH]; intros pending Hnul Ht.
  - simpl. destruct t as [|b t]; [destruct pending; reflexivity|].
    rewrite starts_character_spec in Ht. apply negb_true_iff in Ht.
    unfold Sql.characters. simpl. rewrite Ht. destruct pending; reflexivity.
  - apply not_elem_of_cons in Hnul as [Hb Hnul].
    assert (Hz : (byte_val b =? 0)%N = false).
    { apply N.eqb_neq. intros H. apply Hb. symmetry. apply byte_val_NUL, H. }
    simpl. rewrite Hz.
    destruct pending as [c|]; [destruct (Sql.is_continuation (byte_val b))|];
      try destruct (192 <=? byte_val b)%N; simpl; rewrite ?IH by assumption;
      reflexivity.
Qed.

Lemma characters_app s t :
  NUL ∉ s -> Utf8.starts_character t = true ->
  Sql.characters (s ++ t) = Sql.characters s ++ Sql.characters t.
Proof. apply characters_from_app. Qed.

Lemma same_character_refl c : Sql.same_character c c = true.
Proof. unfold Sql.same_character. rewrite N.eqb_refl. reflexivity. Qed.

(** Texts that [LOWER] makes equal are read as characters that match
    one by one. *)
Lemma characters_from_lower q : forall mid pending,
  sql_lower mid = sql_lower q ->
  Forall2 (fun c d => Sql.same_character c d = true)
    (Sql.characters_from pending q) (Sql.characters_from pending mid).
Proof.
  induction q as [|b q IH]; intros [|b' mid] pending Hm; try discriminate Hm.
  - simpl. destruct pending; repeat constructor. apply same_character_refl.
  - injection Hm as Hb Hm. symmetry in Hb.
    destruct (lower_byte_eq b b' Hb) as [<-|(Hr & Hr' & Hf)].
    + simpl.
      destruct pending as [c|]; [destruct (Sql.is_continuation (byte_val b))|];
        try destruct (byte_val b =? 0)%N; try destruct (192 <=? byte_val b)%N;
        repeat (constructor; [apply same_character_refl|]);
        try (constructor; fail); apply IH; assumption.
    + assert (Hsame : Sql.same_character (byte_val b) (byte_val b') = true).
      { unfold Sql.same_character. rewrite Hf, N.eqb_refl.
        rewrite (proj2 (N.ltb_lt _ _) (proj2 Hr)), (proj2 (N.ltb_lt _ _) (proj2 Hr')).
        apply orb_true_r. }
      assert (Hc : Sql.is_continuation (byte_val b) = false
                   /\ Sql.is_continuation (byte_val b') = false).
      { unfold Sql.is_continuation. split; apply andb_false_iff; left;
          apply N.leb_gt; lia. }
      destruct Hc as [Hc Hc'].
      assert (Hz : (byte_val b =? 0)%N = false /\ (byte_val b' =? 0)%N = false)
        by (split; apply N.eqb_neq; lia).
      destruct Hz as [Hz Hz'].
      assert (Hl : (192 <=? byte_val b)%N = false /\ (192 <=? byte_val b')%N = false)
        by (split; apply N.leb_gt; lia).
      destruct Hl as [Hl Hl'].
      simpl. rewrite Hc, Hc', Hz, Hz', Hl, Hl'.
      destruct pending as [c|];
        repeat (constructor; [first [apply same_character_refl | exact Hsame]|]);
        apply IH; assumption.
Qed.

Lemma lower_no_NUL q mid :
  sql_lower mid = sql_lower q -> NUL ∉ mid -> NUL ∉ q.
Proof.
  revert mid. induction q as [|b q IH]; intros [|b' mid] Hm Hn; try discriminate Hm.
  - apply not_elem_of_nil.
  - injection Hm as Hb Hm. apply not_elem_of_cons in Hn as [Hb' Hn].
    apply not_elem_of_cons. split; [| apply (IH mid); assumption].
    symmetry in Hb. destruct (lower_byte_eq b b' Hb) as [->|(Hr & _)]; [exact Hb'|].
    intros Heq. subst b. vm_compute in Hr. destruct Hr as [Hr _]. apply Hr. reflexivity.
Qed.

Lemma like_contains q title :
  NUL ∉ title -> holds_characters title q ->
  Sql.like (SearchTitles.likePattern q) title = true.
Proof.
  intros Hnul (pre & mid & post & -> & Hm & Hsm & Hsp).
  apply not_elem_of_app in Hnul as [Hnpre Hnul].
  apply not_elem_of_app in Hnul as [Hnmid _].
  pose proof (lower_no_NUL q mid Hm Hnmid) as Hnq.
  unfold Sql.like.
  change (SearchTitles.likePattern q) with ("%"%char :: (q ++ B "%")).
  change (Sql.characters ("%"%char :: (q ++ B "%")))
    with (Sql.percent :: Sql.characters (q ++ B "%")).
  rewrite (characters_app q (B "%") Hnq eq_refl).
  assert (Hs : Utf8.starts_character (mid ++ post) = true)
    by (destruct mid; [exact Hsp | exact Hsm]).
  rewrite (characters_app pre _ Hnpre Hs), (characters_app mid post Hnmid Hsp).
  apply like_star_app, like_star_intro, like_literal.
  - apply characters_from_lower, Hm.
  - apply like_characters_percent.
Qed.

End LikeFacts.

Section SearchTitlesAnswers.

Lemma search_like_articles d d' pattern n :
  articles d = articles d' -> Sql.search_like d pattern n = Sql.search_like d' pattern n.
Proof. intros H. unfold Sql.search_like. rewrite H. reflexivity. Qed.

(** Where the answer came from can be read off the mode the call leaves
    behind. *)
Lemma SearchTitles_like_answered eng q n st titles st1 lg :
  SearchTitles eng q n st = (Ok titles, st1, lg) ->
  SearchTitles.uses_fts (ftsVersion (wiki st1)) = false ->
  titles = like_answer (database st) q n.
Proof.
  unfold SearchTitles, like_answer.
  destruct (Open_outcome eng st) as (e & st0 & lg0 & -> & Ha & _).
  destruct e; [discriminate|].
  destruct (SearchTitles.uses_fts (ftsVersion (wiki st0))) eqn:Hm.
  - destruct (Sql.search_fts _ _ _ _) as [err|found].
    + simpl. intros [= <- <- <-] _. apply search_like_articles, Ha.
    + rewrite (uses_fts_not_none _ Hm). simpl.
      intros [= <- <- <-]. simpl. rewrite Hm. discriminate.
  - rewrite bool_decide_eq_true_2 by reflexivity. rewrite orb_true_r.
    intros [= <- <- <-] _. apply search_like_articles, Ha.
Qed.

Lemma like_answer_sound d q n t :
  t ∈ like_answer d q n ->
  Sql.like (SearchTitles.likePattern q) t = true
  /\ exists a, a ∈ articles d /\ Title a = t.
Proof.
  unfold like_answer, Sql.search_like. intros Ht.
  destruct (_ <? _); [inversion Ht|].
  apply (fun H => elem_of_sublist _ _ _ H (sublist_limit_rows _ _)) in Ht.
  rewrite order_by_title_perm in Ht. apply (proj1 (elem_of_distinct _ _)) in Ht.
  apply list_elem_of_In, in_map_iff in Ht as (a & <- & Ha).
  apply filter_In in Ha as [Ha Hl]. split; [exact Hl|].
  exists a. split; [apply list_elem_of_In, Ha | reflexivity].
Qed.

Lemma SearchTitles_ok eng q n st titles st1 lg :
  SearchTitles eng q n st = (Ok titles, st1, lg) ->
  initialized (wiki st1) = true
  /\ articles (database st1) = articles (database st).
Proof.
  intros HS. pose proof (SearchTitles_keeps_rows eng q n st) as [Ha _].
  rewrite HS in Ha. split; [| exact Ha]. revert HS. unfold SearchTitles.
  destruct (Open eng st) as [[[e|] st0] lg0] eqn:HO; [discriminate|].
  destruct (Open_success _ _ _ _ HO) as (Hi & _).
  destruct (SearchTitles.uses_fts _); [destruct (Sql.search_fts _ _ _ _)|];
    intros [= <- <- <-]; exact Hi.
Qed.

Lemma SearchTitles_fts_result eng q n st titles st1 lg :
  SearchTitles eng q n st = (Ok titles, st1, lg) ->
  SearchTitles.uses_fts (ftsVersion (wiki st1)) = true ->
  titles
  = match fts5_match eng (articles (database st)) (SearchTitles.ftsQuery q) with
    | Some ranked => Sql.limit_rows (SearchTitles.normalize n) (Sql.distinct ranked)
    | None => []
    end.
Proof.
  unfold SearchTitles.
  destruct (Open_outcome eng st) as (e & st0 & lg0 & -> & Ha & _).
  destruct e; [discriminate|].
  destruct (SearchTitles.uses_fts (ftsVersion (wiki st0))) eqn:Hm.
  - destruct (Sql.search_fts _ _ _ _) as [err|found] eqn:Hq.
    + simpl. intros [= <- <- <-]. simpl. discriminate.
    + rewrite (uses_fts_not_none _ Hm). simpl. intros [= <- <- <-] _.
      unfold Sql.search_fts in Hq.
      destruct (Schema.table_object _ _) as [o|]; [| discriminate].
      destruct (obj_module o) as [[|]|]; try discriminate.
      * destruct (fts5_compiled eng); [| discriminate].
        rewrite Ha in Hq.
        destruct (fts5_match eng _ _) as [ranked|]; injection Hq as <-; reflexivity.
      * destruct (fts4_compiled eng); discriminate.
  - rewrite bool_decide_eq_true_2 by reflexivity. rewrite orb_true_r.
    intros [= <- <- <-]. simpl. rewrite Hm. discriminate.
Qed.

End SearchTitlesAnswers.

(** X13: while the database file cannot be opened, Open fails with the WAL
    error and leaves the handle uninitialized, so every operation of the
    package reports that same error, returns no result, writes no log line
    and leaves the database as it is; and the failure leaves no trace: an
    Open under any engine behaves after it as it would have without it. *)
Theorem X13_unavailable_store_fails_every_call :
  forall lib eng st,
    store_available eng = false ->
    initialized (wiki st) = false ->
    exists st',
      Open eng st = (Some ErrSetWAL, st', [])
      /\ database st' = database st
      /\ initialized (wiki st') = false
      /\ (forall data limit, LoadIndex eng data limit st = (Some ErrSetWAL, st', []))
      /\ (forall stream limit, ProcessArticles eng stream limit st
                               = Returns (Some ErrSetWAL, st', []))
      /\ (forall title, GetArticle lib eng title st = (Err ErrSetWAL, st', []))
      /\ (forall id, GetArticleByID eng id st = (Err ErrSetWAL, st', []))
      /\ (forall query limit, SearchTitles eng query limit st = (Err ErrSetWAL, st', []))
      /\ (forall eng', Open eng' st' = Open eng' st).
Proof.
  intros lib eng st Hs Hi.
  exists (mkState (mkWiki true false (ftsVersion (wiki st))) (database st)).
  assert (HO : Open eng st
               = (Some ErrSetWAL,
                  mkState (mkWiki true false (ftsVersion (wiki st))) (database st), [])).
  { unfold Open. rewrite Hi, Hs. reflexivity. }
  split; [exact HO|]. split; [reflexivity|]. split; [reflexivity|].
  split; [intros; unfold LoadIndex; rewrite HO; reflexivity|].
  split; [intros; unfold ProcessArticles; rewrite HO; reflexivity|].
  split; [intros; unfold GetArticle; rewrite HO; reflexivity|].
  split; [intros; unfold GetArticleByID; rewrite HO; reflexivity|].
  split; [intros; unfold SearchTitles; rewrite HO; reflexivity|].
  intros eng'. unfold Open. simpl. rewrite Hi. reflexivity.
Qed.

Lemma X13_unavailable_store_fails_every_call_witness :
  exists st',
    Open (mkEngine false true true (fun _ _ => None)) freshState = (Some ErrSetWAL, st', [])
    /\ SearchTitles (mkEngine false true true (fun _ _ => None)) (B "a") 5 freshState
       = (Err ErrSetWAL, st', [])
    /\ Open fullEngine st' = Open fullEngine freshState.
Proof.
  destruct (X13_unavailable_store_fails_every_call AsciiText.lib
              (mkEngine false true true (fun _ _ => None)) freshState eq_refl eq_refl)
    as (st' & HO & _ & _ & _ & _ & _ & _ & HS & HO').
  exists st'. split; [exact HO|]. split; [apply HS | apply HO'].
Defined.

(** X14: when Open succeeds, GetArticleByID returns a row of articles that
    has the requested id if there is one, and otherwise the not-found error
    that carries the id; it returns nothing else. *)
Theorem X14_GetArticleByID_finds_the_row :
  forall eng id st st0 lg0,
    Open eng st = (None, st0, lg0) ->
    match (GetArticleByID eng id st).1.1 with
    | Ok a => a ∈ articles (database st) /\ ID a = id
    | Err e =>
        e = ErrArticleIDNotFound id
        /\ forall a, a ∈ articles (database st) -> ID a <> id
    end.
Proof.
  intros eng id st st0 lg0 HO.
  destruct (Open_success _ _ _ _ HO) as (_ & _ & Ha & _).
  unfold GetArticleByID, Sql.find_article_by_id. rewrite HO, Ha.
  destruct (find _ _) as [a|] eqn:Hf; simpl.
  - apply find_some in Hf as [Hin Hid]. split; [apply list_elem_of_In, Hin | lia].
  - split; [reflexivity|]. intros a Hin Hid.
    apply list_elem_of_In in Hin.
    pose proof (find_none _ _ Hf a Hin) as Hn. simpl in Hn. lia.
Qed.

Lemma X14_GetArticleByID_finds_the_row_witness :
  match (GetArticleByID likeEngine 13 (after_ingestion likeEngine)).1.1 with
  | Ok a => a ∈ articles (database (after_ingestion likeEngine)) /\ ID a = 13
  | Err e =>
      e = ErrArticleIDNotFound 13
      /\ forall a, a ∈ articles (database (after_ingestion likeEngine)) -> ID a <> 13
  end.
Proof.
  exact (X14_GetArticleByID_finds_the_row likeEngine 13 (after_ingestion likeEngine)
           (after_ingestion likeEngine) [] eq_refl).
Defined.

(** X15: the three queries and the three HTTP handlers never write to the
    data tables: whatever the state, the engine and the request, the rows
    of articles and of index_entries are afterwards what they were. *)
Theorem X15_queries_never_change_the_rows :
  forall lib eng st title id query limit limitStr idStr,
    let same (st' : State) :=
      articles (database st') = articles (database st)
      /\ index_entries (database st') = index_entries (database st) in
    same (GetArticle lib eng title st).1.2
    /\ same (GetArticleByID eng id st).1.2
    /\ same (SearchTitles eng query limit st).1.2
    /\ same (handleSearch eng query limitStr st).1.2
    /\ same (handleGetArticle lib eng title st).1.2
    /\ same (handleGetArticleByID eng idStr st).1.2.
Proof.
  intros lib eng st title id query limit limitStr idStr same. unfold same.
  split; [apply GetArticle_keeps_rows|].
  split; [apply GetArticleByID_keeps_rows|].
  split; [apply SearchTitles_keeps_rows|].
  split; [| split].
  - unfold handleSearch. destruct query as [|c q]; [simpl; auto|].
    match goal with
    | |- context [SearchTitles eng ?q ?l st] =>
        pose proof (SearchTitles_keeps_rows eng q l st) as H;
        destruct (SearchTitles eng q l st) as [[[titles|e] st1] lg]
    end; exact H.
  - unfold handleGetArticle. destruct title as [|c t]; [simpl; auto|].
    pose proof (GetArticle_keeps_rows lib eng (c :: t) st) as H.
    destruct (GetArticle lib eng (c :: t) st) as [[[a|e] st1] lg]; exact H.
  - unfold handleGetArticleByID. destruct (ParseInt idStr) as [n|]; [| simpl; auto].
    pose proof (GetArticleByID_keeps_rows eng n st) as H.
    destruct (GetArticleByID eng n st) as [[[a|e] st1] lg]; exact H.
Qed.

(** X16: GetArticle is a lookup that ignores the case of the letters A-Z,
    for every title whose title-cased form differs from it in the case of
    such letters only (every ASCII title): when Open succeeds it returns a
    row of articles whose title equals the requested one up to that case,
    if there is one, and the not-found error only when there is none. *)
Theorem X16_GetArticle_ignores_ascii_case :
  forall lib eng title st st0 lg0,
    Open eng st = (None, st0, lg0) ->
    sql_lower (cases_Title lib (strings_ToLower lib title)) = sql_lower title ->
    match (GetArticle lib eng title st).1.1 with
    | Ok a => a ∈ articles (database st) /\ sql_lower (Title a) = sql_lower title
    | Err e =>
        e = ErrArticleNotFound title
        /\ forall a, a ∈ articles (database st) -> sql_lower (Title a) <> sql_lower title
    end.
Proof.
  intros lib eng title st st0 lg0 HO Hfold.
  rewrite (GetArticle_after_Open _ _ _ _ _ _ HO).
  unfold Sql.find_article_by_title_exact, Sql.find_article_by_title_ci.
  destruct (find _ _) as [a|] eqn:Hf; simpl.
  { apply find_some in Hf as [Hin Heq]. apply bool_decide_eq_true in Heq.
    split; [apply list_elem_of_In, Hin | rewrite Heq; reflexivity]. }
  clear Hf. destruct (find _ _) as [a|] eqn:Hg; simpl.
  { apply find_some in Hg as [Hin Heq]. apply bool_decide_eq_true in Heq.
    split; [apply list_elem_of_In, Hin | rewrite Heq; exact Hfold]. }
  split; [reflexivity|]. intros a Hin Heq.
  apply list_elem_of_In in Hin. pose proof (find_none _ _ Hg a Hin) as Hn.
  simpl in Hn. apply bool_decide_eq_false in Hn. apply Hn.
  rewrite Heq, Hfold. reflexivity.
Qed.

Lemma X16_GetArticle_ignores_ascii_case_witness :
  match (GetArticle AsciiText.lib likeEngine (B "aCCESSIBLEcOMPUTING")
           (after_ingestion likeEngine)).1.1 with
  | Ok a =>
      a ∈ articles (database (after_ingestion likeEngine))
      /\ sql_lower (Title a) = sql_lower (B "aCCESSIBLEcOMPUTING")
  | Err e =>
      e = ErrArticleNotFound (B "aCCESSIBLEcOMPUTING")
      /\ forall a, a ∈ articles (database (after_ingestion likeEngine)) ->
                   sql_lower (Title a) <> sql_lower (B "aCCESSIBLEcOMPUTING")
  end.
Proof.
  exact (X16_GetArticle_ignores_ascii_case AsciiText.lib likeEngine
           (B "aCCESSIBLEcOMPUTING") (after_ingestion likeEngine)
           (after_ingestion likeEngine) [] eq_refl eq_refl).
Defined.

(** X17: an answer of SearchTitles that comes from the LIKE query (the
    mode left behind is not fts5 or fts4) has no title twice, is in the
    byte order of the titles, and holds only titles of rows of articles
    that match the pattern %query%. *)
Theorem X17_like_answer_is_sorted_and_sound :
  forall eng q n st titles st1 lg,
    SearchTitles eng q n st = (Ok titles, st1, lg) ->
    SearchTitles.uses_fts (ftsVersion (wiki st1)) = false ->
    NoDup titles
    /\ in_title_order titles
    /\ (forall t, t ∈ titles ->
          Sql.like (SearchTitles.likePattern q) t = true
          /\ exists a, a ∈ articles (database st) /\ Title a = t).
Proof.
  intros eng q n st titles st1 lg HS Hm.
  rewrite (SearchTitles_like_answered _ _ _ _ _ _ _ HS Hm).
  split; [| split; [| apply like_answer_sound]]; unfold like_answer, Sql.search_like;
    (destruct (_ <? _); [simpl; auto using NoDup_nil_2|]).
  - eapply sublist_NoDup; [| apply sublist_limit_rows].
    rewrite order_by_title_perm. apply NoDup_distinct_from.
  - apply in_title_order_limit_rows, order_by_title_order.
Qed.

Lemma X17_like_answer_is_sorted_and_sound_witness :
  SearchTitles likeEngine (B "c") 5 (after_ingestion likeEngine)
  = (Ok [B "AccessibleComputing"; B "Anarchism"], after_ingestion likeEngine, [])
  /\ NoDup [B "AccessibleComputing"; B "Anarchism"]
  /\ in_title_order [B "AccessibleComputing"; B "Anarchism"].
Proof.
  assert (H : SearchTitles likeEngine (B "c") 5 (after_ingestion likeEngine)
              = (Ok [B "AccessibleComputing"; B "Anarchism"],
                 after_ingestion likeEngine, [])) by (vm_compute; reflexivity).
  split; [exact H|].
  destruct (X17_like_answer_is_sorted_and_sound _ _ _ _ _ _ _ H eq_refl) as (Hn & Ho & _).
  split; [exact Hn | exact Ho].
Defined.

(** X18: the LIKE search finds a query of at most 49998 bytes wherever
    it stands in a title as a run of whole characters, the case of the
    letters A-Z being ignored, also when the query contains % or _: when
    the answer comes from the LIKE query and is shorter than the limit in
    force, it holds the title of every row of articles whose title has no
    NUL byte and holds the query in that way. *)
Theorem X18_like_answer_finds_every_title_holding_the_query :
  forall eng q n st titles st1 lg,
    SearchTitles eng q n st = (Ok titles, st1, lg) ->
    SearchTitles.uses_fts (ftsVersion (wiki st1)) = false ->
    Z.of_nat (length titles) < SearchTitles.normalize n ->
    Z.of_nat (length q) + 2 <= Sql.likePatternLimit ->
    forall a,
      a ∈ articles (database st) ->
      NUL ∉ Title a ->
      holds_characters (Title a) q ->
      Title a ∈ titles.
Proof.
  intros eng q n st titles st1 lg HS Hm Hlen Hq a Ha Hnul Hc.
  rewrite (SearchTitles_like_answered _ _ _ _ _ _ _ HS Hm) in Hlen |- *.
  unfold like_answer, Sql.search_like in Hlen |- *.
  assert (Hfits : (Sql.likePatternLimit <? Z.of_nat (length (SearchTitles.likePattern q)))
                  = false).
  { apply Z.ltb_ge. unfold SearchTitles.likePattern.
    rewrite !length_app. change (length (B "%")) with 1%nat. lia. }
  rewrite Hfits in Hlen |- *.
  rewrite (limit_rows_all _ _ Hlen), order_by_title_perm.
  apply (proj2 (elem_of_distinct _ _)), list_elem_of_In, in_map, filter_In.
  split; [apply list_elem_of_In, Ha | apply like_contains; assumption].
Qed.

Lemma X18_like_answer_finds_every_title_holding_the_query_witness :
  SearchTitles likeEngine (B "ARCH") 5 (after_ingestion likeEngine)
  = (Ok [B "Anarchism"], after_ingestion likeEngine, [])
  /\ B "Anarchism" ∈ [B "Anarchism"].
Proof.
  split; [vm_compute; reflexivity|].
  refine (X18_like_answer_finds_every_title_holding_the_query
            likeEngine (B "ARCH") 5 (after_ingestion likeEngine)
            [B "Anarchism"] (after_ingestion likeEngine) [] _ eq_refl _ _
            (mkArticle 12 (B "Anarchism") 0 (B "Anarchism is a political philosophy") [])
            _ _ _).
  - vm_compute. reflexivity.
  - vm_compute. reflexivity.
  - vm_compute. discriminate.
  - apply (bool_decide_unpack _). vm_compute. exact I.
  - apply (bool_decide_unpack _). vm_compute. exact I.
  - exists (B "An"), (B "arch"), (B "ism"). repeat split; vm_compute; reflexivity.
Defined.

(** X19: an answer of SearchTitles that comes from the full-text
    statement (the mode left behind is fts5 or fts4) holds the rows read
    from it: the titles the engine's MATCH returns for the escaped query
    with a star appended, in its rank order, without the later copies of a
    title and cut at the limit in force, no matched title being left out
    below the limit; and no title at all when the MATCH fails, which
    SearchTitles does not notice. *)
Theorem X19_fts_answer_holds_the_rows_read :
  forall eng q n st titles st1 lg,
    SearchTitles eng q n st = (Ok titles, st1, lg) ->
    SearchTitles.uses_fts (ftsVersion (wiki st1)) = true ->
    match fts5_match eng (articles (database st)) (SearchTitles.ftsQuery q) with
    | Some ranked =>
        titles = Sql.limit_rows (SearchTitles.normalize n) (Sql.distinct ranked)
        /\ NoDup titles
        /\ titles `sublist_of` ranked
        /\ (Z.of_nat (length titles) < SearchTitles.normalize n ->
            forall t, t ∈ ranked -> t ∈ titles)
    | None => titles = []
    end.
Proof.
  intros eng q n st titles st1 lg HS Hm.
  rewrite (SearchTitles_fts_result _ _ _ _ _ _ _ HS Hm).
  destruct (fts5_match eng _ _) as [ranked|]; [| reflexivity].
  split; [reflexivity|]. split; [| split].
  - apply (sublist_NoDup _ _ (NoDup_distinct_from [] ranked)), sublist_limit_rows.
  - etransitivity; [apply sublist_limit_rows | apply sublist_distinct_from].
  - intros Hlen t Ht. rewrite (limit_rows_all _ _ Hlen).
    apply (proj2 (elem_of_distinct _ _)), Ht.
Qed.

Lemma X19_fts_answer_holds_the_rows_read_witness :
  match fts5_match fullEngine (articles (database (after_ingestion fullEngine)))
          (SearchTitles.ftsQuery (B "A")) with
  | Some ranked =>
      [B "AccessibleComputing"] = Sql.limit_rows (SearchTitles.normalize 1) (Sql.distinct ranked)
      /\ NoDup [B "AccessibleComputing"]
      /\ [B "AccessibleComputing"] `sublist_of` ranked
      /\ (Z.of_nat (length [B "AccessibleComputing"]) < SearchTitles.normalize 1 ->
          forall t, t ∈ ranked -> t ∈ [B "AccessibleComputing"])
  | None => [B "AccessibleComputing"] = []
  end.
Proof.
  refine (X19_fts_answer_holds_the_rows_read fullEngine (B "A") 1
            (after_ingestion fullEngine) [B "AccessibleComputing"]
            (after_ingestion fullEngine) [] _ eq_refl).
  vm_compute. reflexivity.
Defined.

(** ** The escaped query and the handlers *)

Section EscapeFacts.

Lemma replace_byte_cons old new c s :
  replace_byte old new (c :: s)
  = (if bool_decide (c = old) then new else [c]) ++ replace_byte old new s.
Proof. reflexivity. Qed.

Lemma replace_byte_app old new s t :
  replace_byte old new (s ++ t) = replace_byte old new s ++ replace_byte old new t.
Proof. unfold replace_byte. apply flat_map_app. Qed.

Lemma occurs_app c s t : occurs c (s ++ t) = (occurs c s + occurs c t)%nat.
Proof. unfold occurs. rewrite List.filter_app, length_app. reflexivity. Qed.

Lemma occurs_cons c d s :
  occurs c (d :: s) = ((if bool_decide (d = c) then 1 else 0) + occurs c s)%nat.
Proof. unfold occurs. simpl. destruct (bool_decide (d = c)); reflexivity. Qed.

Lemma occurs_doubling (dbl : ascii -> bool) c q :
  occurs c (flat_map (fun d => if dbl d then [d; d] else [d]) q)
  = if dbl c then (2 * occurs c q)%nat else occurs c q.
Proof.
  induction q as [|d q IH]; [destruct (dbl c); reflexivity|].
  change (flat_map (fun d => if dbl d then [d; d] else [d]) (d :: q))
    with ((if dbl d then [d; d] else [d])
            ++ flat_map (fun d => if dbl d then [d; d] else [d]) q).
  rewrite occurs_app, IH, (occurs_cons c d q).
  destruct (bool_decide_reflect (d = c)) as [->|Hne].
  - destruct (dbl c); rewrite !occurs_cons, !bool_decide_eq_true_2 by reflexivity;
      change (occurs c []) with 0%nat; lia.
  - destruct (dbl d); rewrite !occurs_cons, !bool_decide_eq_false_2 by assumption;
      change (occurs c []) with 0%nat; destruct (dbl c); lia.
Qed.

End EscapeFacts.

(** X20: the escaping of SearchTitles writes every byte of the query once
    and in order, except the two quote characters, which it writes twice,
    and appends a star; the two replacement passes do not interfere.  So a
    query without quotes is passed on as it is with the star appended, and
    in the escaped query every byte occurs as often as in the query, a
    quote twice as often, the star once more. *)
Theorem X20_ftsQuery_doubles_the_quotes :
  forall q,
    let doubled (c : ascii) :=
      bool_decide (c = SearchTitles.double_quote) || bool_decide (c = "'"%char) in
    SearchTitles.ftsQuery q
    = flat_map (fun c => if doubled c then [c; c] else [c]) q ++ B "*"
    /\ (forall c,
          occurs c (SearchTitles.ftsQuery q)
          = ((if doubled c then 2 * occurs c q else occurs c q)
             + (if bool_decide (c = "*"%char) then 1 else 0))%nat)
    /\ (Forall (fun c => doubled c = false) q -> SearchTitles.ftsQuery q = q ++ B "*").
Proof.
  intros q doubled.
  assert (Heq : SearchTitles.ftsQuery q
                = flat_map (fun c => if doubled c then [c; c] else [c]) q ++ B "*").
  { unfold SearchTitles.ftsQuery. f_equal.
    induction q as [|c q IH]; [reflexivity|].
    rewrite replace_byte_cons, replace_byte_app, IH.
    change (flat_map (fun c => if doubled c then [c; c] else [c]) (c :: q))
      with ((if doubled c then [c; c] else [c])
              ++ flat_map (fun c => if doubled c then [c; c] else [c]) q).
    f_equal. unfold doubled.
    destruct (bool_decide_reflect (c = SearchTitles.double_quote)) as [->|Hd]; [reflexivity|].
    rewrite replace_byte_cons.
    destruct (bool_decide_reflect (c = "'"%char)) as [->|Hs]; reflexivity. }
  split; [exact Heq|]. split.
  - intros c. rewrite Heq, occurs_app.
    change (B "*") with ["*"%char]. rewrite occurs_cons.
    change (occurs c []) with 0%nat. rewrite Nat.add_0_r.
    f_equal.
    + apply occurs_doubling.
    + destruct (bool_decide_reflect ("*"%char = c)) as [<-|Hne]; [reflexivity|].
      rewrite bool_decide_eq_false_2 by congruence. reflexivity.
  - intros Hq. rewrite Heq. clear Heq. f_equal.
    induction Hq as [|c q Hc _ IH]; [reflexivity|]. simpl. rewrite Hc, IH. reflexivity.
Qed.

Lemma X20_ftsQuery_doubles_the_quotes_witness :
  SearchTitles.ftsQuery (B "Anarch") = B "Anarch" ++ B "*".
Proof.
  apply (X20_ftsQuery_doubles_the_quotes (B "Anarch")).
  repeat (apply Forall_cons_2; [reflexivity|]). apply Forall_nil_2.
Defined.

Section HandlerFacts.

(** The limit [handleSearch] passes on. *)
Lemma handleSearch_calls eng c q limitStr st :
  exists limit,
    limit = match ParseInt limitStr with Some parsed => parsed | None => 20 end
    /\ handleSearch eng (c :: q) limitStr st
       = match SearchTitles eng (c :: q) limit st with
         | (Err e, st1, lg) => (HandlerError e, st1, lg)
         | (Ok titles, st1, lg) =>
             (SearchJSON (c :: q) titles (Z.of_nat (length titles)), st1, lg)
         end.
Proof.
  eexists. split; [reflexivity|]. unfold handleSearch.
  destruct limitStr as [|d l]; reflexivity.
Qed.

Lemma digits_value_digits s : forall acc,
  forallb is_digit s = true -> exists v, digits_value acc s = Some v.
Proof.
  induction s as [|c s IH]; intros acc; simpl; [eauto|].
  intros H. apply andb_true_iff in H as [-> Hs]. apply IH, Hs.
Qed.

Lemma is_digit_no_sign c :
  is_digit c = true -> bool_decide (c = "+"%char) || bool_decide (c = "-"%char) = false.
Proof.
  intros H.
  destruct (bool_decide_reflect (c = "+"%char)) as [->|_]; [discriminate H|].
  destruct (bool_decide_reflect (c = "-"%char)) as [->|_]; [discriminate H|].
  reflexivity.
Qed.

Lemma ParseInt_digits s v :
  s <> [] -> forallb is_digit s = true -> digits_value 0 s = Some v ->
  ParseInt s = if v <? 2 ^ 63 then Some v else None.
Proof.
  intros Hne Hd Hv. destruct s as [|c s]; [congruence|].
  pose proof (digits_value_bound _ _ _ (Z.le_refl 0) Hv) as H0.
  unfold ParseInt.
  assert (Hc : is_digit c = true) by (simpl in Hd; apply andb_true_iff in Hd; tauto).
  pose proof (is_digit_no_sign c Hc) as Hsign. rewrite Hsign.
  apply orb_false_iff in Hsign as [_ ->].
  unfold ParseUint64. rewrite Hv. simpl negb. cbv beta iota.
  destruct (Z.ltb_spec v (2 ^ 64)).
  - simpl andb. destruct (Z.leb_spec (2 ^ 63) v), (Z.ltb_spec v (2 ^ 63));
      try lia; reflexivity.
  - destruct (Z.ltb_spec v (2 ^ 63)); [lia | reflexivity].
Qed.

End HandlerFacts.

(** X21: for handleSearch a limit parameter that is missing, does not
    parse as a decimal int64 number, or parses to a number that is not
    positive, is the same as limit=20: response, state and log are equal. *)
Theorem X21_handleSearch_default_limit :
  forall eng q limitStr st,
    (limitStr = []
     \/ ParseInt limitStr = None
     \/ exists n, ParseInt limitStr = Some n /\ n <= 0) ->
    handleSearch eng q limitStr st = handleSearch eng q (B "20") st.
Proof.
  intros eng q limitStr st H. destruct q as [|c q]; [reflexivity|].
  destruct (handleSearch_calls eng c q limitStr st) as (l1 & Hl1 & ->).
  destruct (handleSearch_calls eng c q (B "20") st) as (l2 & Hl2 & ->).
  change (ParseInt (B "20")) with (Some 20) in Hl2. subst l2.
  destruct H as [->|[Hp|(n & Hp & Hn)]].
  - subst l1. reflexivity.
  - rewrite Hp in Hl1. subst l1. reflexivity.
  - rewrite Hp in Hl1. subst l1. rewrite (SearchTitles_normalized _ _ _ _ Hn). reflexivity.
Qed.

Lemma X21_handleSearch_default_limit_witness :
  handleSearch likeEngine (B "a") (B "-3") (after_ingestion likeEngine)
  = handleSearch likeEngine (B "a") (B "20") (after_ingestion likeEngine).
Proof.
  apply X21_handleSearch_default_limit. right. right. exists (-3).
  split; [vm_compute; reflexivity | lia].
Defined.

(** X22: a JSON answer of handleSearch echoes the query, which is not
    empty; its count field is the number of results, and it is at most the
    limit parameter when that parses to a positive number and at most 20
    otherwise. *)
Theorem X22_handleSearch_count :
  forall eng q limitStr st query results count st1 lg,
    handleSearch eng q limitStr st = (SearchJSON query results count, st1, lg) ->
    query = q /\ q <> []
    /\ count = Z.of_nat (length results)
    /\ count <= match ParseInt limitStr with
                | Some n => if n <=? 0 then 20 else n
                | None => 20
                end.
Proof.
  intros eng q limitStr st query results count st1 lg H.
  destruct q as [|c q]; [discriminate H|].
  destruct (handleSearch_calls eng c q limitStr st) as (l1 & Hl1 & Hh).
  rewrite Hh in H.
  destruct (SearchTitles eng (c :: q) l1 st) as [[[titles|e] st2] lg2] eqn:HS;
    [| discriminate H].
  injection H as <- <- <- <- <-.
  split; [reflexivity|]. split; [discriminate|]. split; [reflexivity|].
  apply SearchTitles_length in HS. unfold SearchTitles.normalize in HS.
  destruct (ParseInt limitStr) as [n|]; subst l1; exact HS.
Qed.

Lemma X22_handleSearch_count_witness :
  handleSearch likeEngine (B "a") (B "1") (after_ingestion likeEngine)
  = (SearchJSON (B "a") [B "AccessibleComputing"] 1, after_ingestion likeEngine, [])
  /\ 1 = Z.of_nat (length [B "AccessibleComputing"])
  /\ 1 <= match ParseInt (B "1") with
          | Some n => if n <=? 0 then 20 else n
          | None => 20
          end.
Proof.
  assert (H : handleSearch likeEngine (B "a") (B "1") (after_ingestion likeEngine)
              = (SearchJSON (B "a") [B "AccessibleComputing"] 1,
                 after_ingestion likeEngine, [])) by (vm_compute; reflexivity).
  split; [exact H|].
  exact (proj2 (proj2 (X22_handleSearch_count _ _ _ _ _ _ _ _ _ H))).
Defined.

(** X23: every title that handleSearch returns from the LIKE query can be
    opened: unless it is the empty title, handleGetArticle answers a
    request for it with an article that has exactly this title, under any
    engine, without changing the state or logging. *)
Theorem X23_search_results_can_be_opened :
  forall lib eng eng' q limitStr st results count st1 lg t,
    handleSearch eng q limitStr st = (SearchJSON q results count, st1, lg) ->
    SearchTitles.uses_fts (ftsVersion (wiki st1)) = false ->
    t ∈ results -> t <> [] ->
    exists a,
      handleGetArticle lib eng' t st1 = (ArticleJSON a, st1, [])
      /\ Title a = t.
Proof.
  intros lib eng eng' q limitStr st results count st1 lg t H Hm Ht Hne.
  destruct q as [|c q]; [discriminate H|].
  destruct (handleSearch_calls eng c q limitStr st) as (l1 & _ & Hh).
  rewrite Hh in H.
  destruct (SearchTitles eng (c :: q) l1 st) as [[[titles|e] st2] lg2] eqn:HS;
    [| discriminate H].
  injection H as <- _ <- <-.
  destruct (SearchTitles_ok _ _ _ _ _ _ _ HS) as [Hi Ha].
  rewrite (SearchTitles_like_answered _ _ _ _ _ _ _ HS Hm) in Ht.
  apply like_answer_sound in Ht as (_ & a & Hin & Hta). rewrite <- Ha in Hin.
  destruct (find_exact_hit t (articles (database st2)))
    as (a' & Hf & _ & Ht'); [exists a; auto|].
  exists a'. split; [| exact Ht'].
  unfold handleGetArticle. destruct t as [|d t]; [congruence|].
  rewrite (GetArticle_after_Open _ _ _ _ _ _ (Open_initialized eng' st2 Hi)), Hf.
  reflexivity.
Qed.

Lemma X23_search_results_can_be_opened_witness :
  exists a,
    handleGetArticle AsciiText.lib likeEngine (B "Anarchism") (after_ingestion likeEngine)
    = (ArticleJSON a, after_ingestion likeEngine, [])
    /\ Title a = B "Anarchism".
Proof.
  refine (X23_search_results_can_be_opened AsciiText.lib likeEngine likeEngine
            (B "narch") [] (after_ingestion likeEngine) [B "Anarchism"] 1
            (after_ingestion likeEngine) [] (B "Anarchism") _ eq_refl _ _).
  - vm_compute. reflexivity.
  - apply elem_of_cons. left. reflexivity.
  - discriminate.
Defined.

(** X24: the route of handleGetArticleByID admits decimal digits only, and
    for such an id the handler answers 400 exactly when the number does
    not fit int64; for every other id it answers what GetArticleByID
    returns for the number: the article, or 404 with the error. *)
Theorem X24_handleGetArticleByID_status :
  forall eng idStr st,
    idStr <> [] -> forallb is_digit idStr = true ->
    exists v,
      digits_value 0 idStr = Some v /\ 0 <= v
      /\ handleGetArticleByID eng idStr st
         = if v <? 2 ^ 63 then
             match GetArticleByID eng v st with
             | (Err e, st1, lg) => (ArticleNotFound e, st1, lg)
             | (Ok article, st1, lg) => (ArticleJSON article, st1, lg)
             end
           else (ArticleBadRequest (B "Invalid article ID"), st, []).
Proof.
  intros eng idStr st Hne Hd.
  destruct (digits_value_digits idStr 0 Hd) as (v & Hv). exists v.
  split; [exact Hv|]. split; [apply (digits_value_bound _ _ _ (Z.le_refl 0) Hv)|].
  unfold handleGetArticleByID. rewrite (ParseInt_digits _ _ Hne Hd Hv).
  destruct (v <? 2 ^ 63); reflexivity.
Qed.

Lemma X24_handleGetArticleByID_status_witness :
  handleGetArticleByID likeEngine (B "9223372036854775808") (after_ingestion likeEngine)
  = (ArticleBadRequest (B "Invalid article ID"), after_ingestion likeEngine, []).
Proof.
  destruct (X24_handleGetArticleByID_status likeEngine (B "9223372036854775808")
              (after_ingestion likeEngine) ltac:(discriminate) eq_refl)
    as (v & Hv & _ & H).
  vm_compute in Hv. injection Hv as <-. exact H.
Defined.

(** ** The start-up of main *)

Section MainFacts.

Lemma LoadIndex_fits eng limit lines st st0 lg0 :
  Open eng st = (None, st0, lg0) ->
  Forall fits_buffer lines ->
  exists lg,
    LoadIndex eng (index_file lines) limit st
    = (None,
       mkState (wiki st0)
         (mkDatabase (sqlite_master (database st0)) (articles (database st))
            (insert_all (index_entries (database st))
               (first_rows limit (entries_of (map Scanner.dropCR lines))))),
       lg).
Proof.
  intros HO Hfit. unfold LoadIndex. rewrite HO.
  destruct (Open_success _ _ _ _ HO) as (_ & _ & Ha & Hi).
  destruct (run_index_file limit lines (index_entries (database st0)) Hfit)
    as (lg & Hrun & _).
  rewrite Hrun, Ha, Hi. eauto.
Qed.

End MainFacts.

(** X25: main goes on to serve requests exactly when neither
    --load-index nor --process-articles is given and the database can be
    opened; it has then opened the handle, left the rows of articles and
    index_entries as they were, and its last log line is the start of the
    server. *)
Theorem X25_main_serves_only_without_flags :
  forall eng loadIndex processArticles limit indexData stream d,
    ((exists st lg,
        Main.run eng loadIndex processArticles limit indexData stream d
        = (Main.Serve, st, lg))
     <-> loadIndex = false /\ processArticles = false /\ store_available eng = true)
    /\ (forall st lg,
          Main.run eng loadIndex processArticles limit indexData stream d
          = (Main.Serve, st, lg) ->
          initialized (wiki st) = true
          /\ articles (database st) = articles d
          /\ index_entries (database st) = index_entries d
          /\ last lg = Some Main.StartingServer).
Proof.
  intros eng li pa limit data stream d.
  assert (Hserve : forall st lg,
            Main.run eng li pa limit data stream d = (Main.Serve, st, lg) ->
            li = false /\ pa = false /\ store_available eng = true
            /\ initialized (wiki st) = true
            /\ articles (database st) = articles d
            /\ index_entries (database st) = index_entries d
            /\ last lg = Some Main.StartingServer).
  { intros st lg. unfold Main.run.
    destruct li.
    { destruct (LoadIndex eng data limit _) as [[[e|] st1] lg1]; [discriminate|].
      destruct pa; [| discriminate].
      destruct (ProcessArticles eng stream limit st1) as [[[[e|] st2] lg2]|st2 lg2];
        discriminate. }
    destruct pa.
    { destruct (ProcessArticles eng stream limit _) as [[[[e|] st2] lg2]|st2 lg2];
        discriminate. }
    simpl. destruct (store_available eng) eqn:Hs.
    - rewrite (Open_fresh _ _ Hs). intros [= <- <-]. simpl.
      repeat (split; [reflexivity|]). apply last_snoc.
    - destruct (Open eng _) as [[[e|] st3] lg3] eqn:HO; [discriminate|].
      unfold Open in HO. simpl in HO. rewrite Hs in HO. discriminate. }
  split; [split|].
  - intros (st & lg & H). destruct (Hserve st lg H) as (? & ? & ? & _). auto.
  - intros (-> & -> & Hs). unfold Main.run. simpl. rewrite (Open_fresh _ _ Hs). eauto.
  - intros st lg H. destruct (Hserve st lg H) as (_ & _ & _ & H'). exact H'.
Qed.

Lemma X25_main_serves_only_without_flags_witness :
  exists st lg, Main.run fullEngine false false (-1) [] [] emptyDatabase = (Main.Serve, st, lg).
Proof.
  apply (proj2 (proj1 (X25_main_serves_only_without_flags
                         fullEngine false false (-1) [] [] emptyDatabase))).
  repeat split.
Defined.

(** X26: when LoadIndex fails, main stops with that error whether or not
    --process-articles is given: ProcessArticles is not called, so the rows
    of articles are as before, and the log ends with the lines of
    LoadIndex. *)
Theorem X26_failed_load_stops_main :
  forall eng processArticles limit indexData stream d e st1 lg1,
    LoadIndex eng indexData limit (mkState NewWiki d) = (Some e, st1, lg1) ->
    Main.run eng true processArticles limit indexData stream d
    = (Main.FailedToLoadIndex e, st1, Main.LoadingIndex :: map Main.Package lg1)
    /\ articles (database st1) = articles d.
Proof.
  intros eng pa limit data stream d e st1 lg1 HL. split.
  - unfold Main.run. rewrite HL. reflexivity.
  - pose proof (LoadIndex_keeps_articles eng data limit (mkState NewWiki d)) as H.
    rewrite HL in H. exact H.
Qed.

Lemma X26_failed_load_stops_main_witness :
  Main.run (mkEngine false true true (fun _ _ => None)) true true (-1)
    scenario_index scenario_stream emptyDatabase
  = (Main.FailedToLoadIndex ErrSetWAL,
     mkState (mkWiki true false []) emptyDatabase, [Main.LoadingIndex]).
Proof.
  apply (X26_failed_load_stops_main (mkEngine false true true (fun _ _ => None))
           true (-1) scenario_index scenario_stream emptyDatabase ErrSetWAL
           (mkState (mkWiki true false []) emptyDatabase) []).
  reflexivity.
Defined.

(** X27: with both flags, a database file that is new or of this
    program's making and can be opened, and an index file whose lines fit
    the scanner buffer, both steps run on one handle: the schema and the
    mode are those of the createTables call of the first Open and
    index_entries got the entries of the file.  When the build has the
    full-text module the file uses and the decoder reaches the end of the
    dump, main exits with status 0 and articles got the pages kept under
    the index that LoadIndex had just written.  When the build lacks that
    module, the INSERT of ProcessArticles does not prepare: main stops
    with that error and articles is as before.  When the build has the
    module, no limit is set and the decoder meets an error that it
    repeats, main never exits. *)
Theorem X27_main_runs_both_steps_on_one_handle :
  forall origin eng limit lines stream d,
    store_available eng = true ->
    Forall fits_buffer lines ->
    sqlite_master d = schema_from origin ->
    let idx := insert_all (index_entries d)
                 (first_rows limit (entries_of (map Scanner.dropCR lines))) in
    let schema := (createTables eng (sqlite_master d)).1.2 in
    let handle := mkWiki true true (createTables eng (sqlite_master d)).1.1 in
    (module_at_hand origin eng = true ->
     StickyError ∉ stream ->
     exists lg,
       Main.run eng true true limit (index_file lines) stream d
       = (Main.Exit0,
          mkState handle
            (mkDatabase schema (upsert_all (articles d) (rows_written limit stream idx)) idx),
          lg)
       /\ last lg = Some Main.ArticlesProcessed)
    /\ (module_at_hand origin eng = false ->
        exists lg,
          Main.run eng true true limit (index_file lines) stream d
          = (Main.FailedToProcessArticles ErrPrepareStatement,
             mkState handle (mkDatabase schema (articles d) idx),
             lg))
    /\ (module_at_hand origin eng = true ->
        limit <= 0 ->
        StickyError ∈ stream ->
        exists st lg,
          Main.run eng true true limit (index_file lines) stream d = (Main.NeverExits, st, lg)
          /\ wiki st = handle
          /\ sqlite_master (database st) = schema
          /\ index_entries (database st) = idx).
Proof.
  intros origin eng limit lines stream d Hs Hfit Hd idx schema handle.
  destruct (LoadIndex_fits eng limit lines _ _ _ (Open_fresh eng d Hs) Hfit) as (lg1 & HL).
  assert (HL' : LoadIndex eng (index_file lines) limit (mkState NewWiki d)
                = (None, mkState handle (mkDatabase schema (articles d) idx), lg1))
    by exact HL.
  clear HL.
  assert (Hown : Schema.insert_prepares eng schema = module_at_hand origin eng)
    by (unfold schema; rewrite Hd; apply insert_prepares_own).
  pose proof (ProcessArticles_result eng stream limit
                (mkState handle (mkDatabase schema (articles d) idx))) as HP.
  rewrite (Open_initialized eng (mkState handle (mkDatabase schema (articles d) idx))
             eq_refl) in HP.
  cbv zeta in HP. simpl database in HP. simpl sqlite_master in HP. rewrite Hown in HP.
  split; [| split].
  - intros Hp Hno. unfold Main.run. rewrite HL'. rewrite Hp in HP.
    destruct (ProcessArticles.stuck _) eqn:Hst.
    { destruct (Hno (proj1 (run_stuck limit stream _) Hst)). }
    destruct HP as (lg2 & HP). rewrite HP. simpl.
    eexists. split; [reflexivity|].
    rewrite (app_comm_cons _ _ Main.LoadingIndex), (app_comm_cons _ _ Main.ProcessingArticles).
    rewrite app_assoc. apply last_snoc.
  - intros Hp. unfold Main.run. rewrite HL'. rewrite Hp in HP.
    rewrite HP. simpl. eauto.
  - intros Hp Hl Hin. unfold Main.run. rewrite HL'. rewrite Hp in HP.
    rewrite (proj2 (run_stuck limit stream (mkDatabase schema (articles d) idx)) Hl Hin) in HP.
    destruct HP as (j & lg2 & HP & _). rewrite HP. simpl.
    eexists _, _. split; [reflexivity|]. auto.
Qed.

Lemma X27_main_runs_both_steps_on_one_handle_witness :
  (exists lg,
     Main.run likeEngine true true (-1)
       (index_file [B "597:10:AccessibleComputing"; B "10:12:Anarchism";
                    B "11:13:Talk:Anarchism"])
       scenario_stream emptyDatabase
     = (Main.Exit0, after_ingestion likeEngine, lg))
  /\ (exists st lg,
        Main.run likeEngine true true (-1) (index_file []) scenario_stream
          (database (after_ingestion fullEngine))
        = (Main.FailedToProcessArticles ErrPrepareStatement, st, lg)).
Proof.
  assert (Hfit : Forall fits_buffer
                   [B "597:10:AccessibleComputing"; B "10:12:Anarchism";
                    B "11:13:Talk:Anarchism"]) by all_fit.
  split.
  - pose proof (X27_main_runs_both_steps_on_one_handle None likeEngine (-1) _
                  scenario_stream emptyDatabase eq_refl Hfit eq_refl) as H0.
    cbv zeta in H0. destruct H0 as (H0 & _).
    destruct H0 as (lg & H & _).
    + reflexivity.
    + unfold scenario_stream. intros Hin.
      repeat (apply elem_of_cons in Hin as [Hin|Hin]; [discriminate|]).
      inversion Hin.
    + exists lg. rewrite H. vm_compute. reflexivity.
  - assert (Hd : sqlite_master (database (after_ingestion fullEngine))
                 = schema_from (Some fullEngine)) by (vm_compute; reflexivity).
    pose proof (X27_main_runs_both_steps_on_one_handle (Some fullEngine) likeEngine (-1) []
                  scenario_stream (database (after_ingestion fullEngine)) eq_refl
                  (Forall_nil_2 _) Hd) as H0.
    cbv zeta in H0. destruct H0 as (_ & H0 & _).
    destruct H0 as (lg & H).
    + reflexivity.
    + eauto.
Defined.

(** ** The article view *)

(** X28: the text the article view shows is never empty.  For an article
    without redirect it is the content itself when that has between 1 and
    5000 UTF-16 code units, and the first 5000 code units followed by the
    truncation note when it has more, so it never exceeds 5029 code
    units; a redirect target takes the place of any content. *)
Theorem X28_shown_text_is_bounded :
  forall article,
    let len (s : ArticleView.jsstring) := Z.of_nat (length s) in
    let cut := Z.to_nat 5000 in
    ArticleView.shown article <> []
    /\ (ArticleView.truthy (ArticleView.redirect article) = false ->
        len (ArticleView.shown article) <= 5029
        /\ (ArticleView.content article <> [] ->
            len (ArticleView.content article) <= 5000 ->
            ArticleView.shown article = ArticleView.content article)
        /\ (5000 < len (ArticleView.content article) ->
            take cut (ArticleView.shown article) = take cut (ArticleView.content article)
            /\ drop cut (ArticleView.shown article) = ArticleView.truncatedNote))
    /\ (forall target,
          ArticleView.redirect article = Some target -> target <> [] ->
          ArticleView.shown article = ArticleView.js "This article redirects to: " ++ target).
Proof.
  intros [id title ns content redirect] len cut. unfold ArticleView.shown, len. simpl.
  split; [| split].
  - destruct (ArticleView.truthy redirect); [discriminate|].
    destruct content as [|c content]; [discriminate|]. simpl ArticleView.truthy. cbv iota.
    destruct (5000 <? _); discriminate.
  - intros ->. destruct content as [|c content].
    + simpl. split; [lia|]. split; [congruence | lia].
    + simpl ArticleView.truthy. cbv iota. fold cut.
      assert (Hnote : Z.of_nat (length ArticleView.truncatedNote) = 29) by reflexivity.
      assert (Hcut : Z.of_nat cut = 5000) by (unfold cut; lia).
      destruct (Z.ltb_spec 5000 (Z.of_nat (length (c :: content)))) as [Hl|Hl].
      * split; [| split].
        -- rewrite length_app, length_take. lia.
        -- intros _ Hle. lia.
        -- intros _. split.
           ++ rewrite take_app_le by (rewrite length_take; lia).
              apply take_take.
           ++ rewrite drop_app_length'; [reflexivity|]. rewrite length_take. lia.
      * split; [lia|]. split; [reflexivity|]. lia.
  - intros target -> Hne. destruct target as [|c target]; [congruence|]. reflexivity.
Qed.

Lemma X28_shown_text_is_bounded_witness :
  ArticleView.shown
    (ArticleView.mk 12 (ArticleView.js "Anarchism") 0
       (ArticleView.js "Anarchism is a political philosophy") None)
  = ArticleView.js "Anarchism is a political philosophy"
  /\ ArticleView.shown
       (ArticleView.mk 10 (ArticleView.js "AccessibleComputing") 0 []
          (Some (ArticleView.js "Computer accessibility")))
     = ArticleView.js "This article redirects to: "
         ++ ArticleView.js "Computer accessibility".
Proof.
  split.
  - destruct (X28_shown_text_is_bounded
                (ArticleView.mk 12 (ArticleView.js "Anarchism") 0
                   (ArticleView.js "Anarchism is a political philosophy") None))
      as (_ & H & _).
    destruct (H eq_refl) as (_ & Hshort & _).
    apply Hshort; vm_compute; discriminate.
  - destruct (X28_shown_text_is_bounded
                (ArticleView.mk 10 (ArticleView.js "AccessibleComputing") 0 []
                   (Some (ArticleView.js "Computer accessibility"))))
      as (_ & _ & H).
    apply H; [reflexivity | vm_compute; discriminate].
Defined.

